(** * Pds: the oscilloscope processing core (MCU/pds/pds.cpp, MCU/pds/pds.h)

    A shallow embedding of the class [Pds]: trigger search, amplitude
    mapping, time decimation, Bresenham rasterisation and the orchestrating
    [processData], followed by the properties of the specification that
    were checked against it.

    Conventions.
    - C++ integers are [Z] with the wrap-around of their type written out
      ([to_uint8], [to_uint16], [to_int16], [to_uint32], [to_size_t]);
      [size_t] is 32 bits wide on the ESP32.
    - [float] is IEEE-754 binary32, computed with the reference operations
      of [SpecFloat] at precision 24 and maximal exponent 128.
    - A sample buffer is a [list Z] of bytes; a possibly null pointer to it
      is an [option].  Reading beyond the buffer is undefined behaviour in
      C++ and is the fault [OutOfBounds] here.
    - The output matrix is a base content together with the history of the
      cells stored into it, most recent first.
    - [while (true)] of [drawLine] runs on fuel; running out of it is the
      fault [OutOfFuel]. *)

From Stdlib Require Import ZArith List Bool Lia Ascii.
From Stdlib Require Import Floats.SpecFloat.
Import ListNotations.

Local Open Scope Z_scope.

(* ------------------------------------------------------------------ *)
(** ** Machine integers *)

Definition to_uint8 (z : Z) : Z := z mod 2 ^ 8.
Definition to_uint16 (z : Z) : Z := z mod 2 ^ 16.
Definition to_uint32 (z : Z) : Z := z mod 2 ^ 32.
Definition to_size_t (z : Z) : Z := z mod 2 ^ 32.
Definition to_int16 (z : Z) : Z := (z + 2 ^ 15) mod 2 ^ 16 - 2 ^ 15.

Definition is_uint8 (z : Z) : Prop := 0 <= z < 2 ^ 8.
Definition is_uint16 (z : Z) : Prop := 0 <= z < 2 ^ 16.
Definition is_size_t (z : Z) : Prop := 0 <= z < 2 ^ 32.

(** [#define SIZE_MAX ((size_t)-1)] *)
Definition SIZE_MAX : Z := to_size_t (-1).

(** [constrainValue<T>] on an integer type. *)
Definition constrainValue (value min_val max_val : Z) : Z :=
  if value <? min_val then min_val
  else if value >? max_val then max_val
  else value.

(* ------------------------------------------------------------------ *)
(** ** Results of a computation that may fault *)

Inductive fault : Type :=
| OutOfBounds   (* a read beyond the sample buffer *)
| OutOfFuel.    (* [while (true)] did not reach its [break] *)

Inductive result (A : Type) : Type :=
| Ok (a : A)
| Fault (f : fault).

Arguments Ok {A} a.
Arguments Fault {A} f.

Definition bind {A B : Type} (r : result A) (k : A -> result B) : result B :=
  match r with
  | Ok a => k a
  | Fault f => Fault f
  end.

Notation "x <- r ;; k" := (bind r (fun x => k))
  (at level 61, r at next level, right associativity).

(* ------------------------------------------------------------------ *)
(** ** The sample buffer *)

Definition buffer : Type := list Z.

(** [data[i]] *)
Definition read (data : buffer) (i : Z) : result Z :=
  if i <? 0 then Fault OutOfBounds
  else match nth_error data (Z.to_nat i) with
       | Some v => Ok v
       | None => Fault OutOfBounds
       end.

Definition buffer_ok (data : buffer) : Prop := Forall is_uint8 data.

(** The sample at index [i] of a buffer, for stating properties. *)
Definition sample (data : buffer) (i : Z) : Z := nth (Z.to_nat i) data 0.

(** [buffer[i] + ... + buffer[i + n - 1]] *)
Fixpoint sum_run (data : buffer) (i : Z) (n : nat) : Z :=
  match n with
  | O => 0
  | S n' => sample data i + sum_run data (i + 1) n'
  end.

(** [buffer[i-1] < level <= buffer[i]] *)
Definition rising_edge (data : buffer) (level i : Z) : Prop :=
  sample data (i - 1) < level <= sample data i.

(* ------------------------------------------------------------------ *)
(** ** The output matrix *)

Definition MATRIX_WIDTH : Z := 800.
Definition MATRIX_HEIGHT : Z := 600.

(** One store [matrix[y][x] = value]. *)
Record store : Type := mkStore { st_x : Z; st_y : Z; st_value : Z }.

(** [base y x] is the content before the stores of [stores] (most recent
    first) were made. *)
Record Matrix : Type := mkMatrix {
  base : Z -> Z -> Z;
  stores : list store
}.

Definition writeCell (m : Matrix) (y x value : Z) : Matrix :=
  mkMatrix (base m) (mkStore x y value :: stores m).

Fixpoint lookup (l : list store) (y x : Z) : option Z :=
  match l with
  | [] => None
  | s :: l' =>
      if (st_y s =? y) && (st_x s =? x) then Some (st_value s)
      else lookup l' y x
  end.

(** [matrix[y][x]] *)
Definition cell (m : Matrix) (y x : Z) : Z :=
  match lookup (stores m) y x with
  | Some v => v
  | None => base m y x
  end.

Definition in_matrix (x y : Z) : Prop :=
  0 <= x < MATRIX_WIDTH /\ 0 <= y < MATRIX_HEIGHT.

Definition store_in_matrix (s : store) : Prop := in_matrix (st_x s) (st_y s).

(** The matrix is all zero. *)
Definition cleared (m : Matrix) : Prop :=
  forall x y, in_matrix x y -> cell m y x = 0.

(** [for (v = lo; v < lo + n; v++) body] over a state [S]. *)
Fixpoint for_count {S : Type} (n : nat) (v : Z) (body : Z -> S -> S) (s : S) : S :=
  match n with
  | O => s
  | S n' => for_count n' (v + 1) body (body v s)
  end.

Definition clearMatrix (m : Matrix) : Matrix :=
  for_count (Z.to_nat MATRIX_HEIGHT) 0
    (fun y m1 =>
       for_count (Z.to_nat MATRIX_WIDTH) 0
         (fun x m2 => writeCell m2 y x 0) m1)
    m.

(* ------------------------------------------------------------------ *)
(** ** Single-precision floating point *)

Module Float32.

Definition prec : Z := 24.
Definition emax : Z := 128.

Definition float : Type := spec_float.

Definition mul : float -> float -> float := SFmul prec emax.
Definition div : float -> float -> float := SFdiv prec emax.
Definition ltb : float -> float -> bool := SFltb.

(** Conversion of an [int] (exact for the small values used here). *)
Definition of_int (z : Z) : float := binary_normalize prec emax z 0 false.

(** [(uint16_t) f]: truncation toward zero.  The conversion is undefined
    in C++ when the truncated value does not fit (and for NaN and the
    infinities); the value is reduced modulo [2 ^ 16] there, and NaN and
    the infinities convert to 0. *)
Definition trunc (f : float) : Z :=
  match f with
  | S754_finite s m e =>
      let a := match e with
               | Zneg p => Z.pos m / 2 ^ Z.pos p
               | _ => Z.pos m * 2 ^ e
               end in
      if s then - a else a
  | _ => 0
  end.

Definition to_uint16_t (f : float) : Z := to_uint16 (trunc f).

(** [constrainValue<float>] *)
Definition constrain (value min_val max_val : float) : float :=
  if ltb value min_val then min_val
  else if ltb max_val value then max_val
  else value.

Definition zero : float := S754_zero false.
Definition one : float := Eval cbv in of_int 1.
Definition f255 : float := Eval cbv in of_int 255.
Definition f599 : float := Eval cbv in of_int 599.

End Float32.

(* ------------------------------------------------------------------ *)
(** ** The processor *)

Inductive TriggerMode : Type :=
| TRIGGER_OFF
| TRIGGER_RISING
| TRIGGER_FALLING
| TRIGGER_LEVEL.

Record Pds : Type := mkPds {
  _triggerMode : TriggerMode;
  _triggerLevel : Z;
  _amplitudeScale : Float32.float;
  _samplesPerPixel : Z;
  _initialized : bool;
  _triggerDetected : bool;
  _triggerPosition : Z
}.

(** [Pds::Pds()] *)
Definition Pds_new : Pds :=
  mkPds TRIGGER_OFF 128 Float32.one 1 false false 0.

Definition begin (p : Pds) : Pds :=
  mkPds (_triggerMode p) (_triggerLevel p) (_amplitudeScale p)
        (_samplesPerPixel p) true (_triggerDetected p) (_triggerPosition p).

Definition setTrigger (p : Pds) (mode : TriggerMode) (level : Z) : Pds :=
  mkPds mode level (_amplitudeScale p)
        (_samplesPerPixel p) (_initialized p) (_triggerDetected p)
        (_triggerPosition p).

Definition setAmplitudeScale (p : Pds) (scale : Float32.float) : Pds :=
  if Float32.ltb Float32.zero scale then
    mkPds (_triggerMode p) (_triggerLevel p) scale
          (_samplesPerPixel p) (_initialized p) (_triggerDetected p)
          (_triggerPosition p)
  else p.

Definition setTimeScale (p : Pds) (samplesPerPixel : Z) : Pds :=
  if samplesPerPixel >? 0 then
    mkPds (_triggerMode p) (_triggerLevel p) (_amplitudeScale p)
          samplesPerPixel (_initialized p) (_triggerDetected p)
          (_triggerPosition p)
  else p.

Definition getTriggerStatus (p : Pds) : bool := _triggerDetected p.
Definition getTriggerPosition (p : Pds) : Z := _triggerPosition p.

(* ------------------------------------------------------------------ *)
(** ** Trigger detector *)

(** [for (i = i0; i < i0 + n; i++) if (test i) return i;] and, after the
    loop, [return SIZE_MAX]. *)
Fixpoint search (test : Z -> result bool) (n : nat) (i : Z) : result Z :=
  match n with
  | O => Ok SIZE_MAX
  | S n' =>
      b <- test i ;;
      if b then Ok i else search test n' (to_size_t (i + 1))
  end.

(** [data[i-1] < level && data[i] >= level] *)
Definition rising_at (data : buffer) (level i : Z) : result bool :=
  a <- read data (i - 1) ;;
  if a <? level then (b <- read data i ;; Ok (b >=? level)) else Ok false.

(** [data[i-1] >= level && data[i] < level] *)
Definition falling_at (data : buffer) (level i : Z) : result bool :=
  a <- read data (i - 1) ;;
  if a >=? level then (b <- read data i ;; Ok (b <? level)) else Ok false.

(** [(data[i] >= level && (i == 0 || data[i-1] < level)) ||
     (data[i] < level && (i == 0 || data[i-1] >= level))] *)
Definition level_at (data : buffer) (level i : Z) : result bool :=
  c <- read data i ;;
  l <- (if c >=? level then
          if i =? 0 then Ok true
          else (a <- read data (i - 1) ;; Ok (a <? level))
        else Ok false) ;;
  if l then Ok true
  else
    c' <- read data i ;;
    if c' <? level then
      if i =? 0 then Ok true
      else (a <- read data (i - 1) ;; Ok (a >=? level))
    else Ok false.

Definition findTrigger (p : Pds) (data : buffer) (length : Z) : result Z :=
  if length <? 2 then Ok SIZE_MAX
  else
    match _triggerMode p with
    | TRIGGER_RISING =>
        search (rising_at data (_triggerLevel p)) (Z.to_nat (length - 1)) 1
    | TRIGGER_FALLING =>
        search (falling_at data (_triggerLevel p)) (Z.to_nat (length - 1)) 1
    | TRIGGER_LEVEL =>
        search (level_at data (_triggerLevel p)) (Z.to_nat length) 0
    | TRIGGER_OFF => Ok SIZE_MAX
    end.

(* ------------------------------------------------------------------ *)
(** ** Amplitude mapper *)

Definition scaleAmplitude (p : Pds) (value : Z) : Z :=
  let scaledValue := Float32.mul (Float32.of_int value) (_amplitudeScale p) in
  let scaledValue :=
    Float32.constrain scaledValue Float32.zero Float32.f255 in
  let y :=
    to_uint16
      (MATRIX_HEIGHT - 1 -
       Float32.to_uint16_t
         (Float32.mul (Float32.div scaledValue Float32.f255)
                      (Float32.of_int (MATRIX_HEIGHT - 1)))) in
  constrainValue y (to_uint16 0) (to_uint16 (MATRIX_HEIGHT - 1)).

(* ------------------------------------------------------------------ *)
(** ** Rasterizer *)

(** The guarded store at the head of the loop body of [drawLine]. *)
Definition plot (m : Matrix) (x y value : Z) : Matrix :=
  if (x >=? 0) && (x <? MATRIX_WIDTH) && (y >=? 0) && (y <? MATRIX_HEIGHT)
  then writeCell m y x value
  else m.

(** One pass through the loop body of [drawLine] after the [break] test:
    the next [(x, y, err)]. *)
Definition line_step (dx dy sx sy : Z) (x y err : Z) : Z * Z * Z :=
  let e2 := to_int16 (2 * err) in
  let err1 := if e2 >? - dy then to_int16 (err - dy) else err in
  let x' := if e2 >? - dy then to_int16 (x + sx) else x in
  let err2 := if e2 <? dx then to_int16 (err1 + dx) else err1 in
  let y' := if e2 <? dx then to_int16 (y + sy) else y in
  (x', y', err2).

(** [while (true) { ... }] of [drawLine]. *)
Fixpoint drawLine_loop (fuel : nat) (m : Matrix)
    (x2 y2 dx dy sx sy value : Z) (x y err : Z) : result Matrix :=
  match fuel with
  | O => Fault OutOfFuel
  | S fuel' =>
      let m := plot m x y value in
      if (x =? x2) && (y =? y2) then Ok m
      else
        match line_step dx dy sx sy x y err with
        | (x', y', err') =>
            drawLine_loop fuel' m x2 y2 dx dy sx sy value x' y' err'
        end
  end.

Definition drawLine (fuel : nat) (m : Matrix) (x1 y1 x2 y2 value : Z)
  : result Matrix :=
  if (x1 >=? MATRIX_WIDTH) || (x2 >=? MATRIX_WIDTH)
     || (y1 >=? MATRIX_HEIGHT) || (y2 >=? MATRIX_HEIGHT)
  then Ok m
  else
    let dx := to_int16 (Z.abs (to_int16 x2 - to_int16 x1)) in
    let dy := to_int16 (Z.abs (to_int16 y2 - to_int16 y1)) in
    let sx := if x1 <? x2 then 1 else -1 in
    let sy := if y1 <? y2 then 1 else -1 in
    let err := to_int16 (dx - dy) in
    drawLine_loop fuel m x2 y2 dx dy sx sy value
                  (to_int16 x1) (to_int16 y1) err.

(** [m'] is [m] after the stores [ws] (most recent first). *)
Definition extends_by (m m' : Matrix) (ws : list store) : Prop :=
  stores m' = ws ++ stores m /\ base m' = base m.

(** The stores a call added to the matrix, oldest first. *)
Definition new_stores (m m' : Matrix) : list store :=
  rev (firstn (length (stores m') - length (stores m)) (stores m')).

(** Two cells one step apart in x, in y, or in both. *)
Definition adjacent (a b : store) : Prop :=
  Z.max (Z.abs (st_x b - st_x a)) (Z.abs (st_y b - st_y a)) = 1.

Fixpoint chain (l : list store) : Prop :=
  match l with
  | a :: ((b :: _) as l') => adjacent a b /\ chain l'
  | _ => True
  end.

(** [b] is one step from [a] in the directions [sx] and [sy]: it moves
    by [sx] in x or not at all, by [sy] in y or not at all, and it does
    move. *)
Definition toward (sx sy : Z) (a b : store) : Prop :=
  (st_x b = st_x a + sx \/ st_x b = st_x a) /\
  (st_y b = st_y a + sy \/ st_y b = st_y a) /\
  (st_x b <> st_x a \/ st_y b <> st_y a).

(** Every cell of the list is one step from the cell before it, always
    in the same directions. *)
Fixpoint monotone (sx sy : Z) (l : list store) : Prop :=
  match l with
  | a :: ((b :: _) as l') => toward sx sy a b /\ monotone sx sy l'
  | _ => True
  end.

(** The cells the stores of a list go to. *)
Definition cells (l : list store) : list (Z * Z) :=
  map (fun s => (st_x s, st_y s)) l.

(** What a run of the loop of [drawLine] from the point [(x, y)] yields
    when it reaches its [break]: the matrix extended by the cells
    [(x, y) :: tr], stored in this order, which form a chain of [k + 1]
    cells inside the matrix that steps monotonically toward the target
    and ends there. *)
Definition run_from (x2 y2 dx dy sx sy value : Z)
    (fuel : nat) (m : Matrix) (x y err : Z) (k : nat) : Prop :=
  exists tr,
    drawLine_loop fuel m x2 y2 dx dy sx sy value x y err =
      Ok (mkMatrix (base m) (rev (mkStore x y value :: tr) ++ stores m)) /\
    length tr = k /\ chain (mkStore x y value :: tr) /\
    Forall store_in_matrix (mkStore x y value :: tr) /\
    Forall (fun s => st_value s = value) tr /\
    monotone sx sy (mkStore x y value :: tr) /\
    forall d, last (mkStore x y value :: tr) d = mkStore x2 y2 value.

(* ------------------------------------------------------------------ *)
(** ** Processor *)

Definition set_trigger_state (p : Pds) (detected : bool) (position : Z) : Pds :=
  mkPds (_triggerMode p) (_triggerLevel p) (_amplitudeScale p)
        (_samplesPerPixel p) (_initialized p) detected position.

(** [pixelsToFill] for a given [startIndex]. *)
Definition pixelsToFill (p : Pds) (inputLength startIndex : Z) : Z :=
  let availableSamples := to_size_t (inputLength - startIndex) in
  if availableSamples / _samplesPerPixel p <? MATRIX_WIDTH
  then availableSamples / _samplesPerPixel p
  else MATRIX_WIDTH.

(** [startIndex + (x * _samplesPerPixel)] *)
Definition sampleIndexOf (p : Pds) (startIndex x : Z) : Z :=
  to_size_t (startIndex + to_size_t (x * _samplesPerPixel p)).

(** The averaging loop
    [for (i = 0; i < _samplesPerPixel && (sampleIndex + i) < inputLength; i++)],
    entered with [n] iterations left before [i] reaches [_samplesPerPixel];
    it returns [(sum, sampleCount)]. *)
Fixpoint averageRun (n : nat) (data : buffer) (inputLength sampleIndex : Z)
    (i sum sampleCount : Z) : result (Z * Z) :=
  match n with
  | O => Ok (sum, sampleCount)
  | S n' =>
      if to_size_t (sampleIndex + i) <? inputLength then
        v <- read data (to_size_t (sampleIndex + i)) ;;
        averageRun n' data inputLength sampleIndex
                   (to_size_t (i + 1)) (to_uint32 (sum + v))
                   (to_size_t (sampleCount + 1))
      else Ok (sum, sampleCount)
  end.

(** [(sampleCount > 0) ? (sum / sampleCount) : inputData[sampleIndex]],
    stored into a [uint8_t]. *)
Definition avgValue (data : buffer) (sampleIndex sum sampleCount : Z)
  : result Z :=
  v <- (if sampleCount >? 0 then Ok (sum / sampleCount)
        else read data sampleIndex) ;;
  Ok (to_uint8 v).

(** [for (x = ...; x < pixelsToFill; x++)], entered with [n] columns left. *)
Fixpoint columns (n : nat) (fuel : nat) (p : Pds) (data : buffer)
    (inputLength startIndex : Z) (x prevY : Z) (m : Matrix) : result Matrix :=
  match n with
  | O => Ok m
  | S n' =>
      let sampleIndex := sampleIndexOf p startIndex x in
      if sampleIndex >=? inputLength then Ok m
      else
        sc <- averageRun (Z.to_nat (_samplesPerPixel p)) data inputLength
                         sampleIndex 0 0 0 ;;
        avg <- avgValue data sampleIndex (fst sc) (snd sc) ;;
        let currentY := scaleAmplitude p avg in
        m' <- drawLine fuel m (to_uint16 (x - 1)) prevY (to_uint16 x)
                       currentY 255 ;;
        columns n' fuel p data inputLength startIndex
                (to_size_t (x + 1)) currentY m'
  end.

(** What a call returns: the [bool], the processor after the call and the
    matrix after the call. *)
Record outcome : Type := mkOutcome {
  success : bool;
  pds_after : Pds;
  matrix_after : option Matrix
}.

(** The trigger search of [processData]: the start index and the
    processor with the trigger state recorded. *)
Definition locateTrigger (p : Pds) (data : buffer) (inputLength : Z)
  : result (Z * Pds) :=
  let p := set_trigger_state p false (_triggerPosition p) in
  match _triggerMode p with
  | TRIGGER_OFF => Ok (0, p)
  | _ =>
      triggerPos <- findTrigger p data inputLength ;;
      if triggerPos =? SIZE_MAX then Ok (0, p)
      else Ok (triggerPos, set_trigger_state p true triggerPos)
  end.

Definition processData (fuel : nat) (p : Pds) (inputData : option buffer)
    (inputLength : Z) (outputMatrix : option Matrix) : result outcome :=
  match inputData, outputMatrix with
  | Some data, Some matrix =>
      if negb (_initialized p) || (inputLength =? 0)
      then Ok (mkOutcome false p outputMatrix)
      else
        let matrix := clearMatrix matrix in
        sp <- locateTrigger p data inputLength ;;
        let startIndex := fst sp in
        let p := snd sp in
        let pixels := pixelsToFill p inputLength startIndex in
        if pixels =? 0 then Ok (mkOutcome false p (Some matrix))
        else
          v <- read data startIndex ;;
          let prevY := scaleAmplitude p v in
          matrix' <- columns (Z.to_nat (pixels - 1)) fuel p data inputLength
                             startIndex 1 prevY matrix ;;
          Ok (mkOutcome true p (Some matrix'))
  | _, _ => Ok (mkOutcome false p outputMatrix)
  end.

(** Fuel that lets every [drawLine] inside the matrix finish. *)
Definition line_fuel : nat := Z.to_nat (MATRIX_WIDTH + MATRIX_HEIGHT).

(** A call that can really be made: the declared length fits [size_t] and
    the buffer holds at least that many bytes. *)
Definition input_ok (data : buffer) (inputLength : Z) : Prop :=
  is_size_t inputLength /\
  inputLength <= Z.of_nat (length data) /\
  buffer_ok data.

(** The configuration invariant of the specification. *)
Definition config_ok (p : Pds) : Prop :=
  Float32.ltb Float32.zero (_amplitudeScale p) = true /\
  1 <= _samplesPerPixel p.

(** The processors a program can hold: a constructed one, and what the
    public member functions make of one. *)
Inductive reachable : Pds -> Prop :=
| reach_new : reachable Pds_new
| reach_begin p : reachable p -> reachable (begin p)
| reach_setTrigger p mode level :
    reachable p -> reachable (setTrigger p mode level)
| reach_setAmplitudeScale p scale :
    reachable p -> reachable (setAmplitudeScale p scale)
| reach_setTimeScale p samplesPerPixel :
    reachable p -> is_uint16 samplesPerPixel ->
    reachable (setTimeScale p samplesPerPixel)
| reach_processData p fuel inputData inputLength outputMatrix o :
    reachable p ->
    processData fuel p inputData inputLength outputMatrix = Ok o ->
    reachable (pds_after o).

(* ------------------------------------------------------------------ *)
(** ** Further vocabulary for properties *)

(** [buffer[i-1] >= level > buffer[i]] *)
Definition falling_edge (data : buffer) (level i : Z) : Prop :=
  sample data i < level <= sample data (i - 1).

(** The store lies in the rectangle spanned by two points. *)
Definition in_box (x1 y1 x2 y2 : Z) (s : store) : Prop :=
  Z.min x1 x2 <= st_x s <= Z.max x1 x2 /\
  Z.min y1 y2 <= st_y s <= Z.max y1 y2.

(** As [run_from], but saying where the cells lie: all of them hold
    [value] and lie in the rectangle spanned by the start point of the
    line and its target, and the target is among them. *)
Definition run_full (x2 y2 dx dy sx sy value : Z)
    (fuel : nat) (m : Matrix) (x y err : Z) : Prop :=
  exists tr,
    drawLine_loop fuel m x2 y2 dx dy sx sy value x y err =
      Ok (mkMatrix (base m) (rev (mkStore x y value :: tr) ++ stores m)) /\
    Forall (fun s => st_value s = value /\
                     in_box (x2 - sx * dx) (y2 - sy * dy) x2 y2 s)
           (mkStore x y value :: tr) /\
    In (mkStore x2 y2 value) (mkStore x y value :: tr).

(** The row of the waveform point of column [x]: column 0 shows the raw
    sample at [startIndex], a later column the average of its run of
    [_samplesPerPixel] samples. *)
Definition columnY (p : Pds) (data : buffer) (startIndex x : Z) : Z :=
  if x =? 0 then scaleAmplitude p (sample data startIndex)
  else scaleAmplitude p
         (to_uint8
            (sum_run data (startIndex + x * _samplesPerPixel p)
                     (Z.to_nat (_samplesPerPixel p))
             / _samplesPerPixel p)).

(** The amplitude scales of the test program: [2.0f] and [0.5f]. *)
Definition scale_2_0 : Float32.float := Eval cbv in Float32.of_int 2.
Definition scale_0_5 : Float32.float :=
  Eval cbv in Float32.div Float32.one (Float32.of_int 2).

(** The values of a [uint8_t]. *)
Definition all_bytes : list Z := map Z.of_nat (seq 0 256).

(* ------------------------------------------------------------------ *)
(** ** RamReader (MCU/ram_reader/ram_reader.h, ram_reader.cpp)

    The reader talks to the memory through the SPI peripheral.  What is
    behind the peripheral is not part of the program: it is a device with
    a state of some type [D] that answers every byte clocked out with a
    byte ([_spi->transfer]) and sees the chip-select pin change
    ([digitalWrite(_cs, ...)]).  [beginTransaction], [endTransaction],
    [pinMode] and [_spi->begin] set the bus up and move no data; they are
    left out. *)

Record SpiDevice (D : Type) : Type := mkSpiDevice {
  spi_transfer : D -> Z -> D * Z;
  spi_select : D -> bool -> D
}.

Arguments spi_transfer {D} _ _ _.
Arguments spi_select {D} _ _ _.

Module Ram.

Definition CMD_READ : Z := 3.

Record RamReader : Type := mkRamReader {
  _cs : Z;
  _ramSize : Z;
  _initialized : bool;
  _addrBytes : Z
}.

(** [RamReader::RamReader(pinCS, spi)] *)
Definition RamReader_new (pinCS : Z) : RamReader :=
  mkRamReader pinCS 1024 false 3.

Definition isReady (r : RamReader) : bool := _initialized r.

(** The bytes of an address, most significant first, as the memory
    expects them. *)
Definition address_bytes (addr : Z) : list Z :=
  [Z.land (Z.shiftr addr 16) 255; Z.land (Z.shiftr addr 8) 255;
   Z.land addr 255].

(** Reading a big-endian byte sequence back: [(acc << 8) | b]. *)
Definition decode_address (bytes : list Z) : Z :=
  fold_left (fun acc b => Z.lor (Z.shiftl acc 8) b) bytes 0.

(** Writing [bytes] into a buffer from index [off] on; a store beyond the
    buffer is the fault [OutOfBounds]. *)
Definition write_bytes (buf : list Z) (off : Z) (bytes : list Z)
  : result (list Z) :=
  if (off <? 0) || (Z.of_nat (length buf) <? off + Z.of_nat (length bytes))
  then Fault OutOfBounds
  else Ok (firstn (Z.to_nat off) buf ++ bytes
           ++ skipn (Z.to_nat off + length bytes) buf).

(** The two ways [readBlock] is compiled: with [transferBytes] on the
    ESP32, byte by byte elsewhere. *)
Inductive arch : Type := ARDUINO_ARCH_ESP32 | OTHER_CORE.

Section WithDevice.

Context {D : Type} (dev : SpiDevice D).

(** Clocking a sequence of bytes out, collecting the answers. *)
Fixpoint transfers (d : D) (bytes : list Z) : D * list Z :=
  match bytes with
  | [] => (d, [])
  | b :: bs =>
      let (d1, r) := spi_transfer dev d b in
      let (d2, rs) := transfers d1 bs in
      (d2, r :: rs)
  end.

(** [void RamReader::begin()] *)
Definition begin (r : RamReader) (d : D) : RamReader * D :=
  (mkRamReader (_cs r) (_ramSize r) true (_addrBytes r),
   spi_select dev d false).

(** [for (int8_t i = ...; i >= 0; --i) _spi->transfer((addr >> (8 * i)) & 0xFF)],
    entered with [n] bytes left to send. *)
Fixpoint sendAddress_loop (n : nat) (i : Z) (d : D) (addr : Z) : D :=
  match n with
  | O => d
  | S n' =>
      let (d1, _) :=
        spi_transfer dev d (Z.land (Z.shiftr addr (8 * i)) 255) in
      sendAddress_loop n' (i - 1) d1 addr
  end.

Definition sendAddress (r : RamReader) (d : D) (addr : Z) : D :=
  sendAddress_loop (Z.to_nat (_addrBytes r)) (_addrBytes r - 1) d addr.

(** [uint8_t RamReader::readByte(uint32_t addr)] *)
Definition readByte (r : RamReader) (d : D) (addr : Z) : D * Z :=
  if negb (_initialized r) then (d, 0)
  else if negb (_ramSize r =? 0) && (addr >=? _ramSize r) then (d, 0)
  else
    let d := spi_select dev d true in
    let (d, _) := spi_transfer dev d CMD_READ in
    let d := sendAddress r d addr in
    let (d, data) := spi_transfer dev d 0 in
    let d := spi_select dev d false in
    (d, to_uint8 data).

(** The burst of [readBlock] on the ESP32:
    [while (remaining) { n = min(remaining, 64); transferBytes(zeros, buffer, n); ... }]
    with the 64 zero bytes of [zeros]; [off] is how far [buffer] has
    moved. *)
Fixpoint burst_chunks (fuel : nat) (d : D) (buf : list Z)
    (off remaining : Z) : result (D * list Z) :=
  match fuel with
  | O => if remaining =? 0 then Ok (d, buf) else Fault OutOfFuel
  | S fuel' =>
      if remaining =? 0 then Ok (d, buf)
      else
        let n := if remaining >? 64 then 64 else remaining in
        let (d1, answers) :=
          transfers d (firstn (Z.to_nat n) (repeat 0 64)) in
        buf1 <- write_bytes buf off (map to_uint8 answers) ;;
        burst_chunks fuel' d1 buf1 (off + n) (to_size_t (remaining - n))
  end.

(** The burst of [readBlock] elsewhere:
    [for (i = 0; i < len; ++i) buffer[i] = _spi->transfer(0x00)],
    entered with [n] bytes left. *)
Fixpoint burst_bytes (n : nat) (d : D) (buf : list Z) (i : Z)
  : result (D * list Z) :=
  match n with
  | O => Ok (d, buf)
  | S n' =>
      let (d1, answer) := spi_transfer dev d 0 in
      buf1 <- write_bytes buf i [to_uint8 answer] ;;
      burst_bytes n' d1 buf1 (to_size_t (i + 1))
  end.

(** [void RamReader::readBlock(uint32_t addr, uint8_t* buffer, size_t len)];
    [fuel] bounds the iterations of the [while] loop of the ESP32
    variant. *)
Definition readBlock (a : arch) (fuel : nat) (r : RamReader) (d : D)
    (addr : Z) (buffer : option (list Z)) (len : Z)
  : result (D * option (list Z)) :=
  match buffer with
  | None => Ok (d, None)
  | Some buf =>
      if negb (_initialized r) || (len =? 0) then Ok (d, buffer)
      else if negb (_ramSize r =? 0) && (addr >=? _ramSize r)
      then Ok (d, buffer)
      else
        let len :=
          if negb (_ramSize r =? 0) then
            let maxlen := to_uint32 (_ramSize r - addr) in
            if len >? maxlen then maxlen else len
          else len in
        let d := spi_select dev d true in
        let (d, _) := spi_transfer dev d CMD_READ in
        let d := sendAddress r d addr in
        db <- match a with
              | ARDUINO_ARCH_ESP32 => burst_chunks fuel d buf 0 len
              | OTHER_CORE => burst_bytes (Z.to_nat len) d buf 0
              end ;;
        let d := spi_select dev (fst db) false in
        Ok (d, Some (snd db))
  end.

(** [void RamReader::end()] *)
Definition end_ (r : RamReader) : RamReader :=
  mkRamReader (_cs r) (_ramSize r) false (_addrBytes r).

(** How many bytes [readBlock] asks the memory for. *)
Definition block_length (r : RamReader) (addr len : Z) : Z :=
  if negb (_initialized r) || (len =? 0) then 0
  else if _ramSize r =? 0 then len
  else if addr >=? _ramSize r then 0
  else Z.min len (_ramSize r - addr).

(** One read transaction of [n] data bytes as the device sees it: selected,
    the command, the three address bytes, [n] zero bytes, deselected.  It
    yields the device afterwards and the [n] bytes it answered. *)
Definition frame (d : D) (addr : Z) (n : nat) : D * list Z :=
  let (d1, answers) :=
    transfers (spi_select dev d true)
              (CMD_READ :: address_bytes addr ++ repeat 0 n) in
  (spi_select dev d1 false, map to_uint8 (skipn 4 answers)).

End WithDevice.

End Ram.

(** A device for examples: it answers the [k]-th byte it is sent with
    [k]. *)
Definition counting_device : SpiDevice Z :=
  mkSpiDevice Z (fun d _ => (d + 1, d)) (fun d _ => d).

(* ------------------------------------------------------------------ *)
(** ** The simulated memory (MCU/main2.ino; the same interrupt routine is
    in the sensor example)

    The interrupt routine is a function of the byte received and of the
    [volatile] globals; it sets the byte to send next, [wr_buf].  The
    flags of the SPI peripheral it clears at its end are left out.
    Reading [simulatedRAM] beyond its end is the fault [OutOfBounds]. *)

Module Sim.

Definition RAM_SIZE : Z := 65536.
Definition CMD_READ : Z := 3.
Definition ADDR_BYTES : Z := 3.

Record Slave : Type := mkSlave {
  simulatedRAM : list Z;
  dataRequested : bool;
  currentAddress : Z;
  addressBytesReceived : Z;
  command : Z;
  commandReceived : bool;
  wr_buf : Z
}.

(** The state [setup] leaves, for a memory content [ram]. *)
Definition after_setup (ram : list Z) : Slave :=
  mkSlave ram false 0 0 0 false 0.

(** [void IRAM_ATTR spiSlaveISR()] *)
Definition spiSlaveISR (s : Slave) (receivedByte : Z) : result Slave :=
  if negb (commandReceived s) then
    Ok (mkSlave (simulatedRAM s) (dataRequested s) 0 0 receivedByte true
                (wr_buf s))
  else if (command s =? CMD_READ) && (addressBytesReceived s <? ADDR_BYTES)
  then
    let address :=
      Z.lor (to_uint32 (Z.shiftl (currentAddress s) 8)) receivedByte in
    let received := to_uint8 (addressBytesReceived s + 1) in
    if received =? ADDR_BYTES then
      Ok (mkSlave (simulatedRAM s) true
                  (if address >=? RAM_SIZE then 0 else address)
                  received (command s) (commandReceived s) (wr_buf s))
    else
      Ok (mkSlave (simulatedRAM s) (dataRequested s) address
                  received (command s) (commandReceived s) (wr_buf s))
  else if (command s =? CMD_READ) && dataRequested s then
    v <- read (simulatedRAM s) (currentAddress s) ;;
    Ok (mkSlave (simulatedRAM s) (dataRequested s)
                (to_uint32 ((currentAddress s + 1) mod RAM_SIZE))
                (addressBytesReceived s) (command s) (commandReceived s) v)
  else Ok s.

(** The reset [loop] makes after ten seconds:
    [if (!dataRequested && commandReceived) commandReceived = false]. *)
Definition inactivityReset (s : Slave) : Slave :=
  if negb (dataRequested s) && commandReceived s then
    mkSlave (simulatedRAM s) (dataRequested s) (currentAddress s)
            (addressBytesReceived s) (command s) false (wr_buf s)
  else s.

(** The routine run once for each byte of a sequence. *)
Fixpoint receive (s : Slave) (bytes : list Z) : result Slave :=
  match bytes with
  | [] => Ok s
  | b :: bs => s1 <- spiSlaveISR s b ;; receive s1 bs
  end.

(** The states the simulator can be in: the one [setup] leaves, and what
    a received byte or the reset of [loop] makes of one. *)
Inductive reachable (ram : list Z) : Slave -> Prop :=
| reach_setup : reachable ram (after_setup ram)
| reach_byte s b s' :
    reachable ram s -> is_uint8 b -> spiSlaveISR s b = Ok s' ->
    reachable ram s'
| reach_reset s : reachable ram s -> reachable ram (inactivityReset s).

(** The routine is serving data: it has decoded a read command and its
    address, which lies inside the memory. *)
Definition serving (s : Slave) : Prop :=
  dataRequested s = true /\ commandReceived s = true /\
  command s = CMD_READ /\ addressBytesReceived s = ADDR_BYTES /\
  0 <= currentAddress s < RAM_SIZE.

End Sim.

(* ------------------------------------------------------------------ *)
(** ** The oscilloscope program (MCU/MCU.ino)

    The globals of the sketch and the [static] locals of its functions
    make up the state; the text written to [Serial] is left out, and so
    are the modules that are only stubs ([uartComm], [display],
    [peripherals], [net]).  Of the clock only what [loop] asks of it is
    kept: whether the capture interval has elapsed. *)

Module Mcu.

Definition SAMPLE_BUFFER_SIZE : Z := 1024.

(** [const uint32_t addresses[]]:
    0x0000, 0x2000, 0x4000, 0x6000, 0x8000, 0xA000, 0xC000. *)
Definition addresses : list Z :=
  [0; 8192; 16384; 24576; 32768; 40960; 49152].

(** The constants [1.25f], [0.8f], [0.1f] and [10.0f]. *)
Definition f1_25 : Float32.float :=
  Eval cbv in Float32.div (Float32.of_int 5) (Float32.of_int 4).
Definition f0_8 : Float32.float :=
  Eval cbv in Float32.div (Float32.of_int 4) (Float32.of_int 5).
Definition f0_1 : Float32.float :=
  Eval cbv in Float32.div (Float32.of_int 1) (Float32.of_int 10).
Definition f10_0 : Float32.float := Eval cbv in Float32.of_int 10.

Record State (D : Type) : Type := mkState {
  ram : Ram.RamReader;
  bus : D;
  pds : Pds;
  sampleBuffer : list Z;
  displayMatrix : Matrix;
  currentRAMAddress : Z;
  continuousMode : bool;
  currentMode : TriggerMode;
  addressIndex : Z;
  currentScale : Float32.float
}.

Arguments mkState {D} _ _ _ _ _ _ _ _ _ _.
Arguments ram {D} _.
Arguments bus {D} _.
Arguments pds {D} _.
Arguments sampleBuffer {D} _.
Arguments displayMatrix {D} _.
Arguments currentRAMAddress {D} _.
Arguments continuousMode {D} _.
Arguments currentMode {D} _.
Arguments addressIndex {D} _.
Arguments currentScale {D} _.

(** A finite number: a zero of either sign or a number with a mantissa
    and an exponent, but no infinity and no NaN. *)
Definition finite (f : Float32.float) : Prop :=
  match f with
  | S754_zero _ | S754_finite _ _ _ => True
  | S754_infinity _ | S754_nan => False
  end.

(** A scale the clamp of [adjustAmplitudeScale] lets through. *)
Definition scale_in_range (f : Float32.float) : Prop :=
  (exists m e, f = S754_finite false m e) /\
  Float32.ltb f f0_1 = false /\ Float32.ltb f10_0 f = false.

(** [void showMatrixStats()]: the three numbers it prints,
    [(pixelsDrawn, maxValue, minValue)]. *)
Definition showMatrixStats (m : Matrix) : Z * Z * Z :=
  for_count (Z.to_nat MATRIX_HEIGHT) 0
    (fun y acc =>
       for_count (Z.to_nat MATRIX_WIDTH) 0
         (fun x acc =>
            let '(pixelsDrawn, maxValue, minValue) := acc in
            let pixelValue := cell m y x in
            if pixelValue >? 0 then
              (to_uint32 (pixelsDrawn + 1),
               if pixelValue >? maxValue then pixelValue else maxValue,
               if pixelValue <? minValue then pixelValue else minValue)
            else acc)
         acc)
    (0, 0, 255).

(** The cells the scan of [showMatrixStats] has passed when it stands at
    row [y], column [x]. *)
Definition scanned (y x y' x' : Z) : Prop :=
  in_matrix x' y' /\ (y' < y \/ (y' = y /\ x' < x)).

(** What the three variables of [showMatrixStats] hold at that point,
    for a matrix of cells 0 and 255. *)
Definition stats_at (m : Matrix) (y x : Z) (acc : Z * Z * Z) : Prop :=
  let '(pixelsDrawn, maxValue, minValue) := acc in
  minValue = 255 /\
  0 <= pixelsDrawn <= y * MATRIX_WIDTH + x /\
  ((pixelsDrawn = 0 /\ maxValue = 0 /\
    forall y' x', scanned y x y' x' -> cell m y' x' = 0) \/
   (0 < pixelsDrawn /\ maxValue = 255 /\
    exists y' x', scanned y x y' x' /\ cell m y' x' = 255)).

Section WithDevice.

Context {D : Type} (dev : SpiDevice D).

(** The globals before [setup] runs, for a device in the state [d]. *)
Definition power_on (d : D) : State D :=
  mkState (Ram.RamReader_new 5) d Pds_new
          (repeat 0 (Z.to_nat SAMPLE_BUFFER_SIZE))
          (mkMatrix (fun _ _ => 0) [])
          0 true TRIGGER_RISING 0 Float32.one.

(** [void setup()] *)
Definition setup (s : State D) : State D :=
  let (r, d) := Ram.begin dev (ram s) (bus s) in
  let p := begin (pds s) in
  let p := setTrigger p TRIGGER_RISING 128 in
  let p := setAmplitudeScale p Float32.one in
  let p := setTimeScale p 1 in
  mkState r d p (sampleBuffer s) (displayMatrix s) (currentRAMAddress s)
          (continuousMode s) (currentMode s) (addressIndex s)
          (currentScale s).

(** [void performDataCapture()] *)
Definition performDataCapture (a : Ram.arch) (fuel : nat) (s : State D)
  : result (State D) :=
  if negb (Ram.isReady (ram s)) then Ok s
  else
    db <- Ram.readBlock dev a fuel (ram s) (bus s) (currentRAMAddress s)
                        (Some (sampleBuffer s)) SAMPLE_BUFFER_SIZE ;;
    let buffer := match snd db with
                  | Some buffer => buffer
                  | None => sampleBuffer s
                  end in
    o <- processData fuel (pds s) (Some buffer) SAMPLE_BUFFER_SIZE
                     (Some (displayMatrix s)) ;;
    Ok (mkState (ram s) (fst db) (pds_after o) buffer
                (match matrix_after o with
                 | Some m => m
                 | None => displayMatrix s
                 end)
                (currentRAMAddress s) (continuousMode s) (currentMode s)
                (addressIndex s) (currentScale s)).

(** The mode that follows in [cycleTriggerMode]. *)
Definition next_mode (mode : TriggerMode) : TriggerMode :=
  match mode with
  | TRIGGER_OFF => TRIGGER_RISING
  | TRIGGER_RISING => TRIGGER_FALLING
  | TRIGGER_FALLING => TRIGGER_LEVEL
  | TRIGGER_LEVEL => TRIGGER_OFF
  end.

(** [void cycleTriggerMode()] *)
Definition cycleTriggerMode (s : State D) : State D :=
  let mode := next_mode (currentMode s) in
  mkState (ram s) (bus s) (setTrigger (pds s) mode 128) (sampleBuffer s)
          (displayMatrix s) (currentRAMAddress s) (continuousMode s)
          mode (addressIndex s) (currentScale s).

(** [void changeRAMAddress()] *)
Definition changeRAMAddress (s : State D) : State D :=
  let index :=
    to_size_t (addressIndex s + 1) mod Z.of_nat (length addresses) in
  mkState (ram s) (bus s) (pds s) (sampleBuffer s) (displayMatrix s)
          (nth (Z.to_nat index) addresses 0) (continuousMode s)
          (currentMode s) index (currentScale s).

(** [void adjustAmplitudeScale(float factor)] *)
Definition adjustAmplitudeScale (s : State D) (factor : Float32.float)
  : State D :=
  let scale := Float32.mul (currentScale s) factor in
  let scale := if Float32.ltb scale f0_1 then f0_1 else scale in
  let scale := if Float32.ltb f10_0 scale then f10_0 else scale in
  mkState (ram s) (bus s) (setAmplitudeScale (pds s) scale) (sampleBuffer s)
          (displayMatrix s) (currentRAMAddress s) (continuousMode s)
          (currentMode s) (addressIndex s) scale.

Definition set_continuousMode (s : State D) (b : bool) : State D :=
  mkState (ram s) (bus s) (pds s) (sampleBuffer s) (displayMatrix s)
          (currentRAMAddress s) b (currentMode s) (addressIndex s)
          (currentScale s).

(** [void processSerialCommands()]; [available] is the character waiting
    on the serial line, if there is one. *)
Definition processSerialCommands (a : Ram.arch) (fuel : nat) (s : State D)
    (available : option ascii) : result (State D) :=
  match available with
  | None => Ok s
  | Some cmd =>
      if Ascii.eqb cmd "s" || Ascii.eqb cmd "S" then
        performDataCapture a fuel (set_continuousMode s false)
      else if Ascii.eqb cmd "c" || Ascii.eqb cmd "C" then
        Ok (set_continuousMode s true)
      else if Ascii.eqb cmd "t" || Ascii.eqb cmd "T" then
        Ok (cycleTriggerMode s)
      else if Ascii.eqb cmd "a" || Ascii.eqb cmd "A" then
        Ok (changeRAMAddress s)
      else if Ascii.eqb cmd "+" then Ok (adjustAmplitudeScale s f1_25)
      else if Ascii.eqb cmd "-" then Ok (adjustAmplitudeScale s f0_8)
      else Ok s
  end.

(** [void loop()]; [due] tells whether [CAPTURE_INTERVAL] has elapsed
    since the last capture. *)
Definition loop (a : Ram.arch) (fuel : nat) (s : State D)
    (available : option ascii) (due : bool) : result (State D) :=
  s1 <- processSerialCommands a fuel s available ;;
  if continuousMode s1 && due then performDataCapture a fuel s1 else Ok s1.

(** The passes of [loop] of a session, one after the other. *)
Fixpoint session (a : Ram.arch) (fuel : nat) (s : State D)
    (passes : list (option ascii * bool)) : result (State D) :=
  match passes with
  | [] => Ok s
  | (available, due) :: rest =>
      s1 <- loop a fuel s available due ;; session a fuel s1 rest
  end.

(** What every state of a session satisfies. *)
Definition consistent (s : State D) : Prop :=
  Ram._initialized (ram s) = true /\ Ram._ramSize (ram s) = 1024 /\
  Ram._addrBytes (ram s) = 3 /\
  Z.of_nat (length (sampleBuffer s)) = SAMPLE_BUFFER_SIZE /\
  buffer_ok (sampleBuffer s) /\
  _initialized (pds s) = true /\ _samplesPerPixel (pds s) = 1 /\
  _triggerMode (pds s) = currentMode s /\ _triggerLevel (pds s) = 128 /\
  _amplitudeScale (pds s) = currentScale s /\
  scale_in_range (currentScale s) /\
  0 <= addressIndex s < 7 /\
  currentRAMAddress s = 8192 * addressIndex s.

End WithDevice.

End Mcu.

(* ------------------------------------------------------------------ *)
(** ** The test program of the processor (test_pds.ino)

    The test data are any 500 bytes: [generateTestData] fills them from
    [sin] and [random]. *)

Module TestPds.

Definition TEST_BUFFER_SIZE : Z := 500.

(** [if (testMatrix[y][x] > 0) pixelCount++;] over the matrix. *)
Definition pixelCount (m : Matrix) : Z :=
  for_count (Z.to_nat MATRIX_HEIGHT) 0
    (fun y count =>
       for_count (Z.to_nat MATRIX_WIDTH) 0
         (fun x count =>
            if cell m y x >? 0 then to_uint32 (count + 1) else count)
         count)
    0.

(** [void runPDSTest(testName, mode, level, amplitudeScale)]: the
    processor and the matrix afterwards, and the pixel count of a run
    that succeeded. *)
Definition runPDSTest (fuel : nat) (p : Pds) (testData : buffer)
    (testMatrix : Matrix) (mode : TriggerMode) (level : Z)
    (amplitudeScale : Float32.float) : result (Pds * Matrix * option Z) :=
  let p := setTrigger p mode level in
  let p := setAmplitudeScale p amplitudeScale in
  let p := setTimeScale p 1 in
  o <- processData fuel p (Some testData) TEST_BUFFER_SIZE
                   (Some testMatrix) ;;
  let m := match matrix_after o with
           | Some m => m
           | None => testMatrix
           end in
  Ok (pds_after o, m, if success o then Some (pixelCount m) else None).

End TestPds.

(* ------------------------------------------------------------------ *)
(** ** The sensor capture (sensor_example.ino)

    [captureSensorData] at a moment the sampling interval has elapsed,
    as a function of the reading [readSensorValue] returned. *)

Module Sensor.

Definition RAM_SIZE : Z := 65536.

Record Capture : Type := mkCapture {
  simulatedRAM : list Z;
  writeIndex : Z
}.

(** [void captureSensorData()] *)
Definition captureSensorData (c : Capture) (sensorValue : Z)
  : result Capture :=
  ram <- Ram.write_bytes (simulatedRAM c) (writeIndex c) [sensorValue] ;;
  Ok (mkCapture ram (to_uint32 (writeIndex c + 1) mod RAM_SIZE)).

(** One capture for each reading of a sequence. *)
Fixpoint captures (c : Capture) (readings : list Z) : result Capture :=
  match readings with
  | [] => Ok c
  | v :: vs => c1 <- captureSensorData c v ;; captures c1 vs
  end.

End Sensor.

(* ================================================================== *)
(** * Properties *)

(* ------------------------------------------------------------------ *)
(** ** Machine integers and buffer reads *)

Lemma to_size_t_small z : is_size_t z -> to_size_t z = z.
Proof. unfold is_size_t, to_size_t; intros; apply Z.mod_small; lia. Qed.

Lemma to_uint32_small z : 0 <= z < 2 ^ 32 -> to_uint32 z = z.
Proof. unfold to_uint32; intros; apply Z.mod_small; lia. Qed.

Lemma to_uint16_small z : is_uint16 z -> to_uint16 z = z.
Proof. unfold is_uint16, to_uint16; intros; apply Z.mod_small; lia. Qed.

Lemma to_uint8_small z : is_uint8 z -> to_uint8 z = z.
Proof. unfold is_uint8, to_uint8; intros; apply Z.mod_small; lia. Qed.

Lemma to_int16_small z : - 2 ^ 15 <= z < 2 ^ 15 -> to_int16 z = z.
Proof.
  unfold to_int16; intros. rewrite Z.mod_small; lia.
Qed.

Lemma SIZE_MAX_value : SIZE_MAX = 2 ^ 32 - 1.
Proof. reflexivity. Qed.

Lemma read_in_bounds data i :
  0 <= i < Z.of_nat (length data) -> read data i = Ok (sample data i).
Proof.
  intros Hi. unfold read, sample.
  destruct (Z.ltb_spec i 0); [lia|].
  destruct (nth_error data (Z.to_nat i)) eqn:E.
  - now rewrite (nth_error_nth _ _ _ E).
  - apply nth_error_None in E. lia.
Qed.

(* ------------------------------------------------------------------ *)
(** ** Trigger detector *)

Lemma search_none test n i :
  0 <= i -> i + Z.of_nat n < 2 ^ 32 ->
  (forall j, i <= j < i + Z.of_nat n -> test j = Ok false) ->
  search test n i = Ok SIZE_MAX.
Proof.
  revert i. induction n as [|n IH]; intros i Hi Hb Ht; simpl; [reflexivity|].
  rewrite Ht by lia. simpl.
  rewrite to_size_t_small by (unfold is_size_t; lia).
  apply IH; try lia. intros j Hj. apply Ht. lia.
Qed.

Lemma search_first test n i k :
  0 <= i -> i + Z.of_nat n < 2 ^ 32 -> i <= k < i + Z.of_nat n ->
  test k = Ok true ->
  (forall j, i <= j < k -> test j = Ok false) ->
  search test n i = Ok k.
Proof.
  revert i. induction n as [|n IH]; intros i Hi Hb Hk Hkt Hlt; [lia|].
  simpl. destruct (Z.eq_dec i k) as [->|Hne].
  - now rewrite Hkt.
  - rewrite Hlt by lia. simpl.
    rewrite to_size_t_small by (unfold is_size_t; lia).
    apply IH; try lia; auto. intros j Hj. apply Hlt. lia.
Qed.

Lemma rising_at_in_bounds data level i :
  1 <= i < Z.of_nat (length data) ->
  rising_at data level i =
  Ok ((sample data (i - 1) <? level) && (sample data i >=? level)).
Proof.
  intros Hi. unfold rising_at.
  rewrite read_in_bounds by lia. simpl.
  destruct (sample data (i - 1) <? level); [|reflexivity].
  now rewrite read_in_bounds by lia.
Qed.

Lemma rising_at_true data level i :
  1 <= i < Z.of_nat (length data) ->
  rising_edge data level i -> rising_at data level i = Ok true.
Proof.
  intros Hi [H1 H2]. rewrite rising_at_in_bounds by assumption.
  destruct (Z.ltb_spec (sample data (i - 1)) level); [|lia].
  destruct (Z.geb_spec (sample data i) level); [reflexivity|lia].
Qed.

Lemma rising_at_false data level i :
  1 <= i < Z.of_nat (length data) ->
  ~ rising_edge data level i -> rising_at data level i = Ok false.
Proof.
  intros Hi Hn. rewrite rising_at_in_bounds by assumption.
  unfold rising_edge in Hn.
  destruct (Z.ltb_spec (sample data (i - 1)) level); [|reflexivity].
  destruct (Z.geb_spec (sample data i) level); [lia|reflexivity].
Qed.

(** C5.  In mode [TRIGGER_RISING], [findTrigger] returns the first index
    [i] of [[1, length)] with [buffer[i-1] < level <= buffer[i]]; it
    returns "not found" ([SIZE_MAX]) when [length < 2] and when there is
    no such index. *)
Theorem findTrigger_rising_first p data len :
  _triggerMode p = TRIGGER_RISING ->
  is_size_t len ->
  len <= Z.of_nat (length data) ->
  (len < 2 -> findTrigger p data len = Ok SIZE_MAX) /\
  (forall i, 1 <= i < len ->
     rising_edge data (_triggerLevel p) i ->
     (forall j, 1 <= j < i -> ~ rising_edge data (_triggerLevel p) j) ->
     findTrigger p data len = Ok i) /\
  ((forall i, 1 <= i < len -> ~ rising_edge data (_triggerLevel p) i) ->
   findTrigger p data len = Ok SIZE_MAX).
Proof.
  intros Hmode Hsz Hlen. unfold is_size_t in Hsz. unfold findTrigger.
  rewrite Hmode. split; [|split].
  - intros Hlt. destruct (Z.ltb_spec len 2); [reflexivity|lia].
  - intros i Hi Hedge Hfirst.
    destruct (Z.ltb_spec len 2); [lia|].
    apply search_first; rewrite ?Z2Nat.id by lia; try lia.
    + apply rising_at_true; [lia|assumption].
    + intros j Hj. apply rising_at_false; [lia|]. apply Hfirst. lia.
  - intros Hnone.
    destruct (Z.ltb_spec len 2); [reflexivity|].
    apply search_none; rewrite ?Z2Nat.id by lia; try lia.
    intros j Hj. apply rising_at_false; [lia|]. apply Hnone. lia.
Qed.

Lemma findTrigger_rising_first_witness :
  let p := setTrigger Pds_new TRIGGER_RISING 128 in
  let data := [200; 0; 130; 0; 255] in
  findTrigger p data 5 = Ok 2 /\
  findTrigger p [200; 0] 1 = Ok SIZE_MAX /\
  findTrigger p [200; 100; 0] 3 = Ok SIZE_MAX.
Proof.
  intros p data. split; [|split].
  - refine (proj1 (proj2 (findTrigger_rising_first p data 5 eq_refl _ _))
                  2 _ _ _);
      unfold is_size_t, rising_edge, sample; simpl; try lia.
    intros j Hj. assert (j = 1) as -> by lia. simpl. lia.
  - refine (proj1 (findTrigger_rising_first p [200; 0] 1 eq_refl _ _) _);
      unfold is_size_t; simpl; lia.
  - refine (proj2 (proj2 (findTrigger_rising_first p [200; 100; 0] 3
                            eq_refl _ _)) _);
      unfold is_size_t, rising_edge, sample; simpl; try lia.
    intros i Hi. assert (i = 1 \/ i = 2) as [-> | ->] by lia; simpl; lia.
Defined.

(** C2.  In mode [TRIGGER_LEVEL] and for a buffer of length at least 2,
    [findTrigger] returns index 0 whatever the samples and the level are:
    the crossing test at index 0 is always true. *)
Theorem findTrigger_level_zero p data len :
  _triggerMode p = TRIGGER_LEVEL ->
  2 <= len ->
  len <= Z.of_nat (length data) ->
  findTrigger p data len = Ok 0.
Proof.
  intros Hmode Hlen Hdata. unfold findTrigger. rewrite Hmode.
  destruct (Z.ltb_spec len 2); [lia|].
  destruct (Z.to_nat len) as [|n] eqn:En; [lia|].
  simpl. unfold level_at.
  rewrite read_in_bounds by lia. simpl.
  destruct (sample data 0 >=? _triggerLevel p) eqn:Ege; simpl; [reflexivity|].
  destruct (Z.ltb_spec (sample data 0) (_triggerLevel p)); [reflexivity|].
  destruct (Z.geb_spec (sample data 0) (_triggerLevel p)); [discriminate|lia].
Qed.

Lemma findTrigger_level_zero_witness :
  findTrigger (setTrigger Pds_new TRIGGER_LEVEL 128) [0; 0; 200] 3 = Ok 0.
Proof.
  apply findTrigger_level_zero; simpl; [reflexivity|lia|lia].
Defined.

(* ------------------------------------------------------------------ *)
(** ** Rasterizer *)

Lemma plot_in_matrix m x y value :
  in_matrix x y -> plot m x y value = writeCell m y x value.
Proof.
  unfold in_matrix, plot. intros [Hx Hy].
  destruct (Z.geb_spec x 0); [|lia].
  destruct (Z.ltb_spec x MATRIX_WIDTH); [|lia].
  destruct (Z.geb_spec y 0); [|lia].
  destruct (Z.ltb_spec y MATRIX_HEIGHT); [|lia].
  reflexivity.
Qed.

Lemma adjacent_step x y x' y' v v' :
  (x' = x + 1 \/ x' = x - 1 \/ x' = x) ->
  (y' = y + 1 \/ y' = y - 1 \/ y' = y) ->
  (x', y') <> (x, y) ->
  adjacent (mkStore x y v) (mkStore x' y' v').
Proof.
  unfold adjacent; simpl. intros Hx Hy Hne.
  assert (x' <> x \/ y' <> y) as Hd.
  { destruct (Z.eq_dec x' x) as [->|]; [|now left].
    destruct (Z.eq_dec y' y) as [->|]; [|now right].
    now contradiction Hne. }
  lia.
Qed.

Section Bresenham.

(** The constants of one call: target, distances and directions. *)
Variables x2 y2 dx dy sx sy value : Z.
Hypothesis Hx2 : 0 <= x2 < MATRIX_WIDTH.
Hypothesis Hy2 : 0 <= y2 < MATRIX_HEIGHT.
Hypothesis Hsx : sx = 1 \/ sx = -1.
Hypothesis Hsy : sy = 1 \/ sy = -1.
Hypothesis Hdx : 0 <= dx.
Hypothesis Hdy : 0 <= dy.
Hypothesis Hx1 : 0 <= x2 - sx * dx < MATRIX_WIDTH.
Hypothesis Hy1 : 0 <= y2 - sy * dy < MATRIX_HEIGHT.

(** The point with [n] steps left in x and [r] steps left in y, and the
    error term the loop holds there. *)
Local Abbreviation px n := (x2 - sx * n).
Local Abbreviation py r := (y2 - sy * r).
Local Abbreviation dev n r := (n * dy - r * dx).
Local Abbreviation perr n r := (n * dy - r * dx + dx - dy).
Local Abbreviation run_from := (run_from x2 y2 dx dy sx sy value).

Lemma point_in_matrix n r :
  0 <= n <= dx -> 0 <= r <= dy -> in_matrix (px n) (py r).
Proof.
  unfold in_matrix, MATRIX_WIDTH, MATRIX_HEIGHT in *.
  intros Hn Hr. destruct Hsx as [-> | ->], Hsy as [-> | ->]; lia.
Qed.

Lemma distances_small : dx < MATRIX_WIDTH /\ dy < MATRIX_HEIGHT.
Proof.
  unfold MATRIX_WIDTH, MATRIX_HEIGHT in *.
  destruct Hsx as [-> | ->], Hsy as [-> | ->]; lia.
Qed.

Lemma loop_stop fuel m err :
  drawLine_loop (S fuel) m x2 y2 dx dy sx sy value x2 y2 err =
  Ok (writeCell m y2 x2 value).
Proof.
  cbn [drawLine_loop]. rewrite plot_in_matrix by (split; assumption).
  now rewrite !Z.eqb_refl.
Qed.

Lemma loop_step fuel m x y err x' y' err' :
  in_matrix x y ->
  (x, y) <> (x2, y2) ->
  line_step dx dy sx sy x y err = (x', y', err') ->
  drawLine_loop (S fuel) m x2 y2 dx dy sx sy value x y err =
  drawLine_loop fuel (writeCell m y x value) x2 y2 dx dy sx sy value
                x' y' err'.
Proof.
  intros Hin Hne Hstep. cbn [drawLine_loop]. rewrite plot_in_matrix by assumption.
  rewrite Hstep.
  destruct (Z.eqb_spec x x2) as [->|]; [|reflexivity].
  destruct (Z.eqb_spec y y2) as [->|]; [|reflexivity].
  now contradiction Hne.
Qed.

(** One step where x is the driving axis. *)
Lemma line_step_x_major n r :
  dy <= dx -> 1 <= n <= dx -> 0 <= r <= dy ->
  - dx <= 2 * dev n r < dx ->
  exists r',
    line_step dx dy sx sy (px n) (py r) (perr n r) =
      (px (n - 1), py r', perr (n - 1) r') /\
    (r' = r \/ r' = r - 1) /\ 0 <= r' <= dy /\
    - dx <= 2 * dev (n - 1) r' < dx.
Proof.
  intros Hmaj Hn Hr Hinv.
  destruct distances_small as [Hdxs Hdys].
  pose proof (point_in_matrix n r ltac:(lia) Hr) as [Hpx Hpy].
  unfold MATRIX_WIDTH, MATRIX_HEIGHT in *.
  assert (Hmove : 2 * perr n r > - dy).
  { 
    destruct (Z.eq_dec dx dy) as [E|E]; [|lia].
    subst dy. assert (r <= n) by nia. nia. }
  assert (Hr1 : 2 * perr n r < dx -> 1 <= r).
  { intros Hy.
    destruct (Z.eq_dec r 0) as [->|]; [|lia]. nia. }
  unfold line_step.
  rewrite (to_int16_small (2 * perr n r)) by (lia).
  destruct (Z.gtb_spec (2 * perr n r) (- dy)); [|lia].
  rewrite (to_int16_small (perr n r - dy)) by (lia).
  rewrite (to_int16_small (px n + sx))
    by (destruct Hsx as [-> | ->]; lia).
  replace (px n + sx) with (px (n - 1))
    by (destruct Hsx as [-> | ->]; lia).
  destruct (Z.ltb_spec (2 * perr n r) dx) as [Hy|Hy].
  - exists (r - 1). specialize (Hr1 Hy).
    rewrite (to_int16_small (perr n r - dy + dx))
      by (lia).
    rewrite (to_int16_small (py r + sy))
      by (destruct Hsy as [-> | ->]; lia).
    replace (py r + sy) with (py (r - 1))
      by (destruct Hsy as [-> | ->]; lia).
    replace (perr n r - dy + dx) with (perr (n - 1) (r - 1))
      by (lia).
    split; [reflexivity|]. lia.
  - exists r.
    replace (perr n r - dy) with (perr (n - 1) r)
      by (lia).
    split; [reflexivity|]. lia.
Qed.

(** One step where y is the driving axis. *)
Lemma line_step_y_major n r :
  dx < dy -> 0 <= n <= dx -> 1 <= r <= dy ->
  - dy < 2 * dev n r <= dy ->
  exists n',
    line_step dx dy sx sy (px n) (py r) (perr n r) =
      (px n', py (r - 1), perr n' (r - 1)) /\
    (n' = n \/ n' = n - 1) /\ 0 <= n' <= dx /\
    - dy < 2 * dev n' (r - 1) <= dy.
Proof.
  intros Hmaj Hn Hr Hinv.
  destruct distances_small as [Hdxs Hdys].
  pose proof (point_in_matrix n r Hn ltac:(lia)) as [Hpx Hpy].
  unfold MATRIX_WIDTH, MATRIX_HEIGHT in *.
  assert (Hn1 : 2 * perr n r > - dy -> 1 <= n).
  { intros Hx.
    destruct (Z.eq_dec n 0) as [->|]; [|lia]. nia. }
  unfold line_step.
  rewrite (to_int16_small (2 * perr n r)) by (lia).
  destruct (Z.ltb_spec (2 * perr n r) dx) as [_|Hy];
    [|lia].
  rewrite (to_int16_small (py r + sy))
    by (destruct Hsy as [-> | ->]; lia).
  replace (py r + sy) with (py (r - 1))
    by (destruct Hsy as [-> | ->]; lia).
  destruct (Z.gtb_spec (2 * perr n r) (- dy)) as [Hx|Hx].
  - exists (n - 1). specialize (Hn1 ltac:(lia)).
    rewrite (to_int16_small (perr n r - dy)) by (lia).
    rewrite (to_int16_small (perr n r - dy + dx))
      by (lia).
    rewrite (to_int16_small (px n + sx))
      by (destruct Hsx as [-> | ->]; lia).
    replace (px n + sx) with (px (n - 1))
      by (destruct Hsx as [-> | ->]; lia).
    replace (perr n r - dy + dx) with (perr (n - 1) (r - 1))
      by (lia).
    split; [reflexivity|]. lia.
  - exists n.
    rewrite (to_int16_small (perr n r + dx)) by (lia).
    replace (perr n r + dx) with (perr n (r - 1))
      by (lia).
    split; [reflexivity|]. lia.
Qed.

Lemma toward_step x y x' y' v v' :
  (x' = x + sx \/ x' = x) ->
  (y' = y + sy \/ y' = y) ->
  (x', y') <> (x, y) ->
  toward sx sy (mkStore x y v) (mkStore x' y' v').
Proof.
  unfold toward. cbn [st_x st_y]. intros Hx Hy Hne.
  split; [exact Hx|]. split; [exact Hy|].
  destruct (Z.eq_dec x' x) as [->|]; [|now left].
  destruct (Z.eq_dec y' y) as [->|]; [|now right].
  now contradiction Hne.
Qed.

Lemma run_from_cons fuel m x y err x' y' err' k :
  in_matrix x y ->
  (x, y) <> (x2, y2) ->
  line_step dx dy sx sy x y err = (x', y', err') ->
  adjacent (mkStore x y value) (mkStore x' y' value) ->
  toward sx sy (mkStore x y value) (mkStore x' y' value) ->
  run_from fuel (writeCell m y x value) x' y' err' k ->
  run_from (S fuel) m x y err (S k).
Proof.
  intros Hin Hne Hstep Hadj Htow
    (tr & Hrun & Hlen & Hch & Hall & Hval & Hmono & Hlast).
  exists (mkStore x' y' value :: tr).
  rewrite (loop_step _ _ _ _ _ _ _ _ Hin Hne Hstep), Hrun.
  split; [simpl; now rewrite <- !app_assoc|].
  split; [simpl; now rewrite Hlen|].
  split; [split; assumption|].
  split; [constructor; [exact Hin | exact Hall]|].
  split; [constructor; [reflexivity | exact Hval]|].
  split; [split; assumption|].
  intros d. exact (Hlast d).
Qed.

(** A run that starts at the target. *)
Lemma run_from_target fuel m err :
  run_from (S fuel) m x2 y2 err 0.
Proof.
  exists []. rewrite loop_stop.
  split; [reflexivity|]. split; [reflexivity|]. split; [exact I|].
  split; [constructor; [split; assumption|constructor]|].
  split; [constructor|].
  split; [exact I|]. intros d. reflexivity.
Qed.

Lemma loop_x_major (n : nat) : forall r m fuel,
  dy <= dx -> 0 < dx -> Z.of_nat n <= dx -> 0 <= r <= dy ->
  - dx <= 2 * dev (Z.of_nat n) r < dx ->
  (n < fuel)%nat ->
  run_from fuel m (px (Z.of_nat n)) (py r) (perr (Z.of_nat n) r) n.
Proof.
  induction n as [|n IH]; intros r m fuel Hmaj Hpos Hn Hr Hinv Hfuel.
  - assert (r = 0) as -> by (nia).
    destruct fuel as [|fuel]; [lia|].
    rewrite !Z.mul_0_r, !Z.sub_0_r. apply run_from_target.
  - destruct fuel as [|fuel]; [lia|].
    destruct (line_step_x_major (Z.of_nat (S n)) r Hmaj ltac:(lia) Hr Hinv)
      as (r' & Hstep & Hr' & Hr'b & Hinv').
    replace (Z.of_nat (S n) - 1) with (Z.of_nat n) in * by lia.
    eapply run_from_cons.
    + apply point_in_matrix; lia.
    + intros E. inversion E.
      destruct Hsx as [-> | ->]; lia.
    + exact Hstep.
    + apply adjacent_step.
      * destruct Hsx as [-> | ->]; lia.
      * destruct Hsy as [-> | ->], Hr' as [-> | ->]; lia.
      * intros E. inversion E.
        destruct Hsx as [-> | ->]; lia.
    + apply toward_step.
      * left. lia.
      * destruct Hr' as [-> | ->]; [right; reflexivity|left; lia].
      * intros E. inversion E.
        destruct Hsx as [-> | ->]; lia.
    + apply IH; try assumption; lia.
Qed.

Lemma loop_y_major (r : nat) : forall n m fuel,
  dx < dy -> 0 <= n <= dx -> Z.of_nat r <= dy ->
  - dy < 2 * dev n (Z.of_nat r) <= dy ->
  (r < fuel)%nat ->
  run_from fuel m (px n) (py (Z.of_nat r)) (perr n (Z.of_nat r)) r.
Proof.
  induction r as [|r IH]; intros n m fuel Hmaj Hn Hr Hinv Hfuel.
  - assert (n = 0) as -> by (nia).
    destruct fuel as [|fuel]; [lia|].
    rewrite !Z.mul_0_r, !Z.sub_0_r. apply run_from_target.
  - destruct fuel as [|fuel]; [lia|].
    destruct (line_step_y_major n (Z.of_nat (S r)) Hmaj Hn ltac:(lia) Hinv)
      as (n' & Hstep & Hn' & Hn'b & Hinv').
    replace (Z.of_nat (S r) - 1) with (Z.of_nat r) in * by lia.
    eapply run_from_cons.
    + apply point_in_matrix; lia.
    + intros E. inversion E.
      destruct Hsy as [-> | ->]; lia.
    + exact Hstep.
    + apply adjacent_step.
      * destruct Hsx as [-> | ->], Hn' as [-> | ->]; lia.
      * destruct Hsy as [-> | ->]; lia.
      * intros E. inversion E.
        destruct Hsy as [-> | ->]; lia.
    + apply toward_step.
      * destruct Hn' as [-> | ->]; [right; reflexivity|left; lia].
      * left. lia.
      * intros E. inversion E.
        destruct Hsy as [-> | ->]; lia.
    + apply IH; try assumption; lia.
Qed.

(** The whole loop, entered at the start point. *)
Lemma loop_from_start m fuel :
  (Z.to_nat (Z.max dx dy) < fuel)%nat ->
  run_from fuel m (x2 - sx * dx) (y2 - sy * dy) (dx - dy)
           (Z.to_nat (Z.max dx dy)).
Proof.
  intros Hfuel.
  destruct (Z_lt_le_dec dx dy) as [Hlt|Hge].
  - rewrite Z.max_r in * by lia.
    pose proof (loop_y_major (Z.to_nat dy) dx m fuel Hlt ltac:(lia)) as H.
    rewrite Z2Nat.id in H by lia.
    replace (dx * dy - dy * dx + dx - dy) with (dx - dy) in H by lia.
    apply H; lia.
  - rewrite Z.max_l in * by lia.
    destruct (Z.eq_dec dx 0) as [E0|Hpos].
    + assert (Edy : dy = 0) by lia.
      replace (x2 - sx * dx) with x2 by (rewrite E0; lia).
      replace (y2 - sy * dy) with y2 by (rewrite Edy; lia).
      replace (Z.to_nat dx) with 0%nat by lia.
      destruct fuel as [|fuel]; [lia|].
      apply run_from_target.
    + pose proof (loop_x_major (Z.to_nat dx) dy m fuel Hge ltac:(lia)) as H.
      rewrite Z2Nat.id in H by lia.
      replace (dx * dy - dy * dx + dx - dy) with (dx - dy) in H by lia.
      apply H; lia.
Qed.

End Bresenham.

Lemma new_stores_app m m' tr :
  stores m' = rev tr ++ stores m -> new_stores m m' = tr.
Proof.
  intros E. unfold new_stores. rewrite E, length_app.
  replace (length (rev tr) + length (stores m) - length (stores m))%nat
    with (length (rev tr) + 0)%nat by lia.
  rewrite firstn_app_2. simpl. rewrite app_nil_r. apply rev_involutive.
Qed.

Lemma monotone_tail sx sy a l : monotone sx sy (a :: l) -> monotone sx sy l.
Proof. destruct l as [|b l]; [intros _; exact I|intros [_ H]; exact H]. Qed.

(** Along monotone steps the distance walked, [sx * x + sy * y], grows. *)
Lemma monotone_progress sx sy :
  (sx = 1 \/ sx = -1) -> (sy = 1 \/ sy = -1) ->
  forall l a,
    monotone sx sy (a :: l) ->
    Forall (fun b => sx * st_x a + sy * st_y a < sx * st_x b + sy * st_y b) l.
Proof.
  intros Hsx Hsy. induction l as [|b l IH]; intros a Hm; [constructor|].
  destruct Hm as [(Hx & Hy & Hne) Hm].
  assert (Hab : sx * st_x a + sy * st_y a < sx * st_x b + sy * st_y b).
  { destruct Hsx as [-> | ->], Hsy as [-> | ->]; lia. }
  constructor; [exact Hab|].
  eapply Forall_impl; [|exact (IH b Hm)].
  cbv beta. intros c Hc. lia.
Qed.

(** Monotone steps never come back to a cell. *)
Lemma monotone_NoDup sx sy :
  (sx = 1 \/ sx = -1) -> (sy = 1 \/ sy = -1) ->
  forall l, monotone sx sy l -> NoDup (cells l).
Proof.
  intros Hsx Hsy. induction l as [|a l IH]; intros Hm; [constructor|].
  cbn [cells map]. constructor.
  - intros Hin. apply in_map_iff in Hin. destruct Hin as (b & E & Hb).
    pose proof (monotone_progress sx sy Hsx Hsy l a Hm) as Hp.
    rewrite Forall_forall in Hp. specialize (Hp b Hb).
    injection E as Ex Ey. rewrite Ex, Ey in Hp. lia.
  - apply IH. exact (monotone_tail sx sy a l Hm).
Qed.

(** C4.  For two endpoints inside the matrix [drawLine] reaches its
    [break] (any fuel above [max(|x2-x1|, |y2-y1|)] is enough) and stores
    exactly [max(|x2-x1|, |y2-y1|) + 1] times, each time the value it was
    given at a cell inside the matrix.  The first store goes to
    [(x1, y1)], the last one to [(x2, y2)], each one goes to a cell
    adjacent to the one stored before it, one step on in the direction
    of the target in x, in y or in both, and no cell is stored twice: the
    stores are [max(|x2-x1|, |y2-y1|) + 1] different cells. *)
Theorem drawLine_cells fuel m x1 y1 x2 y2 value :
  in_matrix x1 y1 ->
  in_matrix x2 y2 ->
  (Z.to_nat (Z.max (Z.abs (x2 - x1)) (Z.abs (y2 - y1))) < fuel)%nat ->
  exists m',
    drawLine fuel m x1 y1 x2 y2 value = Ok m' /\
    stores m' = rev (new_stores m m') ++ stores m /\
    Z.of_nat (length (new_stores m m')) =
      Z.max (Z.abs (x2 - x1)) (Z.abs (y2 - y1)) + 1 /\
    hd_error (new_stores m m') = Some (mkStore x1 y1 value) /\
    chain (new_stores m m') /\
    last (new_stores m m') (mkStore x1 y1 value) = mkStore x2 y2 value /\
    monotone (if x1 <? x2 then 1 else -1) (if y1 <? y2 then 1 else -1)
             (new_stores m m') /\
    NoDup (cells (new_stores m m')) /\
    Z.of_nat (length (cells (new_stores m m'))) =
      Z.max (Z.abs (x2 - x1)) (Z.abs (y2 - y1)) + 1 /\
    Forall (fun s => store_in_matrix s /\ st_value s = value)
           (new_stores m m').
Proof.
  intros [Hx1 Hy1] [Hx2 Hy2] Hfuel. unfold drawLine.
  destruct (Z.geb_spec x1 MATRIX_WIDTH); [lia|].
  destruct (Z.geb_spec x2 MATRIX_WIDTH); [lia|].
  destruct (Z.geb_spec y1 MATRIX_HEIGHT); [lia|].
  destruct (Z.geb_spec y2 MATRIX_HEIGHT); [lia|].
  cbn [orb].
  assert (Hw : MATRIX_WIDTH = 800) by reflexivity.
  assert (Hh : MATRIX_HEIGHT = 600) by reflexivity.
  rewrite (to_int16_small x1), (to_int16_small x2),
    (to_int16_small y1), (to_int16_small y2) by lia.
  rewrite (to_int16_small (Z.abs (x2 - x1))),
    (to_int16_small (Z.abs (y2 - y1))) by lia.
  rewrite (to_int16_small (Z.abs (x2 - x1) - Z.abs (y2 - y1))) by lia.
  set (dx := Z.abs (x2 - x1)) in *. set (dy := Z.abs (y2 - y1)) in *.
  set (sx := if x1 <? x2 then 1 else -1).
  set (sy := if y1 <? y2 then 1 else -1).
  assert (Hsx : (sx = 1 \/ sx = -1) /\ x1 = x2 - sx * dx).
  { unfold sx, dx. destruct (Z.ltb_spec x1 x2); lia. }
  assert (Hsy : (sy = 1 \/ sy = -1) /\ y1 = y2 - sy * dy).
  { unfold sy, dy. destruct (Z.ltb_spec y1 y2); lia. }
  destruct Hsx as [Hsx Ex1], Hsy as [Hsy Ey1].
  destruct (loop_from_start x2 y2 dx dy sx sy value) with (m := m) (fuel := fuel)
    as (tr & Hrun & Hlen & Hch & Hall & Hval & Hmono & Hlast);
    try lia.
  rewrite <- Ex1, <- Ey1 in Hrun, Hch, Hall, Hmono, Hlast.
  eexists. split; [exact Hrun|].
  cbn [stores]. rewrite (new_stores_app m _ (mkStore x1 y1 value :: tr))
    by reflexivity.
  split; [reflexivity|].
  split; [cbn [length]; lia|].
  split; [reflexivity|].
  split; [exact Hch|].
  split; [apply Hlast|].
  split; [exact Hmono|].
  split; [exact (monotone_NoDup sx sy Hsx Hsy _ Hmono)|].
  split; [unfold cells; rewrite length_map; cbn [length]; lia|].
  rewrite Forall_forall in Hall, Hval. apply Forall_forall.
  intros s [<- | Hs].
  - split; [apply Hall; now left|reflexivity].
  - split; [apply Hall; now right|now apply Hval].
Qed.

Lemma drawLine_cells_witness :
  exists m',
    drawLine 10 (mkMatrix (fun _ _ => 0) []) 5 2 0 9 255 = Ok m' /\
    Z.of_nat (length (stores m')) = 8 /\
    hd_error (rev (stores m')) = Some (mkStore 5 2 255) /\
    last (rev (stores m')) (mkStore 5 2 255) = mkStore 0 9 255 /\
    NoDup (cells (stores m')).
Proof.
  destruct (drawLine_cells 10 (mkMatrix (fun _ _ => 0) []) 5 2 0 9 255)
    as (m' & Hrun & Hst & Hlen & Hhd & _ & Hlast & _ & Hnd & _).
  - unfold in_matrix, MATRIX_WIDTH, MATRIX_HEIGHT; lia.
  - unfold in_matrix, MATRIX_WIDTH, MATRIX_HEIGHT; lia.
  - simpl. lia.
  - exists m'. split; [exact Hrun|].
    cbn [stores app] in Hst. rewrite app_nil_r in Hst.
    split; [rewrite Hst, length_rev, Hlen; reflexivity|].
    split; [rewrite Hst, rev_involutive; exact Hhd|].
    split; [rewrite Hst, rev_involutive; exact Hlast|].
    rewrite Hst. unfold cells in *. rewrite map_rev.
    apply NoDup_rev. exact Hnd.
Defined.

(* ------------------------------------------------------------------ *)
(** ** Stores made by the rasterizer and by [clearMatrix] *)

Lemma bind_Ok {A B : Type} (r : result A) (k : A -> result B) b :
  bind r k = Ok b -> exists a, r = Ok a /\ k a = Ok b.
Proof.
  destruct r as [a|f]; simpl; intros H; [|discriminate].
  now exists a.
Qed.

Lemma extends_by_refl m : extends_by m m [].
Proof. now split. Qed.

Lemma extends_by_trans m1 m2 m3 ws1 ws2 :
  extends_by m1 m2 ws1 -> extends_by m2 m3 ws2 ->
  extends_by m1 m3 (ws2 ++ ws1).
Proof.
  intros [H1 B1] [H2 B2]. split.
  - now rewrite H2, H1, app_assoc.
  - congruence.
Qed.

Lemma writeCell_extends m y x v :
  extends_by m (writeCell m y x v) [mkStore x y v].
Proof. now split. Qed.

Lemma plot_safe m x y v :
  exists ws, extends_by m (plot m x y v) ws /\ Forall store_in_matrix ws.
Proof.
  unfold plot.
  destruct (Z.geb_spec x 0); cbn [andb]; [|exists []; now split].
  destruct (Z.ltb_spec x MATRIX_WIDTH); cbn [andb]; [|exists []; now split].
  destruct (Z.geb_spec y 0); cbn [andb]; [|exists []; now split].
  destruct (Z.ltb_spec y MATRIX_HEIGHT); cbn [andb]; [|exists []; now split].
  exists [mkStore x y v]. split; [apply writeCell_extends|].
  repeat constructor; simpl; lia.
Qed.

Lemma drawLine_loop_safe x2 y2 dx dy sx sy v fuel :
  forall m x y err m',
    drawLine_loop fuel m x2 y2 dx dy sx sy v x y err = Ok m' ->
    exists ws, extends_by m m' ws /\ Forall store_in_matrix ws.
Proof.
  induction fuel as [|fuel IH]; intros m x y err m' H; [discriminate|].
  cbn [drawLine_loop] in H.
  destruct (plot_safe m x y v) as (ws1 & He1 & Hs1).
  destruct ((x =? x2) && (y =? y2)).
  - injection H as <-. now exists ws1.
  - destruct (line_step dx dy sx sy x y err) as [[x' y'] err'].
    destruct (IH _ _ _ _ _ H) as (ws2 & He2 & Hs2).
    exists (ws2 ++ ws1). split.
    + eapply extends_by_trans; eassumption.
    + apply Forall_app. now split.
Qed.

Lemma drawLine_safe fuel m x1 y1 x2 y2 v m' :
  drawLine fuel m x1 y1 x2 y2 v = Ok m' ->
  exists ws, extends_by m m' ws /\ Forall store_in_matrix ws.
Proof.
  unfold drawLine.
  destruct ((x1 >=? MATRIX_WIDTH) || (x2 >=? MATRIX_WIDTH)
            || (y1 >=? MATRIX_HEIGHT) || (y2 >=? MATRIX_HEIGHT)).
  - intros H. injection H as <-. exists []. split; [apply extends_by_refl|constructor].
  - apply drawLine_loop_safe.
Qed.

Lemma drawLine_outside fuel m x1 y1 x2 y2 v :
  is_uint16 x1 -> is_uint16 y1 -> is_uint16 x2 -> is_uint16 y2 ->
  ~ (in_matrix x1 y1 /\ in_matrix x2 y2) ->
  drawLine fuel m x1 y1 x2 y2 v = Ok m.
Proof.
  unfold is_uint16, in_matrix, drawLine. intros Hx1 Hy1 Hx2 Hy2 Hout.
  destruct (Z.geb_spec x1 MATRIX_WIDTH); [reflexivity|].
  destruct (Z.geb_spec x2 MATRIX_WIDTH); [reflexivity|].
  destruct (Z.geb_spec y1 MATRIX_HEIGHT); [reflexivity|].
  destruct (Z.geb_spec y2 MATRIX_HEIGHT); [reflexivity|].
  lia.
Qed.

(** The cells a row of [clearMatrix] stores. *)
Lemma clear_row y n : forall x0 m,
  exists ws,
    extends_by m (for_count n x0 (fun x m2 => writeCell m2 y x 0) m) ws /\
    (forall s, In s ws <->
               exists x, x0 <= x < x0 + Z.of_nat n /\ s = mkStore x y 0).
Proof.
  induction n as [|n IH]; intros x0 m.
  - exists []. split; [apply extends_by_refl|].
    intros s. split; [intros []|]. intros (x & Hx & _). lia.
  - cbn [for_count].
    destruct (IH (x0 + 1) (writeCell m y x0 0)) as (ws & He & Hin).
    exists (ws ++ [mkStore x0 y 0]). split.
    + eapply extends_by_trans; [apply writeCell_extends|exact He].
    + intros s. rewrite in_app_iff, Hin. split.
      * intros [(x & Hx & ->) | [<- | []]].
        -- exists x. split; [lia|reflexivity].
        -- exists x0. split; [lia|reflexivity].
      * intros (x & Hx & ->).
        destruct (Z.eq_dec x x0) as [->|]; [right; now left|].
        left. exists x. split; [lia|reflexivity].
Qed.

Lemma clear_rows w n : forall y0 m,
  exists ws,
    extends_by m
      (for_count n y0
         (fun y m1 => for_count w 0 (fun x m2 => writeCell m2 y x 0) m1) m)
      ws /\
    (forall s, In s ws <->
               exists x y, 0 <= x < Z.of_nat w /\
                           y0 <= y < y0 + Z.of_nat n /\ s = mkStore x y 0).
Proof.
  induction n as [|n IH]; intros y0 m.
  - exists []. split; [apply extends_by_refl|].
    intros s. split; [intros []|]. intros (x & y & _ & Hy & _). lia.
  - cbn [for_count].
    destruct (clear_row y0 w 0 m) as (ws1 & He1 & Hin1).
    destruct (IH (y0 + 1)
                 (for_count w 0 (fun x m2 => writeCell m2 y0 x 0) m))
      as (ws2 & He2 & Hin2).
    exists (ws2 ++ ws1). split.
    + eapply extends_by_trans; eassumption.
    + intros s. rewrite in_app_iff, Hin1, Hin2. split.
      * intros [(x & y & Hx & Hy & ->) | (x & Hx & ->)].
        -- exists x, y. repeat split; lia.
        -- exists x, y0. repeat split; lia.
      * intros (x & y & Hx & Hy & ->).
        destruct (Z.eq_dec y y0) as [->|].
        -- right. exists x. split; [lia|reflexivity].
        -- left. exists x, y. repeat split; lia.
Qed.

Lemma clearMatrix_stores m :
  exists ws,
    extends_by m (clearMatrix m) ws /\
    (forall s, In s ws <->
               exists x y, in_matrix x y /\ s = mkStore x y 0).
Proof.
  destruct (clear_rows (Z.to_nat MATRIX_WIDTH) (Z.to_nat MATRIX_HEIGHT) 0 m)
    as (ws & He & Hin).
  exists ws. split; [exact He|].
  intros s. rewrite Hin. unfold in_matrix.
  rewrite !Z2Nat.id by (unfold MATRIX_WIDTH, MATRIX_HEIGHT; lia).
  split; intros (x & y & H); exists x, y; intuition lia.
Qed.

Lemma lookup_zero ws rest y x :
  (forall s, In s ws -> st_value s = 0) ->
  In (mkStore x y 0) ws ->
  lookup (ws ++ rest) y x = Some 0.
Proof.
  induction ws as [|s ws IH]; intros Hval Hin; [destruct Hin|].
  cbn [app lookup].
  destruct ((st_y s =? y) && (st_x s =? x)) eqn:E.
  - rewrite (Hval s) by now left. reflexivity.
  - destruct Hin as [->|Hin].
    + simpl in E. now rewrite !Z.eqb_refl in E.
    + apply IH; [|exact Hin]. intros s' Hs'. apply Hval. now right.
Qed.

Lemma clearMatrix_cleared m : cleared (clearMatrix m).
Proof.
  intros x y Hin. unfold cell.
  destruct (clearMatrix_stores m) as (ws & [Hst _] & Hws).
  rewrite Hst, (lookup_zero ws); [reflexivity| |].
  - intros s Hs. apply Hws in Hs. destruct Hs as (x' & y' & _ & ->).
    reflexivity.
  - apply Hws. exists x, y. split; [exact Hin|reflexivity].
Qed.

Lemma clearMatrix_safe m :
  exists ws, extends_by m (clearMatrix m) ws /\ Forall store_in_matrix ws.
Proof.
  destruct (clearMatrix_stores m) as (ws & He & Hws).
  exists ws. split; [exact He|].
  apply Forall_forall. intros s Hs. apply Hws in Hs.
  destruct Hs as (x & y & Hin & ->). exact Hin.
Qed.

(** From here on [clearMatrix] is used through the lemmas above only. *)
Opaque clearMatrix.

(* ------------------------------------------------------------------ *)
(** ** The pieces of [processData] *)

Lemma scaleAmplitude_range p v :
  0 <= scaleAmplitude p v < MATRIX_HEIGHT.
Proof.
  unfold scaleAmplitude.
  set (y := to_uint16 (_ - _)).
  assert (0 <= y) by (apply Z.mod_pos_bound; lia).
  change (to_uint16 0) with 0.
  change (to_uint16 (MATRIX_HEIGHT - 1)) with 599.
  unfold constrainValue, MATRIX_HEIGHT.
  destruct (Z.ltb_spec y 0); [lia|].
  destruct (Z.gtb_spec y 599); lia.
Qed.

Lemma search_total test n i :
  0 <= i -> i + Z.of_nat n < 2 ^ 32 ->
  (forall j, i <= j < i + Z.of_nat n -> exists b, test j = Ok b) ->
  exists r, search test n i = Ok r /\
            (r = SIZE_MAX \/ i <= r < i + Z.of_nat n).
Proof.
  revert i. induction n as [|n IH]; intros i Hi Hb Ht.
  - exists SIZE_MAX. split; [reflexivity|now left].
  - cbn [search]. destruct (Ht i ltac:(lia)) as [b Hb']. rewrite Hb'.
    cbn [bind]. destruct b.
    + exists i. split; [reflexivity|right; lia].
    + rewrite to_size_t_small by (unfold is_size_t; lia).
      destruct (IH (i + 1)) as (r & Hr & Hrange); try lia.
      * intros j Hj. apply Ht. lia.
      * exists r. split; [exact Hr|]. destruct Hrange; [now left|right; lia].
Qed.

Lemma falling_at_in_bounds data level i :
  1 <= i < Z.of_nat (length data) ->
  exists b, falling_at data level i = Ok b.
Proof.
  intros Hi. unfold falling_at.
  rewrite read_in_bounds by lia. cbn [bind].
  destruct (sample data (i - 1) >=? level); [|now eexists].
  rewrite read_in_bounds by lia. now eexists.
Qed.

Lemma level_at_in_bounds data level i :
  0 <= i < Z.of_nat (length data) ->
  exists b, level_at data level i = Ok b.
Proof.
  intros Hi. unfold level_at.
  rewrite read_in_bounds by lia. cbn [bind].
  destruct (Z.eqb_spec i 0) as [->|Hne].
  - destruct (sample data 0 >=? level); cbn [bind]; [now eexists|].
    destruct (sample data 0 <? level); now eexists.
  - destruct (sample data i >=? level); cbn [bind].
    + rewrite read_in_bounds by lia. cbn [bind].
      destruct (sample data (i - 1) <? level); [now eexists|].
      destruct (sample data i <? level); now eexists.
    + destruct (sample data i <? level); [|now eexists].
      rewrite read_in_bounds by lia. now eexists.
Qed.

Lemma findTrigger_total p data len :
  is_size_t len -> len <= Z.of_nat (length data) ->
  exists r, findTrigger p data len = Ok r /\
            (r = SIZE_MAX \/ 0 <= r < len).
Proof.
  intros Hsz Hlen. unfold is_size_t in Hsz. unfold findTrigger.
  destruct (Z.ltb_spec len 2);
    [exists SIZE_MAX; split; [reflexivity|now left]|].
  destruct (_triggerMode p).
  - exists SIZE_MAX; split; [reflexivity|now left].
  - destruct (search_total (rising_at data (_triggerLevel p))
                (Z.to_nat (len - 1)) 1) as (r & Hr & Hrange);
      rewrite ?Z2Nat.id by lia; try lia.
    + intros j Hj. rewrite rising_at_in_bounds by lia. now eexists.
    + exists r. split; [exact Hr|].
      rewrite Z2Nat.id in Hrange by lia. lia.
  - destruct (search_total (falling_at data (_triggerLevel p))
                (Z.to_nat (len - 1)) 1) as (r & Hr & Hrange);
      rewrite ?Z2Nat.id by lia; try lia.
    + intros j Hj. apply falling_at_in_bounds. lia.
    + exists r. split; [exact Hr|].
      rewrite Z2Nat.id in Hrange by lia. lia.
  - destruct (search_total (level_at data (_triggerLevel p))
                (Z.to_nat len) 0) as (r & Hr & Hrange);
      rewrite ?Z2Nat.id by lia; try lia.
    + intros j Hj. apply level_at_in_bounds. lia.
    + exists r. split; [exact Hr|].
      rewrite Z2Nat.id in Hrange by lia. lia.
Qed.

Lemma findTrigger_trigger_state p detected position data len :
  findTrigger (set_trigger_state p detected position) data len =
  findTrigger p data len.
Proof. reflexivity. Qed.

(** The trigger search of a call: what it returns and what it records. *)
Lemma locateTrigger_spec p data len :
  is_size_t len -> len <= Z.of_nat (length data) ->
  exists r,
    findTrigger p data len = Ok r /\
    (r = SIZE_MAX \/ 0 <= r < len) /\
    locateTrigger p data len =
    Ok (match _triggerMode p with
        | TRIGGER_OFF => (0, set_trigger_state p false (_triggerPosition p))
        | _ => if r =? SIZE_MAX
               then (0, set_trigger_state p false (_triggerPosition p))
               else (r, set_trigger_state p true r)
        end).
Proof.
  intros Hsz Hlen.
  destruct (findTrigger_total p data len Hsz Hlen) as (r & Hr & Hrange).
  exists r. split; [exact Hr|]. split; [exact Hrange|].
  unfold locateTrigger. cbn [_triggerMode set_trigger_state].
  rewrite findTrigger_trigger_state, Hr.
  destruct (_triggerMode p); cbn [bind]; try reflexivity;
    destruct (r =? SIZE_MAX); reflexivity.
Qed.

Lemma locateTrigger_total p data len :
  is_size_t len -> len <= Z.of_nat (length data) ->
  exists start p', locateTrigger p data len = Ok (start, p').
Proof.
  intros Hsz Hlen.
  destruct (locateTrigger_spec p data len Hsz Hlen) as (r & _ & _ & E).
  rewrite E.
  match goal with |- context [Ok ?t] => destruct t as [start p'] end.
  now exists start, p'.
Qed.

Lemma locateTrigger_start p data len start p' :
  is_size_t len -> 0 < len -> len <= Z.of_nat (length data) ->
  locateTrigger p data len = Ok (start, p') ->
  0 <= start < len /\
  _samplesPerPixel p' = _samplesPerPixel p /\
  _amplitudeScale p' = _amplitudeScale p /\
  _triggerMode p' = _triggerMode p /\
  _triggerLevel p' = _triggerLevel p /\
  _initialized p' = _initialized p.
Proof.
  intros Hsz Hpos Hlen Hloc.
  destruct (locateTrigger_spec p data len Hsz Hlen) as (r & _ & Hr & E).
  rewrite E in Hloc. injection Hloc as Hsp.
  destruct (_triggerMode p) eqn:Em;
    try (destruct (Z.eqb_spec r SIZE_MAX));
    injection Hsp as <- <-; cbn; rewrite ?Em; repeat split; try lia;
    destruct Hr; try contradiction; lia.
Qed.

Lemma sample_byte data i :
  buffer_ok data -> 0 <= i < Z.of_nat (length data) ->
  is_uint8 (sample data i).
Proof.
  intros Hok Hi. unfold buffer_ok in Hok. rewrite Forall_forall in Hok.
  apply Hok. unfold sample. apply nth_In. lia.
Qed.

(** The averaging loop reads [min(n, len - (sampleIndex + i))] samples,
    all of them below [len], and returns their sum and their number. *)
Lemma averageRun_spec data len sampleIndex :
  input_ok data len -> 0 <= sampleIndex ->
  forall n i sum cnt,
    0 <= i -> sampleIndex + i <= len ->
    i + Z.of_nat n < 2 ^ 16 ->
    0 <= cnt -> cnt + Z.of_nat n < 2 ^ 16 ->
    0 <= sum <= 255 * cnt ->
    let k := Z.min (Z.of_nat n) (len - (sampleIndex + i)) in
    averageRun n data len sampleIndex i sum cnt =
    Ok (sum + sum_run data (sampleIndex + i) (Z.to_nat k), cnt + k).
Proof.
  intros (Hsz & Hlen & Hok) Hsi. unfold is_size_t in Hsz.
  induction n as [|n IH]; intros i sum cnt Hi Hle Hin Hc Hcn Hsum k.
  - subst k. rewrite Z.min_l by lia. simpl. now rewrite !Z.add_0_r.
  - cbn [averageRun].
    rewrite (to_size_t_small (sampleIndex + i)) by (unfold is_size_t; lia).
    destruct (Z.ltb_spec (sampleIndex + i) len) as [Hlt|Hge].
    + rewrite read_in_bounds by lia. cbn [bind].
      pose proof (sample_byte data (sampleIndex + i) Hok ltac:(lia)) as Hb.
      unfold is_uint8 in Hb.
      rewrite (to_size_t_small (i + 1)) by (unfold is_size_t; lia).
      rewrite (to_size_t_small (cnt + 1)) by (unfold is_size_t; lia).
      rewrite to_uint32_small by lia.
      rewrite IH by lia.
      set (k' := Z.min (Z.of_nat n) (len - (sampleIndex + (i + 1)))).
      assert (Ek : k = 1 + k') by (subst k k'; lia).
      assert (0 <= k') by (subst k'; lia).
      rewrite Ek, Z2Nat.inj_add by lia.
      change (Z.to_nat 1) with 1%nat. cbn [Nat.add sum_run].
      rewrite Z.add_assoc. do 2 f_equal; lia.
    + assert (Ek : k = 0) by (subst k; lia).
      rewrite Ek. simpl. now rewrite !Z.add_0_r.
Qed.

Lemma pixelsToFill_min p len start :
  is_size_t len -> 0 <= start <= len ->
  pixelsToFill p len start =
  Z.min MATRIX_WIDTH ((len - start) / _samplesPerPixel p).
Proof.
  intros Hsz Hs. unfold is_size_t in Hsz. unfold pixelsToFill.
  rewrite to_size_t_small by (unfold is_size_t; lia).
  destruct (Z.ltb_spec ((len - start) / _samplesPerPixel p) MATRIX_WIDTH);
    lia.
Qed.

(** Every column below [pixelsToFill] has its whole run of
    [_samplesPerPixel] samples inside the buffer. *)
Lemma sampleIndexOf_in_bounds p len start x :
  is_size_t len -> 0 <= start <= len ->
  is_uint16 (_samplesPerPixel p) -> 1 <= _samplesPerPixel p ->
  0 <= x < pixelsToFill p len start ->
  sampleIndexOf p start x = start + x * _samplesPerPixel p /\
  start + x * _samplesPerPixel p + _samplesPerPixel p <= len.
Proof.
  intros Hsz Hs Hu Hspp Hx. unfold is_size_t in Hsz. unfold is_uint16 in Hu.
  rewrite pixelsToFill_min in Hx by assumption.
  unfold MATRIX_WIDTH in Hx.
  set (spp := _samplesPerPixel p) in *.
  pose proof (Z.mul_div_le (len - start) spp ltac:(lia)) as Hdiv.
  assert (Hrun : (x + 1) * spp <= len - start) by nia.
  assert (0 <= x * spp) by nia.
  unfold sampleIndexOf. fold spp.
  rewrite (to_size_t_small (x * spp)) by (unfold is_size_t; nia).
  rewrite to_size_t_small by (unfold is_size_t; nia).
  split; [reflexivity|nia].
Qed.

Lemma columns_total p data len start :
  input_ok data len ->
  is_uint16 (_samplesPerPixel p) -> 1 <= _samplesPerPixel p ->
  0 <= start <= len ->
  forall n x prevY m,
    1 <= x -> x + Z.of_nat n <= pixelsToFill p len start ->
    0 <= prevY < MATRIX_HEIGHT ->
    exists m', columns n line_fuel p data len start x prevY m = Ok m'.
Proof.
  intros Hin Hu Hspp Hs.
  pose proof Hin as (Hsz & Hlen & Hok).
  assert (Hfill : pixelsToFill p len start <= MATRIX_WIDTH)
    by (rewrite pixelsToFill_min by assumption; lia).
  unfold MATRIX_WIDTH in Hfill.
  induction n as [|n IH]; intros x prevY m Hx Hn Hy;
    [now exists m|].
  cbn [columns].
  destruct (sampleIndexOf_in_bounds p len start x Hsz Hs Hu Hspp ltac:(lia))
    as [-> Hrun].
  set (si := start + x * _samplesPerPixel p) in *.
  assert (0 <= si) by (subst si; nia).
  destruct (Z.geb_spec si len); [lia|].
  unfold is_uint16 in Hu.
  rewrite (averageRun_spec data len si Hin) by lia.
  cbn [bind fst snd]. rewrite Z.add_0_r, !Z.add_0_l.
  rewrite Z2Nat.id, Z.min_l by lia.
  unfold avgValue.
  destruct (Z.gtb_spec (_samplesPerPixel p) 0); [|lia].
  cbn [bind].
  set (cy := scaleAmplitude p _).
  pose proof (scaleAmplitude_range p
                (to_uint8 (sum_run data si (Z.to_nat (_samplesPerPixel p))
                           / _samplesPerPixel p))) as Hcy.
  fold cy in Hcy. unfold MATRIX_HEIGHT in *.
  rewrite (to_uint16_small (x - 1)), (to_uint16_small x)
    by (unfold is_uint16; lia).
  destruct (drawLine_cells line_fuel m (x - 1) prevY x cy 255)
    as (m1 & -> & _).
  - unfold in_matrix, MATRIX_WIDTH, MATRIX_HEIGHT; lia.
  - unfold in_matrix, MATRIX_WIDTH, MATRIX_HEIGHT; lia.
  - unfold line_fuel, MATRIX_WIDTH, MATRIX_HEIGHT. lia.
  - cbn [bind].
    rewrite to_size_t_small by (unfold is_size_t; lia).
    apply IH; lia.
Qed.

Lemma columns_safe fuel p data len start n :
  forall x prevY m m',
    columns n fuel p data len start x prevY m = Ok m' ->
    exists ws, extends_by m m' ws /\ Forall store_in_matrix ws.
Proof.
  induction n as [|n IH]; intros x prevY m m' H.
  - injection H as <-. exists []. split; [apply extends_by_refl|constructor].
  - cbn [columns] in H.
    destruct (sampleIndexOf p start x >=? len).
    + injection H as <-. exists []. split; [apply extends_by_refl|constructor].
    + apply bind_Ok in H. destruct H as (sc & _ & H).
      apply bind_Ok in H. destruct H as (avg & _ & H).
      apply bind_Ok in H. destruct H as (m1 & Hd & H).
      destruct (drawLine_safe _ _ _ _ _ _ _ _ Hd) as (ws1 & He1 & Hs1).
      destruct (IH _ _ _ _ H) as (ws2 & He2 & Hs2).
      exists (ws2 ++ ws1). split.
      * eapply extends_by_trans; eassumption.
      * apply Forall_app. now split.
Qed.

(** [processData] once the parameter check has passed. *)
Lemma processData_checked fuel p data len m :
  _initialized p = true -> len <> 0 ->
  processData fuel p (Some data) len (Some m) =
  (sp <- locateTrigger p data len ;;
   if pixelsToFill (snd sp) len (fst sp) =? 0
   then Ok (mkOutcome false (snd sp) (Some (clearMatrix m)))
   else
     v <- read data (fst sp) ;;
     matrix' <- columns (Z.to_nat (pixelsToFill (snd sp) len (fst sp) - 1))
                        fuel (snd sp) data len (fst sp) 1
                        (scaleAmplitude (snd sp) v) (clearMatrix m) ;;
     Ok (mkOutcome true (snd sp) (Some matrix'))).
Proof.
  intros Hinit Hlen. unfold processData. rewrite Hinit.
  destruct (Z.eqb_spec len 0); [contradiction|]. reflexivity.
Qed.

(** [processData] when the parameter check fails. *)
Lemma processData_rejected fuel p inputData len outputMatrix :
  _initialized p = false \/ inputData = None \/ len = 0 \/
  outputMatrix = None ->
  processData fuel p inputData len outputMatrix =
  Ok (mkOutcome false p outputMatrix).
Proof.
  intros H. unfold processData.
  destruct inputData as [data|]; [|reflexivity].
  destruct outputMatrix as [m|]; [|reflexivity].
  destruct H as [-> | [H | [-> | H]]]; try discriminate; try reflexivity.
  now rewrite Z.eqb_refl, orb_true_r.
Qed.

Lemma processData_cases p (inputData : option buffer) (len : Z)
    (outputMatrix : option Matrix) :
  (_initialized p = false \/ inputData = None \/ len = 0 \/
   outputMatrix = None) \/
  (exists data m, inputData = Some data /\ outputMatrix = Some m /\
                  _initialized p = true /\ len <> 0).
Proof.
  destruct (_initialized p); [|now left; left].
  destruct inputData as [data|]; [|now left; right; left].
  destruct outputMatrix as [m|]; [|now left; right; right; right].
  destruct (Z.eq_dec len 0); [now left; right; right; left|].
  right. now exists data, m.
Qed.

(** A call on a real buffer returns. *)
Lemma processData_returns p data len m :
  input_ok data len ->
  is_uint16 (_samplesPerPixel p) -> 1 <= _samplesPerPixel p ->
  exists o, processData line_fuel p (Some data) len (Some m) = Ok o.
Proof.
  intros Hin Hu Hspp. pose proof Hin as (Hsz & Hlen & Hok).
  destruct (processData_cases p (Some data) len (Some m))
    as [Hrej | (data' & m' & Ed & Em & Hinit & Hne)].
  - rewrite processData_rejected by exact Hrej. now eexists.
  - rewrite processData_checked by assumption.
    assert (Hpos : 0 < len) by (unfold is_size_t in Hsz; lia).
    destruct (locateTrigger_total p data len Hsz Hlen) as (start & p' & E).
    rewrite E. cbn [bind fst snd].
    destruct (locateTrigger_start p data len start p' Hsz Hpos Hlen E)
      as (Hstart & Espp & _).
    destruct (pixelsToFill p' len start =? 0) eqn:Ez; [now eexists|].
    apply Z.eqb_neq in Ez.
    rewrite read_in_bounds by lia. cbn [bind].
    destruct (columns_total p' data len start Hin)
      with (n := Z.to_nat (pixelsToFill p' len start - 1)) (x := 1)
           (prevY := scaleAmplitude p' (sample data start))
           (m := clearMatrix m) as [m1 ->];
      rewrite ?Espp; try assumption; try lia.
    + assert (0 <= pixelsToFill p' len start).
      { rewrite pixelsToFill_min by (assumption || lia).
        rewrite Espp. assert (0 <= (len - start) / _samplesPerPixel p)
          by (apply Z.div_pos; lia).
        unfold MATRIX_WIDTH. lia. }
      lia.
    + apply scaleAmplitude_range.
    + now eexists.
Qed.

Lemma locateTrigger_config p data len sp :
  locateTrigger p data len = Ok sp ->
  _amplitudeScale (snd sp) = _amplitudeScale p /\
  _samplesPerPixel (snd sp) = _samplesPerPixel p.
Proof.
  unfold locateTrigger. cbn [_triggerMode set_trigger_state].
  destruct (_triggerMode p).
  1: intros H; injection H as <-; now split.
  all: intros H; apply bind_Ok in H; destruct H as (r & _ & H);
    destruct (r =? SIZE_MAX); injection H as <-; now split.
Qed.

Lemma processData_config fuel p inputData len outputMatrix o :
  processData fuel p inputData len outputMatrix = Ok o ->
  _amplitudeScale (pds_after o) = _amplitudeScale p /\
  _samplesPerPixel (pds_after o) = _samplesPerPixel p.
Proof.
  destruct (processData_cases p inputData len outputMatrix)
    as [Hrej | (data & m & -> & -> & Hinit & Hne)].
  - rewrite processData_rejected by exact Hrej.
    intros H; injection H as <-. now split.
  - rewrite processData_checked by assumption. intros H.
    apply bind_Ok in H. destruct H as (sp & Hloc & H).
    apply locateTrigger_config in Hloc.
    destruct (pixelsToFill (snd sp) len (fst sp) =? 0).
    + injection H as <-. exact Hloc.
    + apply bind_Ok in H. destruct H as (v & _ & H).
      apply bind_Ok in H. destruct H as (m' & _ & H).
      injection H as <-. exact Hloc.
Qed.

(** What a call that passed the parameter check leaves in the matrix. *)
Lemma processData_matrix fuel p data len m o :
  _initialized p = true -> len <> 0 ->
  processData fuel p (Some data) len (Some m) = Ok o ->
  exists m' ws,
    matrix_after o = Some m' /\
    extends_by (clearMatrix m) m' ws /\ Forall store_in_matrix ws /\
    (success o = false -> m' = clearMatrix m).
Proof.
  intros Hinit Hne. rewrite processData_checked by assumption. intros H.
  apply bind_Ok in H. destruct H as (sp & _ & H).
  destruct (pixelsToFill (snd sp) len (fst sp) =? 0).
  - injection H as <-. exists (clearMatrix m), [].
    split; [reflexivity|]. split; [apply extends_by_refl|].
    split; [constructor|]. intros _. reflexivity.
  - apply bind_Ok in H. destruct H as (v & _ & H).
    apply bind_Ok in H. destruct H as (m' & Hcol & H).
    injection H as <-.
    destruct (columns_safe _ _ _ _ _ _ _ _ _ _ Hcol) as (ws & He & Hs).
    exists m', ws. split; [reflexivity|]. split; [exact He|].
    split; [exact Hs|]. cbn [success]. discriminate.
Qed.

(* ------------------------------------------------------------------ *)
(** ** The processing call *)

(** C1 (as amended).  A call with a null or an empty input buffer returns
    failure and leaves the output matrix as it was: the parameter check
    returns before the matrix is cleared.  A call that passes the check
    clears the matrix to zero first, so that a call that fails later on
    leaves it fully cleared and not partially drawn. *)
Theorem processData_input_error fuel p inputData len outputMatrix :
  (inputData = None \/ len = 0 ->
   processData fuel p inputData len outputMatrix =
   Ok (mkOutcome false p outputMatrix)) /\
  (forall data m o,
     inputData = Some data -> outputMatrix = Some m ->
     _initialized p = true -> len <> 0 ->
     processData fuel p inputData len outputMatrix = Ok o ->
     exists m' ws,
       matrix_after o = Some m' /\
       extends_by (clearMatrix m) m' ws /\
       cleared (clearMatrix m) /\
       (success o = false -> m' = clearMatrix m)).
Proof.
  split.
  - intros H. apply processData_rejected. tauto.
  - intros data m o -> -> Hinit Hne H.
    destruct (processData_matrix _ _ _ _ _ _ Hinit Hne H)
      as (m' & ws & Hm & He & _ & Hf).
    exists m', ws. split; [exact Hm|]. split; [exact He|].
    split; [apply clearMatrix_cleared|exact Hf].
Qed.

Lemma processData_input_error_witness :
  processData line_fuel (begin Pds_new) (Some []) 0
              (Some (mkMatrix (fun _ _ => 255) [])) =
  Ok (mkOutcome false (begin Pds_new) (Some (mkMatrix (fun _ _ => 255) []))).
Proof.
  apply (proj1 (processData_input_error line_fuel (begin Pds_new) (Some []) 0
                  (Some (mkMatrix (fun _ _ => 255) [])))).
  right. reflexivity.
Defined.

(** C1 as stated fails: on an empty (and on a null) input buffer the call
    returns failure with the matrix untouched, here still lit. *)
Lemma processData_empty_input_not_cleared :
  (exists o m',
     processData line_fuel (begin Pds_new) (Some []) 0
                 (Some (mkMatrix (fun _ _ => 255) [])) = Ok o /\
     success o = false /\ matrix_after o = Some m' /\ ~ cleared m') /\
  (exists o m',
     processData line_fuel (begin Pds_new) None 0
                 (Some (mkMatrix (fun _ _ => 255) [])) = Ok o /\
     success o = false /\ matrix_after o = Some m' /\ ~ cleared m').
Proof.
  split; eexists; eexists; (split; [reflexivity|]);
    (split; [reflexivity|]); (split; [reflexivity|]);
    intros Hc; specialize (Hc 0 0);
    unfold in_matrix, MATRIX_WIDTH, MATRIX_HEIGHT, cell in Hc;
    simpl in Hc; specialize (Hc ltac:(lia)); discriminate.
Qed.

(** C7.  [drawLine] with an endpoint outside the matrix stores nothing at
    all, and every store a processing call makes into the matrix is at a
    coordinate with [0 <= x < W] and [0 <= y < H]. *)
Theorem stores_inside_matrix fuel m x1 y1 x2 y2 value p inputData len :
  (is_uint16 x1 -> is_uint16 y1 -> is_uint16 x2 -> is_uint16 y2 ->
   ~ (in_matrix x1 y1 /\ in_matrix x2 y2) ->
   drawLine fuel m x1 y1 x2 y2 value = Ok m) /\
  (forall o m',
     processData fuel p inputData len (Some m) = Ok o ->
     matrix_after o = Some m' ->
     exists ws, extends_by m m' ws /\ Forall store_in_matrix ws).
Proof.
  split; [apply drawLine_outside|].
  intros o m' H Hm.
  destruct (processData_cases p inputData len (Some m))
    as [Hrej | (data & m0 & -> & Em & Hinit & Hne)].
  - rewrite processData_rejected in H by exact Hrej.
    injection H as <-. cbn in Hm. injection Hm as <-.
    exists []. split; [apply extends_by_refl|constructor].
  - injection Em as <-.
    destruct (processData_matrix _ _ _ _ _ _ Hinit Hne H)
      as (m1 & ws & Hm1 & He & Hs & _).
    rewrite Hm in Hm1. injection Hm1 as <-.
    destruct (clearMatrix_safe m) as (ws0 & He0 & Hs0).
    exists (ws ++ ws0). split.
    + exact (extends_by_trans _ _ _ _ _ He0 He).
    + apply Forall_app. exact (conj Hs Hs0).
Qed.

Lemma stores_inside_matrix_witness :
  drawLine 10 (mkMatrix (fun _ _ => 0) []) 5 2 800 9 255 =
    Ok (mkMatrix (fun _ _ => 0) []) /\
  exists o m' ws,
    processData line_fuel (begin Pds_new) (Some [0; 100; 200]) 3
                (Some (mkMatrix (fun _ _ => 0) [])) = Ok o /\
    matrix_after o = Some m' /\
    extends_by (mkMatrix (fun _ _ => 0) []) m' ws /\
    Forall store_in_matrix ws.
Proof.
  pose proof (stores_inside_matrix line_fuel (mkMatrix (fun _ _ => 0) [])
                5 2 800 9 255 (begin Pds_new) (Some [0; 100; 200]) 3)
    as [_ Hsafe].
  split.
  - apply (proj1 (stores_inside_matrix 10 (mkMatrix (fun _ _ => 0) [])
                    5 2 800 9 255 Pds_new None 0));
      unfold is_uint16, in_matrix, MATRIX_WIDTH, MATRIX_HEIGHT; lia.
  - destruct (processData_returns (begin Pds_new) [0; 100; 200] 3
                (mkMatrix (fun _ _ => 0) [])) as [o Ho].
    + unfold input_ok, is_size_t, buffer_ok, is_uint8. simpl.
      repeat split; try lia. repeat constructor; lia.
    + unfold is_uint16. simpl. lia.
    + simpl. lia.
    + destruct (processData_matrix line_fuel (begin Pds_new) [0; 100; 200] 3
                  (mkMatrix (fun _ _ => 0) []) o eq_refl ltac:(lia) Ho)
        as (m' & _ & Hm & _).
      destruct (Hsafe o m' Ho Hm) as (ws & He & Hs).
      exists o, m', ws. exact (conj Ho (conj Hm (conj He Hs))).
Defined.

(** C9.  When a call finds a trigger and then fails for lack of data, the
    trigger state it leaves is the one of its own search: the status is
    "detected" and the position is the one just found. *)
Theorem trigger_state_after_failure fuel p data len m pos :
  input_ok data len -> 0 < len ->
  _initialized p = true ->
  _triggerMode p <> TRIGGER_OFF ->
  findTrigger p data len = Ok pos -> pos <> SIZE_MAX ->
  pixelsToFill p len pos = 0 ->
  exists o,
    processData fuel p (Some data) len (Some m) = Ok o /\
    success o = false /\
    getTriggerStatus (pds_after o) = true /\
    getTriggerPosition (pds_after o) = pos.
Proof.
  intros (Hsz & Hlen & Hok) Hpos Hinit Hmode Hfind Hfound Hfill.
  rewrite processData_checked by (assumption || lia).
  destruct (locateTrigger_spec p data len Hsz Hlen) as (r & Hr & _ & E).
  rewrite Hfind in Hr. injection Hr as <-.
  rewrite E. cbn [bind].
  destruct (Z.eqb_spec pos SIZE_MAX); [contradiction|].
  assert (Hz : pixelsToFill (set_trigger_state p true pos) len pos = 0)
    by exact Hfill.
  destruct (_triggerMode p); [contradiction| | |];
    cbn [fst snd]; rewrite Hz; cbn;
    eexists; repeat split; reflexivity.
Qed.

Lemma trigger_state_after_failure_witness :
  let p := setTimeScale (setTrigger (begin Pds_new) TRIGGER_RISING 128) 5 in
  getTriggerStatus p = false /\ getTriggerPosition p = 0 /\
  exists o,
    processData line_fuel p (Some [0; 200; 0]) 3
                (Some (mkMatrix (fun _ _ => 0) [])) = Ok o /\
    success o = false /\
    getTriggerStatus (pds_after o) = true /\
    getTriggerPosition (pds_after o) = 1.
Proof.
  intros p. split; [reflexivity|]. split; [reflexivity|].
  apply trigger_state_after_failure.
  - unfold input_ok, is_size_t, buffer_ok, is_uint8. simpl.
    repeat split; try lia. repeat constructor; lia.
  - lia.
  - reflexivity.
  - discriminate.
  - reflexivity.
  - discriminate.
  - reflexivity.
Defined.

(** C10.  In the drawing loop every read of the input buffer is in
    bounds: for a column [x] of [[1, pixelsToFill)] the index
    [start + x * samplesPerPixel] is below [inputLength], the averaging
    run reads the indices from there on only while they are below
    [inputLength], it holds at least one sample, and the value drawn is
    the average (the single-sample fallback is not taken); the whole loop
    runs through without a read beyond the buffer. *)
Theorem drawing_loop_reads_in_bounds p data len start x :
  input_ok data len ->
  is_uint16 (_samplesPerPixel p) -> 1 <= _samplesPerPixel p ->
  0 <= start <= len ->
  1 <= x < pixelsToFill p len start ->
  sampleIndexOf p start x = start + x * _samplesPerPixel p /\
  sampleIndexOf p start x < len /\
  (exists sum sampleCount,
     averageRun (Z.to_nat (_samplesPerPixel p)) data len
                (sampleIndexOf p start x) 0 0 0 = Ok (sum, sampleCount) /\
     1 <= sampleCount /\
     sampleIndexOf p start x + sampleCount <= len /\
     sum = sum_run data (sampleIndexOf p start x) (Z.to_nat sampleCount) /\
     avgValue data (sampleIndexOf p start x) sum sampleCount =
       Ok (to_uint8 (sum / sampleCount))) /\
  (forall prevY m,
     0 <= prevY < MATRIX_HEIGHT ->
     exists m',
       columns (Z.to_nat (pixelsToFill p len start - 1)) line_fuel p data
               len start 1 prevY m = Ok m').
Proof.
  intros Hin Hu Hspp Hs Hx. pose proof Hin as (Hsz & Hlen & Hok).
  destruct (sampleIndexOf_in_bounds p len start x Hsz Hs Hu Hspp ltac:(lia))
    as [E Hrun].
  rewrite E. set (si := start + x * _samplesPerPixel p) in *.
  assert (0 <= si) by (subst si; nia).
  split; [reflexivity|]. split; [lia|]. split.
  - unfold is_uint16 in Hu.
    exists (sum_run data si (Z.to_nat (_samplesPerPixel p))),
      (_samplesPerPixel p).
    rewrite (averageRun_spec data len si Hin) by lia.
    rewrite Z.add_0_r, !Z.add_0_l, Z2Nat.id, Z.min_l by lia.
    repeat split; try lia.
    unfold avgValue. destruct (Z.gtb_spec (_samplesPerPixel p) 0); [|lia].
    reflexivity.
  - intros prevY m Hy. apply columns_total; try assumption; lia.
Qed.

Lemma drawing_loop_reads_in_bounds_witness :
  let p := setTimeScale (begin Pds_new) 2 in
  let data := [10; 20; 30; 40; 50; 61] in
  sampleIndexOf p 0 2 = 4 /\
  averageRun 2 data 6 4 0 0 0 = Ok (111, 2) /\
  avgValue data 4 111 2 = Ok 55.
Proof.
  intros p data.
  destruct (drawing_loop_reads_in_bounds p data 6 0 2)
    as (Hsi & _ & (sum & cnt & Hrun & _ & _ & _ & Havg) & _).
  - unfold input_ok, is_size_t, buffer_ok, is_uint8. simpl.
    repeat split; try lia. repeat constructor; lia.
  - unfold is_uint16. simpl. lia.
  - simpl. lia.
  - lia.
  - vm_compute. split; [discriminate|reflexivity].
  - split; [exact Hsi|].
    assert (Ev : averageRun 2 data 6 4 0 0 0 = Ok (111, 2)) by reflexivity.
    rewrite Hsi in Hrun, Havg. change (0 + 2 * _samplesPerPixel p) with 4 in *.
    change (Z.to_nat (_samplesPerPixel p)) with 2%nat in Hrun.
    rewrite Ev in Hrun. injection Hrun as <- <-.
    split; [exact Ev|exact Havg].
Defined.

(* ------------------------------------------------------------------ *)
(** ** Configuration *)

Lemma setAmplitudeScale_rejected p scale :
  Float32.ltb Float32.zero scale = false -> setAmplitudeScale p scale = p.
Proof. intros H. unfold setAmplitudeScale. now rewrite H. Qed.

Lemma setTimeScale_rejected p samplesPerPixel :
  samplesPerPixel <= 0 -> setTimeScale p samplesPerPixel = p.
Proof.
  intros H. unfold setTimeScale.
  destruct (Z.gtb_spec samplesPerPixel 0); [lia|reflexivity].
Qed.

Lemma reachable_config_ok p : reachable p -> config_ok p.
Proof.
  induction 1 as [ | p _ IH | p mode level _ IH | p scale _ IH
                 | p spp _ IH _ | p fuel i len om o _ IH Hcall ].
  - split; [reflexivity|simpl; lia].
  - exact IH.
  - exact IH.
  - unfold setAmplitudeScale.
    destruct (Float32.ltb Float32.zero scale) eqn:E; [|exact IH].
    split; [exact E|apply IH].
  - unfold setTimeScale.
    destruct (Z.gtb_spec spp 0); [|exact IH].
    split; [apply IH|simpl; lia].
  - destruct (processData_config _ _ _ _ _ _ Hcall) as [Ea Es].
    unfold config_ok. rewrite Ea, Es. exact IH.
Qed.

(** C8.  After construction and after any sequence of calls of the public
    member functions the amplitude scale is positive and the number of
    samples per pixel is at least 1: [setAmplitudeScale] with an argument
    that is not positive and [setTimeScale] with 0 leave the processor as
    it was, and a processing call made afterwards is the call that would
    have been made without them. *)
Theorem config_invariant :
  (forall p, reachable p -> config_ok p) /\
  (forall p scale,
     Float32.ltb Float32.zero scale = false -> setAmplitudeScale p scale = p) /\
  (forall p, setTimeScale p 0 = p) /\
  (forall fuel p scale inputData len outputMatrix,
     Float32.ltb Float32.zero scale = false ->
     processData fuel (setTimeScale (setAmplitudeScale p scale) 0)
                 inputData len outputMatrix =
     processData fuel p inputData len outputMatrix).
Proof.
  split; [exact reachable_config_ok|].
  split; [exact setAmplitudeScale_rejected|].
  split; [intros p; apply setTimeScale_rejected; lia|].
  intros fuel p scale inputData len outputMatrix H.
  rewrite setTimeScale_rejected by lia.
  now rewrite setAmplitudeScale_rejected.
Qed.

Lemma config_invariant_witness :
  config_ok
    (setTimeScale
       (setAmplitudeScale (setTimeScale (begin Pds_new) 4)
                          (Float32.of_int (-2)))
       0) /\
  setTimeScale
    (setAmplitudeScale (setTimeScale (begin Pds_new) 4) (Float32.of_int (-2)))
    0 = setTimeScale (begin Pds_new) 4.
Proof.
  destruct config_invariant as (Hinv & Hamp & Htime & _).
  split.
  - apply Hinv. repeat constructor; unfold is_uint16; lia.
  - rewrite Htime. apply Hamp. reflexivity.
Defined.

(* ================================================================== *)
(** * Further properties of the processing core *)

(* ------------------------------------------------------------------ *)
(** ** Trigger detector, other modes *)

Lemma falling_at_value data level i :
  1 <= i < Z.of_nat (length data) ->
  falling_at data level i =
  Ok ((sample data (i - 1) >=? level) && (sample data i <? level)).
Proof.
  intros Hi. unfold falling_at.
  rewrite read_in_bounds by lia. cbn [bind].
  destruct (sample data (i - 1) >=? level); [|reflexivity].
  now rewrite read_in_bounds by lia.
Qed.

Lemma falling_at_true data level i :
  1 <= i < Z.of_nat (length data) ->
  falling_edge data level i -> falling_at data level i = Ok true.
Proof.
  intros Hi [H1 H2]. rewrite falling_at_value by assumption.
  destruct (Z.geb_spec (sample data (i - 1)) level); [|lia].
  destruct (Z.ltb_spec (sample data i) level); [reflexivity|lia].
Qed.

Lemma falling_at_false data level i :
  1 <= i < Z.of_nat (length data) ->
  ~ falling_edge data level i -> falling_at data level i = Ok false.
Proof.
  intros Hi Hn. rewrite falling_at_value by assumption.
  unfold falling_edge in Hn.
  destruct (Z.geb_spec (sample data (i - 1)) level); [|reflexivity].
  destruct (Z.ltb_spec (sample data i) level); [lia|reflexivity].
Qed.

(** X1.  In mode [TRIGGER_FALLING], [findTrigger] returns the first index
    [i] of [[1, length)] with [buffer[i-1] >= level > buffer[i]], and
    [SIZE_MAX] when the buffer is shorter than 2 or has no such index. *)
Theorem findTrigger_falling_first p data len :
  _triggerMode p = TRIGGER_FALLING ->
  is_size_t len ->
  len <= Z.of_nat (length data) ->
  (len < 2 -> findTrigger p data len = Ok SIZE_MAX) /\
  (forall i, 1 <= i < len ->
     falling_edge data (_triggerLevel p) i ->
     (forall j, 1 <= j < i -> ~ falling_edge data (_triggerLevel p) j) ->
     findTrigger p data len = Ok i) /\
  ((forall i, 1 <= i < len -> ~ falling_edge data (_triggerLevel p) i) ->
   findTrigger p data len = Ok SIZE_MAX).
Proof.
  intros Hmode Hsz Hlen. unfold is_size_t in Hsz. unfold findTrigger.
  rewrite Hmode. split; [|split].
  - intros Hlt. destruct (Z.ltb_spec len 2); [reflexivity|lia].
  - intros i Hi Hedge Hfirst.
    destruct (Z.ltb_spec len 2); [lia|].
    apply search_first; rewrite ?Z2Nat.id by lia; try lia.
    + apply falling_at_true; [lia|assumption].
    + intros j Hj. apply falling_at_false; [lia|]. apply Hfirst. lia.
  - intros Hnone.
    destruct (Z.ltb_spec len 2); [reflexivity|].
    apply search_none; rewrite ?Z2Nat.id by lia; try lia.
    intros j Hj. apply falling_at_false; [lia|]. apply Hnone. lia.
Qed.

Lemma findTrigger_falling_first_witness :
  findTrigger (setTrigger Pds_new TRIGGER_FALLING 128) [0; 200; 130; 0; 255] 5
  = Ok 3 /\
  findTrigger (setTrigger Pds_new TRIGGER_FALLING 128) [0; 100; 200] 3
  = Ok SIZE_MAX.
Proof.
  split.
  - refine (proj1 (proj2 (findTrigger_falling_first
                            (setTrigger Pds_new TRIGGER_FALLING 128)
                            [0; 200; 130; 0; 255] 5 eq_refl _ _)) 3 _ _ _);
      unfold is_size_t, falling_edge, sample; simpl; try lia.
    intros j Hj. assert (j = 1 \/ j = 2) as [-> | ->] by lia; simpl; lia.
  - refine (proj2 (proj2 (findTrigger_falling_first
                            (setTrigger Pds_new TRIGGER_FALLING 128)
                            [0; 100; 200] 3 eq_refl _ _)) _);
      unfold is_size_t, falling_edge, sample; simpl; try lia.
    intros i Hi. assert (i = 1 \/ i = 2) as [-> | ->] by lia; simpl; lia.
Defined.

(** X2.  On a buffer that holds [length] samples [findTrigger] reads
    inside the buffer only and returns either [SIZE_MAX] or an index
    below [length]; the index is never 0 for the two edge modes, and the
    answer is [SIZE_MAX] in mode [TRIGGER_OFF] and for fewer than 2
    samples. *)
Theorem findTrigger_result_range p data len :
  is_size_t len ->
  len <= Z.of_nat (length data) ->
  exists r,
    findTrigger p data len = Ok r /\
    (r = SIZE_MAX \/ 0 <= r < len) /\
    (_triggerMode p = TRIGGER_OFF \/ len < 2 -> r = SIZE_MAX) /\
    (_triggerMode p = TRIGGER_RISING \/ _triggerMode p = TRIGGER_FALLING ->
     r <> 0).
Proof.
  intros Hsz Hlen. unfold is_size_t in Hsz. unfold findTrigger.
  assert (Hmax : SIZE_MAX <> 0) by (rewrite SIZE_MAX_value; lia).
  destruct (Z.ltb_spec len 2) as [Hlt|Hge].
  { exists SIZE_MAX. repeat split; auto. }
  destruct (_triggerMode p) eqn:Em.
  - exists SIZE_MAX. repeat split; auto.
  - destruct (search_total (rising_at data (_triggerLevel p))
                (Z.to_nat (len - 1)) 1) as (r & Hr & Hrange);
      rewrite ?Z2Nat.id by lia; try lia.
    { intros j Hj. rewrite rising_at_in_bounds by lia. now eexists. }
    rewrite Z2Nat.id in Hrange by lia.
    exists r. split; [exact Hr|]. split; [lia|]. split.
    + intros [H|H]; [discriminate|lia].
    + intros _. lia.
  - destruct (search_total (falling_at data (_triggerLevel p))
                (Z.to_nat (len - 1)) 1) as (r & Hr & Hrange);
      rewrite ?Z2Nat.id by lia; try lia.
    { intros j Hj. rewrite falling_at_value by lia. now eexists. }
    rewrite Z2Nat.id in Hrange by lia.
    exists r. split; [exact Hr|]. split; [lia|]. split.
    + intros [H|H]; [discriminate|lia].
    + intros _. lia.
  - destruct (search_total (level_at data (_triggerLevel p))
                (Z.to_nat len) 0) as (r & Hr & Hrange);
      rewrite ?Z2Nat.id by lia; try lia.
    { intros j Hj. apply level_at_in_bounds. lia. }
    rewrite Z2Nat.id in Hrange by lia.
    exists r. split; [exact Hr|]. split; [lia|]. split.
    + intros [H|H]; [discriminate|lia].
    + intros [H|H]; discriminate.
Qed.

Lemma findTrigger_result_range_witness :
  exists r,
    findTrigger (setTrigger Pds_new TRIGGER_RISING 128) [0; 10; 200; 0] 4
    = Ok r /\ (r = SIZE_MAX \/ 0 <= r < 4).
Proof.
  destruct (findTrigger_result_range
              (setTrigger Pds_new TRIGGER_RISING 128) [0; 10; 200; 0] 4)
    as (r & Hr & Hrange & _).
  - unfold is_size_t. lia.
  - simpl. lia.
  - now exists r.
Defined.

(* ------------------------------------------------------------------ *)
(** ** Trigger state and rejected calls *)

(** X3.  A call that passes the parameter check returns (with fuel
    [line_fuel]) and records the trigger search it made: when the mode is
    not [TRIGGER_OFF] and the search found an index, the status is
    "detected" and the position is that index, which lies inside the
    buffer; otherwise the status is "not detected" and the stored
    position is still the one of an earlier call. *)
Theorem processData_trigger_state p data len m :
  input_ok data len -> 0 < len ->
  _initialized p = true ->
  is_uint16 (_samplesPerPixel p) -> 1 <= _samplesPerPixel p ->
  exists o r,
    processData line_fuel p (Some data) len (Some m) = Ok o /\
    findTrigger p data len = Ok r /\
    (_triggerMode p = TRIGGER_OFF \/ r = SIZE_MAX ->
     getTriggerStatus (pds_after o) = false /\
     getTriggerPosition (pds_after o) = getTriggerPosition p) /\
    (_triggerMode p <> TRIGGER_OFF -> r <> SIZE_MAX ->
     getTriggerStatus (pds_after o) = true /\
     getTriggerPosition (pds_after o) = r /\ 0 <= r < len).
Proof.
  intros Hin Hpos Hinit Hu Hspp. pose proof Hin as (Hsz & Hlen & Hok).
  destruct (processData_returns p data len m Hin Hu Hspp) as [o Ho].
  destruct (locateTrigger_spec p data len Hsz Hlen) as (r & Hr & Hrange & E).
  exists o, r. split; [exact Ho|]. split; [exact Hr|].
  rewrite processData_checked in Ho by (assumption || lia).
  rewrite E in Ho. cbn [bind] in Ho.
  assert (Hafter :
    pds_after o =
    snd (match _triggerMode p with
         | TRIGGER_OFF => (0, set_trigger_state p false (_triggerPosition p))
         | _ => if r =? SIZE_MAX
                then (0, set_trigger_state p false (_triggerPosition p))
                else (r, set_trigger_state p true r)
         end)).
  { match type of Ho with
    | (if ?c then _ else _) = _ => destruct c
    end.
    - injection Ho as <-. reflexivity.
    - apply bind_Ok in Ho. destruct Ho as (v & _ & Ho).
      apply bind_Ok in Ho. destruct Ho as (m' & _ & Ho).
      injection Ho as <-. reflexivity. }
  rewrite Hafter. split.
  - intros [Hoff | Hnone].
    + rewrite Hoff. split; reflexivity.
    + rewrite Hnone, Z.eqb_refl. destruct (_triggerMode p); split; reflexivity.
  - intros Hmode Hfound.
    destruct (Z.eqb_spec r SIZE_MAX); [contradiction|].
    destruct (_triggerMode p); [contradiction| | |];
      cbn; repeat split; lia.
Qed.

Lemma processData_trigger_state_witness :
  exists o,
    processData line_fuel
      (set_trigger_state (setTrigger (begin Pds_new) TRIGGER_RISING 128)
                         true 7)
      (Some [0; 50; 100]) 3 (Some (mkMatrix (fun _ _ => 0) [])) = Ok o /\
    getTriggerStatus (pds_after o) = false /\
    getTriggerPosition (pds_after o) = 7.
Proof.
  destruct (processData_trigger_state
              (set_trigger_state (setTrigger (begin Pds_new) TRIGGER_RISING 128)
                                 true 7)
              [0; 50; 100] 3 (mkMatrix (fun _ _ => 0) []))
    as (o & r & Ho & Hr & Hnone & _).
  - unfold input_ok, is_size_t, buffer_ok, is_uint8. simpl.
    repeat split; try lia. repeat constructor; lia.
  - lia.
  - reflexivity.
  - unfold is_uint16. simpl. lia.
  - simpl. lia.
  - exists o. split; [exact Ho|]. apply Hnone. right.
    assert (E : findTrigger
                  (set_trigger_state
                     (setTrigger (begin Pds_new) TRIGGER_RISING 128) true 7)
                  [0; 50; 100] 3 = Ok SIZE_MAX) by reflexivity.
    rewrite E in Hr. now injection Hr.
Defined.

(** X4.  Before [begin] has been called every processing call fails and
    changes neither the processor nor the matrix; the constructor leaves
    the processor uninitialised and no setter initialises it. *)
Theorem processData_before_begin fuel p inputData len outputMatrix :
  _initialized p = false ->
  processData fuel p inputData len outputMatrix =
    Ok (mkOutcome false p outputMatrix) /\
  _initialized Pds_new = false /\
  (forall mode level scale samplesPerPixel,
     _initialized (setTimeScale
                     (setAmplitudeScale (setTrigger p mode level) scale)
                     samplesPerPixel) = false).
Proof.
  intros Hinit. split; [|split; [reflexivity|]].
  - apply processData_rejected. now left.
  - intros mode level scale spp.
    unfold setTimeScale, setAmplitudeScale.
    destruct (spp >? 0), (Float32.ltb Float32.zero scale); exact Hinit.
Qed.

Lemma processData_before_begin_witness :
  processData line_fuel (setTimeScale Pds_new 2) (Some [1; 2; 3]) 3
              (Some (mkMatrix (fun _ _ => 9) [])) =
  Ok (mkOutcome false (setTimeScale Pds_new 2)
                (Some (mkMatrix (fun _ _ => 9) []))).
Proof.
  apply (proj1 (processData_before_begin line_fuel (setTimeScale Pds_new 2)
                  (Some [1; 2; 3]) 3 (Some (mkMatrix (fun _ _ => 9) []))
                  eq_refl)).
Defined.

(** X9.  A call with exactly one fillable column succeeds without drawing
    anything: the loop over the columns starts at column 1, so the matrix
    is left all zero. *)
Theorem processData_single_column fuel p data len m start p' :
  input_ok data len -> 0 < len ->
  _initialized p = true ->
  locateTrigger p data len = Ok (start, p') ->
  pixelsToFill p' len start = 1 ->
  processData fuel p (Some data) len (Some m) =
    Ok (mkOutcome true p' (Some (clearMatrix m))) /\
  cleared (clearMatrix m).
Proof.
  intros (Hsz & Hlen & Hok) Hpos Hinit Hloc Hone.
  split; [|apply clearMatrix_cleared].
  rewrite processData_checked by (assumption || lia).
  rewrite Hloc. cbn [bind fst snd]. rewrite Hone.
  destruct (locateTrigger_start p data len start p' Hsz Hpos Hlen Hloc)
    as (Hstart & _).
  rewrite read_in_bounds by lia. reflexivity.
Qed.

Lemma processData_single_column_witness :
  exists o,
    processData line_fuel (begin Pds_new) (Some [42]) 1
                (Some (mkMatrix (fun _ _ => 9) [])) = Ok o /\
    success o = true /\
    matrix_after o = Some (clearMatrix (mkMatrix (fun _ _ => 9) [])).
Proof.
  eexists. split.
  - apply (processData_single_column line_fuel (begin Pds_new) [42] 1
             (mkMatrix (fun _ _ => 9) []) 0
             (set_trigger_state (begin Pds_new) false 0)).
    + unfold input_ok, is_size_t, buffer_ok, is_uint8. simpl.
      repeat split; try lia. repeat constructor; lia.
    + lia.
    + reflexivity.
    + reflexivity.
    + reflexivity.
  - split; reflexivity.
Defined.

(* ------------------------------------------------------------------ *)
(** ** Where the rasterizer stores *)

Lemma lookup_value ws rest y x v :
  (forall s, In s ws -> st_value s = v) ->
  (exists s, In s ws /\ st_x s = x /\ st_y s = y) ->
  lookup (ws ++ rest) y x = Some v.
Proof.
  induction ws as [|s ws IH]; intros Hval (s0 & Hin & Hx & Hy);
    [destruct Hin|].
  cbn [app lookup].
  destruct ((st_y s =? y) && (st_x s =? x)) eqn:E.
  - rewrite (Hval s) by now left. reflexivity.
  - destruct Hin as [->|Hin].
    + rewrite Hx, Hy, !Z.eqb_refl in E. discriminate.
    + apply IH; [|now exists s0]. intros s' Hs'. apply Hval. now right.
Qed.

Lemma lookup_skip ws rest y x :
  (forall s, In s ws -> ~ (st_x s = x /\ st_y s = y)) ->
  lookup (ws ++ rest) y x = lookup rest y x.
Proof.
  induction ws as [|s ws IH]; intros Hno; [reflexivity|].
  cbn [app lookup].
  destruct (Z.eqb_spec (st_y s) y) as [Ey|Ey];
    destruct (Z.eqb_spec (st_x s) x) as [Ex|Ex]; cbn [andb];
    try (apply IH; intros s' Hs'; apply Hno; now right).
  exfalso. apply (Hno s); [now left|now split].
Qed.

Lemma lookup_value_or_rest ws rest y x v :
  (forall s, In s ws -> st_value s = v) ->
  lookup (ws ++ rest) y x = Some v \/
  lookup (ws ++ rest) y x = lookup rest y x.
Proof.
  induction ws as [|s ws IH]; intros Hval; [now right|].
  cbn [app lookup].
  destruct ((st_y s =? y) && (st_x s =? x)).
  - left. rewrite (Hval s) by now left. reflexivity.
  - apply IH. intros s' Hs'. apply Hval. now right.
Qed.

Lemma cell_value_or_old m m' ws v y x :
  extends_by m m' ws -> Forall (fun s => st_value s = v) ws ->
  cell m' y x = v \/ cell m' y x = cell m y x.
Proof.
  intros [Hst Hb] Hval. rewrite Forall_forall in Hval. unfold cell.
  rewrite Hst, Hb.
  destruct (lookup_value_or_rest ws (stores m) y x v Hval) as [-> | ->];
    [now left|now right].
Qed.

Lemma cell_lit m m' ws v y x :
  extends_by m m' ws -> Forall (fun s => st_value s = v) ws ->
  (exists s, In s ws /\ st_x s = x /\ st_y s = y) ->
  cell m' y x = v.
Proof.
  intros [Hst Hb] Hval Hex. rewrite Forall_forall in Hval. unfold cell.
  now rewrite Hst, (lookup_value ws (stores m) y x v Hval Hex).
Qed.

Lemma cell_untouched m m' ws y x :
  extends_by m m' ws ->
  (forall s, In s ws -> ~ (st_x s = x /\ st_y s = y)) ->
  cell m' y x = cell m y x.
Proof.
  intros [Hst Hb] Hno. unfold cell.
  now rewrite Hst, Hb, (lookup_skip ws (stores m) y x Hno).
Qed.

Lemma plot_values m x y v :
  exists ws, extends_by m (plot m x y v) ws /\
             Forall (fun s => st_value s = v) ws.
Proof.
  unfold plot.
  destruct ((x >=? 0) && (x <? MATRIX_WIDTH) && (y >=? 0)
            && (y <? MATRIX_HEIGHT)).
  - exists [mkStore x y v]. split; [apply writeCell_extends|].
    now repeat constructor.
  - exists []. split; [apply extends_by_refl|constructor].
Qed.

Lemma drawLine_loop_values x2 y2 dx dy sx sy v fuel :
  forall m x y err m',
    drawLine_loop fuel m x2 y2 dx dy sx sy v x y err = Ok m' ->
    exists ws, extends_by m m' ws /\ Forall (fun s => st_value s = v) ws.
Proof.
  induction fuel as [|fuel IH]; intros m x y err m' H; [discriminate|].
  cbn [drawLine_loop] in H.
  destruct (plot_values m x y v) as (ws1 & He1 & Hs1).
  destruct ((x =? x2) && (y =? y2)).
  - injection H as <-. now exists ws1.
  - destruct (line_step dx dy sx sy x y err) as [[x' y'] err'].
    destruct (IH _ _ _ _ _ H) as (ws2 & He2 & Hs2).
    exists (ws2 ++ ws1). split.
    + eapply extends_by_trans; eassumption.
    + apply Forall_app. now split.
Qed.

Lemma drawLine_values fuel m x1 y1 x2 y2 v m' :
  drawLine fuel m x1 y1 x2 y2 v = Ok m' ->
  exists ws, extends_by m m' ws /\ Forall (fun s => st_value s = v) ws.
Proof.
  unfold drawLine.
  destruct ((x1 >=? MATRIX_WIDTH) || (x2 >=? MATRIX_WIDTH)
            || (y1 >=? MATRIX_HEIGHT) || (y2 >=? MATRIX_HEIGHT)).
  - intros H. injection H as <-. exists [].
    split; [apply extends_by_refl|constructor].
  - apply drawLine_loop_values.
Qed.

Section BresenhamBox.

Variables x2 y2 dx dy sx sy value : Z.
Hypothesis Hx2 : 0 <= x2 < MATRIX_WIDTH.
Hypothesis Hy2 : 0 <= y2 < MATRIX_HEIGHT.
Hypothesis Hsx : sx = 1 \/ sx = -1.
Hypothesis Hsy : sy = 1 \/ sy = -1.
Hypothesis Hdx : 0 <= dx.
Hypothesis Hdy : 0 <= dy.
Hypothesis Hx1 : 0 <= x2 - sx * dx < MATRIX_WIDTH.
Hypothesis Hy1 : 0 <= y2 - sy * dy < MATRIX_HEIGHT.

Local Abbreviation run_full := (run_full x2 y2 dx dy sx sy value).
Local Abbreviation box := (in_box (x2 - sx * dx) (y2 - sy * dy) x2 y2).

Lemma point_in_box n r v :
  0 <= n <= dx -> 0 <= r <= dy ->
  box (mkStore (x2 - sx * n) (y2 - sy * r) v).
Proof.
  unfold in_box. cbn [st_x st_y]. intros Hn Hr.
  destruct Hsx as [-> | ->], Hsy as [-> | ->]; lia.
Qed.

Lemma run_full_stop fuel m err :
  run_full (S fuel) m x2 y2 err.
Proof.
  exists []. rewrite (loop_stop x2 y2 dx dy sx sy value Hx2 Hy2).
  split; [reflexivity|]. split; [|now left].
  constructor; [|constructor]. split; [reflexivity|].
  pose proof (point_in_box 0 0 value ltac:(lia) ltac:(lia)) as H.
  now rewrite !Z.mul_0_r, !Z.sub_0_r in H.
Qed.

Lemma run_full_cons fuel m x y err x' y' err' :
  in_matrix x y ->
  (x, y) <> (x2, y2) ->
  box (mkStore x y value) ->
  line_step dx dy sx sy x y err = (x', y', err') ->
  run_full fuel (writeCell m y x value) x' y' err' ->
  run_full (S fuel) m x y err.
Proof.
  intros Hin Hne Hbox Hstep (tr & Hrun & Hall & Hlast).
  exists (mkStore x' y' value :: tr).
  rewrite (loop_step x2 y2 dx dy sx sy value _ _ _ _ _ _ _ _ Hin Hne Hstep),
    Hrun.
  split; [|split].
  - simpl. now rewrite <- !app_assoc.
  - constructor; [now split|exact Hall].
  - now right.
Qed.

Lemma loop_x_major_full (n : nat) : forall r m fuel,
  dy <= dx -> 0 < dx -> Z.of_nat n <= dx -> 0 <= r <= dy ->
  - dx <= 2 * (Z.of_nat n * dy - r * dx) < dx ->
  (n < fuel)%nat ->
  run_full fuel m (x2 - sx * Z.of_nat n) (y2 - sy * r)
           (Z.of_nat n * dy - r * dx + dx - dy).
Proof.
  induction n as [|n IH]; intros r m fuel Hmaj Hpos Hn Hr Hinv Hfuel.
  - assert (r = 0) as -> by nia.
    destruct fuel as [|fuel]; [lia|].
    rewrite !Z.mul_0_r, !Z.sub_0_r. apply run_full_stop.
  - destruct fuel as [|fuel]; [lia|].
    destruct (line_step_x_major x2 y2 dx dy sx sy)
      with (n := Z.of_nat (S n)) (r := r)
      as (r' & Hstep & Hr' & Hr'b & Hinv'); try assumption; try lia.
    replace (Z.of_nat (S n) - 1) with (Z.of_nat n) in * by lia.
    eapply run_full_cons.
    + apply (point_in_matrix x2 y2 dx dy sx sy); try assumption; lia.
    + intros E. inversion E. destruct Hsx as [-> | ->]; lia.
    + apply point_in_box; lia.
    + exact Hstep.
    + apply IH; try assumption; lia.
Qed.

Lemma loop_y_major_full (r : nat) : forall n m fuel,
  dx < dy -> 0 <= n <= dx -> Z.of_nat r <= dy ->
  - dy < 2 * (n * dy - Z.of_nat r * dx) <= dy ->
  (r < fuel)%nat ->
  run_full fuel m (x2 - sx * n) (y2 - sy * Z.of_nat r)
           (n * dy - Z.of_nat r * dx + dx - dy).
Proof.
  induction r as [|r IH]; intros n m fuel Hmaj Hn Hr Hinv Hfuel.
  - assert (n = 0) as -> by nia.
    destruct fuel as [|fuel]; [lia|].
    rewrite !Z.mul_0_r, !Z.sub_0_r. apply run_full_stop.
  - destruct fuel as [|fuel]; [lia|].
    destruct (line_step_y_major x2 y2 dx dy sx sy)
      with (n := n) (r := Z.of_nat (S r))
      as (n' & Hstep & Hn' & Hn'b & Hinv'); try assumption; try lia.
    replace (Z.of_nat (S r) - 1) with (Z.of_nat r) in * by lia.
    eapply run_full_cons.
    + apply (point_in_matrix x2 y2 dx dy sx sy); try assumption; lia.
    + intros E. inversion E. destruct Hsy as [-> | ->]; lia.
    + apply point_in_box; lia.
    + exact Hstep.
    + apply IH; try assumption; lia.
Qed.

Lemma loop_from_start_full m fuel :
  (Z.to_nat (Z.max dx dy) < fuel)%nat ->
  run_full fuel m (x2 - sx * dx) (y2 - sy * dy) (dx - dy).
Proof.
  intros Hfuel.
  destruct (Z_lt_le_dec dx dy) as [Hlt|Hge].
  - rewrite Z.max_r in * by lia.
    pose proof (loop_y_major_full (Z.to_nat dy) dx m fuel Hlt ltac:(lia))
      as H.
    rewrite Z2Nat.id in H by lia.
    replace (dx * dy - dy * dx + dx - dy) with (dx - dy) in H by lia.
    apply H; lia.
  - rewrite Z.max_l in * by lia.
    destruct (Z.eq_dec dx 0) as [E0|Hpos].
    + assert (Edy : dy = 0) by lia.
      replace (x2 - sx * dx) with x2 by (rewrite E0; lia).
      replace (y2 - sy * dy) with y2 by (rewrite Edy; lia).
      destruct fuel as [|fuel]; [lia|]. apply run_full_stop.
    + pose proof (loop_x_major_full (Z.to_nat dx) dy m fuel Hge ltac:(lia))
        as H.
      rewrite Z2Nat.id in H by lia.
      replace (dx * dy - dy * dx + dx - dy) with (dx - dy) in H by lia.
      apply H; lia.
Qed.

End BresenhamBox.

(** A segment between two points of the matrix: what [drawLine] stores. *)
Lemma drawLine_segment fuel m x1 y1 x2 y2 value :
  in_matrix x1 y1 -> in_matrix x2 y2 ->
  (Z.to_nat (Z.max (Z.abs (x2 - x1)) (Z.abs (y2 - y1))) < fuel)%nat ->
  exists m' ws,
    drawLine fuel m x1 y1 x2 y2 value = Ok m' /\
    extends_by m m' ws /\
    Forall (fun s => st_value s = value /\ in_box x1 y1 x2 y2 s) ws /\
    In (mkStore x1 y1 value) ws /\ In (mkStore x2 y2 value) ws.
Proof.
  intros [Hx1 Hy1] [Hx2 Hy2] Hfuel. unfold drawLine.
  destruct (Z.geb_spec x1 MATRIX_WIDTH); [lia|].
  destruct (Z.geb_spec x2 MATRIX_WIDTH); [lia|].
  destruct (Z.geb_spec y1 MATRIX_HEIGHT); [lia|].
  destruct (Z.geb_spec y2 MATRIX_HEIGHT); [lia|].
  cbn [orb].
  assert (Hw : MATRIX_WIDTH = 800) by reflexivity.
  assert (Hh : MATRIX_HEIGHT = 600) by reflexivity.
  rewrite (to_int16_small x1), (to_int16_small x2),
    (to_int16_small y1), (to_int16_small y2) by lia.
  rewrite (to_int16_small (Z.abs (x2 - x1))),
    (to_int16_small (Z.abs (y2 - y1))) by lia.
  rewrite (to_int16_small (Z.abs (x2 - x1) - Z.abs (y2 - y1))) by lia.
  set (dx := Z.abs (x2 - x1)) in *. set (dy := Z.abs (y2 - y1)) in *.
  set (sx := if x1 <? x2 then 1 else -1).
  set (sy := if y1 <? y2 then 1 else -1).
  assert (Hsx : (sx = 1 \/ sx = -1) /\ x1 = x2 - sx * dx).
  { unfold sx, dx. destruct (Z.ltb_spec x1 x2); lia. }
  assert (Hsy : (sy = 1 \/ sy = -1) /\ y1 = y2 - sy * dy).
  { unfold sy, dy. destruct (Z.ltb_spec y1 y2); lia. }
  destruct Hsx as [Hsx Ex1], Hsy as [Hsy Ey1].
  destruct (loop_from_start_full x2 y2 dx dy sx sy value)
    with (m := m) (fuel := fuel) as (tr & Hrun & Hall & Hlast); try lia.
  rewrite <- Ex1, <- Ey1 in Hrun, Hall, Hlast.
  eexists. exists (rev (mkStore x1 y1 value :: tr)).
  split; [exact Hrun|]. split; [now split|]. split; [|split].
  - apply Forall_rev. exact Hall.
  - apply in_rev. rewrite rev_involutive. now left.
  - apply in_rev. rewrite rev_involutive. exact Hlast.
Qed.

(** X6.  [drawLine] only ever stores [value]: after a call that returns,
    each cell of the matrix either has its old content or holds [value].
    For two endpoints inside the matrix the call returns and both
    endpoint cells hold [value]. *)
Theorem drawLine_paints fuel m x1 y1 x2 y2 value :
  (forall m', drawLine fuel m x1 y1 x2 y2 value = Ok m' ->
              forall x y, cell m' y x = value \/ cell m' y x = cell m y x) /\
  (in_matrix x1 y1 -> in_matrix x2 y2 ->
   (Z.to_nat (Z.max (Z.abs (x2 - x1)) (Z.abs (y2 - y1))) < fuel)%nat ->
   exists m', drawLine fuel m x1 y1 x2 y2 value = Ok m' /\
              cell m' y1 x1 = value /\ cell m' y2 x2 = value).
Proof.
  split.
  - intros m' H x y.
    destruct (drawLine_values _ _ _ _ _ _ _ _ H) as (ws & He & Hv).
    exact (cell_value_or_old m m' ws value y x He Hv).
  - intros H1 H2 Hfuel.
    destruct (drawLine_segment fuel m x1 y1 x2 y2 value H1 H2 Hfuel)
      as (m' & ws & Hrun & He & Hall & Hfirst & Hlast).
    assert (Hv : Forall (fun s => st_value s = value) ws).
    { eapply Forall_impl; [|exact Hall]. intros s Hs. apply Hs. }
    exists m'. split; [exact Hrun|]. split.
    + apply (cell_lit m m' ws); try assumption.
      exists (mkStore x1 y1 value). now repeat split.
    + apply (cell_lit m m' ws); try assumption.
      exists (mkStore x2 y2 value). now repeat split.
Qed.

Lemma drawLine_paints_witness :
  exists m',
    drawLine 10 (mkMatrix (fun _ _ => 0) []) 3 7 6 2 255 = Ok m' /\
    cell m' 7 3 = 255 /\ cell m' 2 6 = 255.
Proof.
  apply (proj2 (drawLine_paints 10 (mkMatrix (fun _ _ => 0) []) 3 7 6 2 255)).
  - unfold in_matrix, MATRIX_WIDTH, MATRIX_HEIGHT; lia.
  - unfold in_matrix, MATRIX_WIDTH, MATRIX_HEIGHT; lia.
  - simpl. lia.
Defined.

(** X7.  A segment between two points of the matrix stays inside the
    rectangle they span: every cell outside that rectangle keeps its
    content. *)
Theorem drawLine_inside_box fuel m x1 y1 x2 y2 value :
  in_matrix x1 y1 -> in_matrix x2 y2 ->
  (Z.to_nat (Z.max (Z.abs (x2 - x1)) (Z.abs (y2 - y1))) < fuel)%nat ->
  exists m',
    drawLine fuel m x1 y1 x2 y2 value = Ok m' /\
    forall x y,
      ~ (Z.min x1 x2 <= x <= Z.max x1 x2 /\
         Z.min y1 y2 <= y <= Z.max y1 y2) ->
      cell m' y x = cell m y x.
Proof.
  intros H1 H2 Hfuel.
  destruct (drawLine_segment fuel m x1 y1 x2 y2 value H1 H2 Hfuel)
    as (m' & ws & Hrun & He & Hall & _).
  exists m'. split; [exact Hrun|]. intros x y Hout.
  apply (cell_untouched m m' ws); [exact He|].
  rewrite Forall_forall in Hall.
  intros s Hs [Ex Ey]. apply Hout.
  destruct (Hall s Hs) as [_ Hbox]. unfold in_box in Hbox.
  now rewrite Ex, Ey in Hbox.
Qed.

Lemma drawLine_inside_box_witness :
  exists m',
    drawLine 10 (mkMatrix (fun _ _ => 7) []) 3 7 6 2 255 = Ok m' /\
    cell m' 8 4 = 7.
Proof.
  destruct (drawLine_inside_box 10 (mkMatrix (fun _ _ => 7) []) 3 7 6 2 255)
    as (m' & Hrun & Hout).
  - unfold in_matrix, MATRIX_WIDTH, MATRIX_HEIGHT; lia.
  - unfold in_matrix, MATRIX_WIDTH, MATRIX_HEIGHT; lia.
  - simpl. lia.
  - exists m'. split; [exact Hrun|].
    rewrite (Hout 4 8) by lia. reflexivity.
Defined.

(* ------------------------------------------------------------------ *)
(** ** [clearMatrix] *)

Lemma clear_row_length y n : forall x0 m,
  Z.of_nat (length (stores (for_count n x0
                              (fun x m2 => writeCell m2 y x 0) m))) =
  Z.of_nat n + Z.of_nat (length (stores m)).
Proof.
  induction n as [|n IH]; intros x0 m; [reflexivity|].
  cbn [for_count]. rewrite IH. cbn [writeCell stores length]. lia.
Qed.

Lemma clear_rows_length w n : forall y0 m,
  Z.of_nat (length (stores
     (for_count n y0
        (fun y m1 => for_count w 0 (fun x m2 => writeCell m2 y x 0) m1) m))) =
  Z.of_nat n * Z.of_nat w + Z.of_nat (length (stores m)).
Proof.
  induction n as [|n IH]; intros y0 m; [reflexivity|].
  cbn [for_count]. rewrite IH, clear_row_length. lia.
Qed.

Transparent clearMatrix.

Lemma clearMatrix_length m :
  Z.of_nat (length (stores (clearMatrix m))) =
  MATRIX_WIDTH * MATRIX_HEIGHT + Z.of_nat (length (stores m)).
Proof.
  unfold clearMatrix. rewrite clear_rows_length.
  rewrite !Z2Nat.id by (unfold MATRIX_WIDTH, MATRIX_HEIGHT; lia). lia.
Qed.

Opaque clearMatrix.

(** X5.  [clearMatrix] zeroes the whole matrix whatever it held before:
    it makes exactly [W * H] stores, each of the value 0 at a cell of the
    matrix, and afterwards every cell reads 0. *)
Theorem clearMatrix_every_cell m :
  cleared (clearMatrix m) /\
  Z.of_nat (length (stores (clearMatrix m))) =
    MATRIX_WIDTH * MATRIX_HEIGHT + Z.of_nat (length (stores m)) /\
  exists ws,
    extends_by m (clearMatrix m) ws /\
    forall s, In s ws <-> exists x y, in_matrix x y /\ s = mkStore x y 0.
Proof.
  split; [apply clearMatrix_cleared|].
  split; [apply clearMatrix_length|].
  apply clearMatrix_stores.
Qed.

(* ------------------------------------------------------------------ *)
(** ** Time decimator *)




(* ------------------------------------------------------------------ *)
(** ** The picture a call draws *)

Lemma columnY_range p data start x :
  0 <= columnY p data start x < MATRIX_HEIGHT.
Proof.
  unfold columnY. destruct (x =? 0); apply scaleAmplitude_range.
Qed.

(** The loop over the columns, entered at column [x] with the point of
    column [x - 1] as the previous one: it stores 255 only, in the
    columns [x - 1 .. x - 1 + n], and stores at every waveform point of
    these columns when it makes at least one step. *)
Lemma columns_drawn p data len start :
  input_ok data len ->
  is_uint16 (_samplesPerPixel p) -> 1 <= _samplesPerPixel p ->
  0 <= start <= len ->
  forall n x m,
    1 <= x -> x + Z.of_nat n <= pixelsToFill p len start ->
    exists m' ws,
      columns n line_fuel p data len start x
              (columnY p data start (x - 1)) m = Ok m' /\
      extends_by m m' ws /\
      Forall (fun s => st_value s = 255 /\
                       x - 1 <= st_x s <= x - 1 + Z.of_nat n /\
                       0 <= st_y s < MATRIX_HEIGHT) ws /\
      ((1 <= n)%nat ->
       forall x', x - 1 <= x' <= x - 1 + Z.of_nat n ->
                  In (mkStore x' (columnY p data start x') 255) ws).
Proof.
  intros Hin Hu Hspp Hs.
  pose proof Hin as (Hsz & Hlen & Hok).
  assert (Hfill : pixelsToFill p len start <= MATRIX_WIDTH)
    by (rewrite pixelsToFill_min by assumption; lia).
  unfold MATRIX_WIDTH in Hfill.
  induction n as [|n IH]; intros x m Hx Hn.
  { exists m, []. split; [reflexivity|]. split; [apply extends_by_refl|].
    split; [constructor|]. intros H. lia. }
  cbn [columns].
  destruct (sampleIndexOf_in_bounds p len start x Hsz Hs Hu Hspp ltac:(lia))
    as [Esi Hrun].
  rewrite Esi. set (si := start + x * _samplesPerPixel p) in *.
  assert (0 <= si) by (subst si; nia).
  destruct (Z.geb_spec si len); [lia|].
  pose proof Hu as Hu'. unfold is_uint16 in Hu'.
  rewrite (averageRun_spec data len si Hin) by lia.
  cbn [bind fst snd]. rewrite Z.add_0_r, !Z.add_0_l.
  rewrite Z2Nat.id, Z.min_l by lia.
  unfold avgValue.
  destruct (Z.gtb_spec (_samplesPerPixel p) 0); [|lia].
  cbn [bind].
  assert (Ecy : scaleAmplitude p
                  (to_uint8 (sum_run data si (Z.to_nat (_samplesPerPixel p))
                             / _samplesPerPixel p)) =
                columnY p data start x).
  { unfold columnY. destruct (Z.eqb_spec x 0); [lia|reflexivity]. }
  rewrite Ecy.
  pose proof (columnY_range p data start (x - 1)) as Hpy.
  pose proof (columnY_range p data start x) as Hcy.
  unfold MATRIX_HEIGHT in *.
  rewrite (to_uint16_small (x - 1)), (to_uint16_small x)
    by (unfold is_uint16; lia).
  destruct (drawLine_segment line_fuel m (x - 1)
              (columnY p data start (x - 1)) x (columnY p data start x) 255)
    as (m1 & ws1 & -> & He1 & Hall1 & Hfirst & Hlast).
  { unfold in_matrix, MATRIX_WIDTH, MATRIX_HEIGHT; lia. }
  { unfold in_matrix, MATRIX_WIDTH, MATRIX_HEIGHT; lia. }
  { unfold line_fuel, MATRIX_WIDTH, MATRIX_HEIGHT. lia. }
  cbn [bind].
  rewrite to_size_t_small by (unfold is_size_t; lia).
  destruct (IH (x + 1) m1 ltac:(lia) ltac:(lia))
    as (m' & ws2 & Hcol & He2 & Hall2 & Hpts).
  replace (x + 1 - 1) with x in * by lia.
  exists m', (ws2 ++ ws1). split; [exact Hcol|].
  split; [exact (extends_by_trans _ _ _ _ _ He1 He2)|]. split.
  - apply Forall_app. split.
    + eapply Forall_impl; [|exact Hall2]. cbv beta. intros s Hsv. lia.
    + eapply Forall_impl; [|exact Hall1]. cbv beta.
      unfold in_box. intros s Hsv. lia.
  - intros _ x' Hx'. apply in_or_app.
    destruct (Z.eq_dec x' (x - 1)) as [->|Hne1]; [now right|].
    destruct (Z.eq_dec x' x) as [->|Hne2]; [now right|].
    left. apply Hpts; lia.
Qed.

(** A call that passes the parameter check: the picture it leaves. *)
Lemma processData_drawn p data len m :
  input_ok data len -> 0 < len ->
  _initialized p = true ->
  is_uint16 (_samplesPerPixel p) -> 1 <= _samplesPerPixel p ->
  exists start p' m' ws,
    locateTrigger p data len = Ok (start, p') /\
    processData line_fuel p (Some data) len (Some m) =
      Ok (mkOutcome (negb (pixelsToFill p' len start =? 0)) p' (Some m')) /\
    extends_by (clearMatrix m) m' ws /\
    Forall (fun s => st_value s = 255 /\
                     0 <= st_x s < pixelsToFill p' len start /\
                     0 <= st_y s < MATRIX_HEIGHT) ws /\
    (2 <= pixelsToFill p' len start ->
     forall x, 0 <= x < pixelsToFill p' len start ->
               In (mkStore x (columnY p' data start x) 255) ws).
Proof.
  intros Hin Hpos Hinit Hu Hspp. pose proof Hin as (Hsz & Hlen & Hok).
  destruct (locateTrigger_total p data len Hsz Hlen) as (start & p' & E).
  destruct (locateTrigger_start p data len start p' Hsz Hpos Hlen E)
    as (Hstart & Espp & _).
  exists start, p'.
  rewrite processData_checked by (assumption || lia).
  rewrite E. cbn [bind fst snd].
  destruct (Z.eqb_spec (pixelsToFill p' len start) 0) as [Ez|Hnz].
  { exists (clearMatrix m), []. split; [reflexivity|].
    split; [reflexivity|]. split; [apply extends_by_refl|].
    split; [constructor|]. intros H. lia. }
  rewrite read_in_bounds by lia. cbn [bind].
  assert (Hge : 1 <= pixelsToFill p' len start).
  { rewrite pixelsToFill_min in * by (assumption || lia).
    rewrite Espp in *.
    assert (0 <= (len - start) / _samplesPerPixel p)
      by (apply Z.div_pos; lia).
    unfold MATRIX_WIDTH in *. lia. }
  destruct (columns_drawn p' data len start Hin)
    with (n := Z.to_nat (pixelsToFill p' len start - 1)) (x := 1)
         (m := clearMatrix m)
    as (m' & ws & Hcol & He & Hall & Hpts);
    rewrite ?Espp; try assumption; try lia.
  change (1 - 1) with 0 in *.
  assert (E0 : columnY p' data start 0 = scaleAmplitude p' (sample data start))
    by reflexivity.
  rewrite E0 in Hcol. rewrite Hcol. cbn [bind negb].
  exists m', ws. split; [reflexivity|]. split; [reflexivity|].
  split; [exact He|]. split.
  - eapply Forall_impl; [|exact Hall]. cbv beta. intros s Hsv. lia.
  - intros H2 x Hx. apply Hpts; lia.
Qed.

(** X8.  After a call that passed the parameter check every cell of the
    matrix is 0 or 255: the call clears the matrix and draws with the
    full intensity only. *)
Theorem processData_two_valued p data len m :
  input_ok data len -> 0 < len ->
  _initialized p = true ->
  is_uint16 (_samplesPerPixel p) -> 1 <= _samplesPerPixel p ->
  exists o m',
    processData line_fuel p (Some data) len (Some m) = Ok o /\
    matrix_after o = Some m' /\
    forall x y, in_matrix x y -> cell m' y x = 0 \/ cell m' y x = 255.
Proof.
  intros Hin Hpos Hinit Hu Hspp.
  destruct (processData_drawn p data len m Hin Hpos Hinit Hu Hspp)
    as (start & p' & m' & ws & _ & Hrun & He & Hall & _).
  eexists. exists m'. split; [exact Hrun|]. split; [reflexivity|].
  intros x y Hxy.
  assert (Hv : Forall (fun s => st_value s = 255) ws).
  { eapply Forall_impl; [|exact Hall]. intros s Hs. apply Hs. }
  destruct (cell_value_or_old (clearMatrix m) m' ws 255 y x He Hv)
    as [-> | ->];
    [now right|].
  left. apply clearMatrix_cleared. exact Hxy.
Qed.

Lemma processData_two_valued_witness :
  exists o m',
    processData line_fuel (begin Pds_new) (Some [0; 100; 200]) 3
                (Some (mkMatrix (fun _ _ => 9) [])) = Ok o /\
    matrix_after o = Some m' /\
    (cell m' 5 5 = 0 \/ cell m' 5 5 = 255).
Proof.
  destruct (processData_two_valued (begin Pds_new) [0; 100; 200] 3
              (mkMatrix (fun _ _ => 9) []))
    as (o & m' & Hrun & Hm & Hcells).
  - unfold input_ok, is_size_t, buffer_ok, is_uint8. simpl.
    repeat split; try lia. repeat constructor; lia.
  - lia.
  - reflexivity.
  - unfold is_uint16. simpl. lia.
  - simpl. lia.
  - exists o, m'. split; [exact Hrun|]. split; [exact Hm|].
    apply Hcells. unfold in_matrix, MATRIX_WIDTH, MATRIX_HEIGHT. lia.
Defined.

(** X11.  A call with at least two fillable columns succeeds and lights
    the waveform point of every column below [pixelsToFill]: the cell of
    column [x] in the row [columnY x] holds 255, where column 0 shows the
    raw sample at the start index and a later column the average of its
    run. *)
Theorem processData_waveform_points p data len m :
  input_ok data len -> 0 < len ->
  _initialized p = true ->
  is_uint16 (_samplesPerPixel p) -> 1 <= _samplesPerPixel p ->
  exists start p' o m',
    locateTrigger p data len = Ok (start, p') /\
    processData line_fuel p (Some data) len (Some m) = Ok o /\
    matrix_after o = Some m' /\
    (2 <= pixelsToFill p' len start ->
     success o = true /\
     forall x, 0 <= x < pixelsToFill p' len start ->
               cell m' (columnY p' data start x) x = 255).
Proof.
  intros Hin Hpos Hinit Hu Hspp.
  destruct (processData_drawn p data len m Hin Hpos Hinit Hu Hspp)
    as (start & p' & m' & ws & Hloc & Hrun & He & Hall & Hpts).
  exists start, p'. eexists. exists m'.
  split; [exact Hloc|]. split; [exact Hrun|]. split; [reflexivity|].
  intros H2. split.
  - cbn [success]. destruct (Z.eqb_spec (pixelsToFill p' len start) 0);
      [lia|reflexivity].
  - intros x Hx. apply (cell_lit (clearMatrix m) m' ws 255); [exact He| |].
    + eapply Forall_impl; [|exact Hall]. intros s Hs. apply Hs.
    + exists (mkStore x (columnY p' data start x) 255).
      split; [exact (Hpts H2 x Hx)|]. split; reflexivity.
Qed.

Lemma processData_waveform_points_witness :
  exists o m',
    processData line_fuel (begin Pds_new) (Some [0; 255; 255]) 3
                (Some (mkMatrix (fun _ _ => 9) [])) = Ok o /\
    matrix_after o = Some m' /\
    cell m' 599 0 = 255 /\ cell m' 0 1 = 255.
Proof.
  destruct (processData_waveform_points (begin Pds_new) [0; 255; 255] 3
              (mkMatrix (fun _ _ => 9) []))
    as (start & p' & o & m' & Hloc & Hrun & Hm & Hpts).
  - unfold input_ok, is_size_t, buffer_ok, is_uint8. simpl.
    repeat split; try lia. repeat constructor; lia.
  - lia.
  - reflexivity.
  - unfold is_uint16. simpl. lia.
  - simpl. lia.
  - injection Hloc as <- <-.
    destruct (Hpts ltac:(vm_compute; discriminate)) as [_ Hlit].
    exists o, m'. split; [exact Hrun|]. split; [exact Hm|]. split.
    + exact (Hlit 0 ltac:(vm_compute; split; [discriminate|reflexivity])).
    + exact (Hlit 1 ltac:(vm_compute; split; [discriminate|reflexivity])).
Defined.

(** X12.  A call never lights a cell to the right of the columns it
    fills: every cell of a column [x >= pixelsToFill] reads 0 after the
    call. *)
Theorem processData_right_margin p data len m :
  input_ok data len -> 0 < len ->
  _initialized p = true ->
  is_uint16 (_samplesPerPixel p) -> 1 <= _samplesPerPixel p ->
  exists start p' o m',
    locateTrigger p data len = Ok (start, p') /\
    processData line_fuel p (Some data) len (Some m) = Ok o /\
    matrix_after o = Some m' /\
    forall x y, in_matrix x y -> pixelsToFill p' len start <= x ->
                cell m' y x = 0.
Proof.
  intros Hin Hpos Hinit Hu Hspp.
  destruct (processData_drawn p data len m Hin Hpos Hinit Hu Hspp)
    as (start & p' & m' & ws & Hloc & Hrun & He & Hall & _).
  exists start, p'. eexists. exists m'.
  split; [exact Hloc|]. split; [exact Hrun|]. split; [reflexivity|].
  intros x y Hxy Hx.
  rewrite (cell_untouched (clearMatrix m) m' ws y x He).
  - apply clearMatrix_cleared. exact Hxy.
  - rewrite Forall_forall in Hall. intros s Hs [Ex Ey].
    destruct (Hall s Hs) as (_ & Hsx & _). lia.
Qed.

Lemma processData_right_margin_witness :
  exists o m',
    processData line_fuel (begin Pds_new) (Some [0; 255; 255]) 3
                (Some (mkMatrix (fun _ _ => 9) [])) = Ok o /\
    matrix_after o = Some m' /\ cell m' 0 3 = 0.
Proof.
  destruct (processData_right_margin (begin Pds_new) [0; 255; 255] 3
              (mkMatrix (fun _ _ => 9) []))
    as (start & p' & o & m' & Hloc & Hrun & Hm & Hzero).
  - unfold input_ok, is_size_t, buffer_ok, is_uint8. simpl.
    repeat split; try lia. repeat constructor; lia.
  - lia.
  - reflexivity.
  - unfold is_uint16. simpl. lia.
  - simpl. lia.
  - injection Hloc as <- <-.
    exists o, m'. split; [exact Hrun|]. split; [exact Hm|].
    apply Hzero.
    + unfold in_matrix, MATRIX_WIDTH, MATRIX_HEIGHT. lia.
    + vm_compute. discriminate.
Defined.

(* ------------------------------------------------------------------ *)
(** ** Amplitude mapper at the scales the programs use *)

Lemma all_bytes_complete v : is_uint8 v -> In v all_bytes.
Proof.
  unfold is_uint8, all_bytes. intros Hv.
  apply in_map_iff. exists (Z.to_nat v). split; [lia|].
  apply in_seq. lia.
Qed.

Lemma scaleAmplitude_scale_only p q v :
  _amplitudeScale p = _amplitudeScale q ->
  scaleAmplitude p v = scaleAmplitude q v.
Proof. unfold scaleAmplitude. now intros ->. Qed.

(** X13.  At the scale [1.0f] of the constructor (and of [setup]) the
    amplitude mapper sends a byte [v] to the row
    [599 - floor(599 * v / 255)]: the single-precision arithmetic loses
    nothing, 0 maps to the bottom row, 255 to the top row, and a larger
    sample never maps to a lower point.  At the scales [2.0f] and [0.5f]
    of the test program the row is the same with [min(2 v, 255)] and
    [v / 2] in place of [v]. *)
Theorem scaleAmplitude_program_scales p v :
  is_uint8 v ->
  (_amplitudeScale p = Float32.one ->
   scaleAmplitude p v = 599 - 599 * v / 255 /\
   forall w, is_uint8 w -> v <= w -> scaleAmplitude p w <= scaleAmplitude p v) /\
  (_amplitudeScale p = scale_2_0 ->
   scaleAmplitude p v = 599 - 599 * Z.min (2 * v) 255 / 255) /\
  (_amplitudeScale p = scale_0_5 ->
   scaleAmplitude p v = 599 - 599 * v / 510).
Proof.
  intros Hv.
  assert (H1 : forall u, is_uint8 u ->
             scaleAmplitude Pds_new u = 599 - 599 * u / 255).
  { assert (Hall : forallb (fun u => scaleAmplitude Pds_new u
                                     =? 599 - 599 * u / 255) all_bytes = true)
      by (vm_compute; reflexivity).
    rewrite forallb_forall in Hall. intros u Hu.
    apply Z.eqb_eq. apply Hall. now apply all_bytes_complete. }
  split; [|split].
  - intros E.
    assert (Ep : forall u, scaleAmplitude p u = scaleAmplitude Pds_new u)
      by (intros u; apply scaleAmplitude_scale_only; exact E).
    split; [rewrite Ep; now apply H1|].
    intros w Hw Hle. rewrite !Ep, !H1 by assumption.
    assert (599 * v / 255 <= 599 * w / 255)
      by (apply Z.div_le_mono; lia).
    lia.
  - intros E.
    rewrite (scaleAmplitude_scale_only p
               (setAmplitudeScale Pds_new scale_2_0) v) by exact E.
    assert (Hall : forallb
              (fun u => scaleAmplitude (setAmplitudeScale Pds_new scale_2_0) u
                        =? 599 - 599 * Z.min (2 * u) 255 / 255)
              all_bytes = true) by (vm_compute; reflexivity).
    rewrite forallb_forall in Hall.
    apply Z.eqb_eq. apply Hall. now apply all_bytes_complete.
  - intros E.
    rewrite (scaleAmplitude_scale_only p
               (setAmplitudeScale Pds_new scale_0_5) v) by exact E.
    assert (Hall : forallb
              (fun u => scaleAmplitude (setAmplitudeScale Pds_new scale_0_5) u
                        =? 599 - 599 * u / 510)
              all_bytes = true) by (vm_compute; reflexivity).
    rewrite forallb_forall in Hall.
    apply Z.eqb_eq. apply Hall. now apply all_bytes_complete.
Qed.

Lemma scaleAmplitude_program_scales_witness :
  scaleAmplitude (begin Pds_new) 128 = 599 - 599 * 128 / 255 /\
  scaleAmplitude (setAmplitudeScale (begin Pds_new) scale_2_0) 200 =
    599 - 599 * Z.min (2 * 200) 255 / 255.
Proof.
  destruct (scaleAmplitude_program_scales (begin Pds_new) 128)
    as ((H1 & _) & _); [unfold is_uint8; lia|reflexivity|].
  destruct (scaleAmplitude_program_scales
              (setAmplitudeScale (begin Pds_new) scale_2_0) 200)
    as (_ & H2 & _); [unfold is_uint8; lia|].
  split; [exact H1|apply H2; reflexivity].
Defined.

(* ------------------------------------------------------------------ *)
(** ** The columns a call fills *)

(** C6.  In a call that passes the parameter check the number of columns
    to fill is [min(W, floor((length - start) / samplesPerPixel))], which
    is [min(W, length - start)] for one sample per pixel.  The call is
    governed by this number: it returns, it fails exactly when the number
    is 0, and what it stores after clearing the matrix lies in the
    columns below the number, every one of which gets its waveform point
    when there are at least two. *)
Theorem pixelsToFill_columns fuel p data len m :
  input_ok data len -> 0 < len ->
  _initialized p = true ->
  is_uint16 (_samplesPerPixel p) -> 1 <= _samplesPerPixel p ->
  exists start p',
    locateTrigger p data len = Ok (start, p') /\
    0 <= start < len /\
    pixelsToFill p' len start =
      Z.min MATRIX_WIDTH ((len - start) / _samplesPerPixel p) /\
    (_samplesPerPixel p = 1 ->
     pixelsToFill p' len start = Z.min MATRIX_WIDTH (len - start)) /\
    (pixelsToFill p' len start = 0 ->
     exists o, processData fuel p (Some data) len (Some m) = Ok o /\
               success o = false) /\
    exists o m' ws,
      processData line_fuel p (Some data) len (Some m) = Ok o /\
      success o =
        negb (Z.min MATRIX_WIDTH ((len - start) / _samplesPerPixel p) =? 0) /\
      pds_after o = p' /\
      matrix_after o = Some m' /\
      extends_by (clearMatrix m) m' ws /\
      Forall (fun s =>
                0 <= st_x s
                < Z.min MATRIX_WIDTH ((len - start) / _samplesPerPixel p))
             ws /\
      (2 <= Z.min MATRIX_WIDTH ((len - start) / _samplesPerPixel p) ->
       forall x,
         0 <= x < Z.min MATRIX_WIDTH ((len - start) / _samplesPerPixel p) ->
         In (mkStore x (columnY p' data start x) 255) ws /\
         cell m' (columnY p' data start x) x = 255).
Proof.
  intros Hin Hpos Hinit Hu Hspp. pose proof Hin as (Hsz & Hlen & Hok).
  destruct (processData_drawn p data len m Hin Hpos Hinit Hu Hspp)
    as (start & p' & m' & ws & E & Hrun & He & Hall & Hpts).
  destruct (locateTrigger_start p data len start p' Hsz Hpos Hlen E)
    as (Hstart & Espp & _).
  exists start, p'. split; [exact E|]. split; [exact Hstart|].
  assert (Hmin : pixelsToFill p' len start =
                 Z.min MATRIX_WIDTH ((len - start) / _samplesPerPixel p)).
  { rewrite pixelsToFill_min by (assumption || lia). now rewrite Espp. }
  split; [exact Hmin|]. split.
  { intros E1. rewrite Hmin, E1, Z.div_1_r. reflexivity. }
  split.
  { intros Hz. rewrite processData_checked by (assumption || lia).
    rewrite E. cbn [bind fst snd]. rewrite Hz. cbn.
    eexists. split; reflexivity. }
  rewrite Hmin in *.
  eexists. exists m', ws. split; [exact Hrun|].
  cbn [success pds_after matrix_after].
  split; [reflexivity|]. split; [reflexivity|]. split; [reflexivity|].
  split; [exact He|].
  assert (Hv : Forall (fun s => st_value s = 255) ws).
  { eapply Forall_impl; [|exact Hall]. intros s Hs. apply Hs. }
  split.
  { eapply Forall_impl; [|exact Hall]. intros s Hs. apply Hs. }
  intros H2 x Hx. pose proof (Hpts H2 x Hx) as Hpt.
  split; [exact Hpt|].
  apply (cell_lit (clearMatrix m) m' ws 255 _ _ He Hv).
  exists (mkStore x (columnY p' data start x) 255).
  split; [exact Hpt|]. split; reflexivity.
Qed.

Lemma pixelsToFill_columns_witness :
  exists o m',
    processData line_fuel (setTimeScale (begin Pds_new) 2)
                (Some [10; 20; 30; 40; 50]) 5
                (Some (mkMatrix (fun _ _ => 9) [])) = Ok o /\
    success o = true /\
    matrix_after o = Some m' /\
    cell m' (scaleAmplitude (setTimeScale (begin Pds_new) 2) 35) 1 = 255.
Proof.
  destruct (pixelsToFill_columns line_fuel (setTimeScale (begin Pds_new) 2)
              [10; 20; 30; 40; 50] 5 (mkMatrix (fun _ _ => 9) []))
    as (start & p' & Hloc & _ & _ & _ & _ & o & m' & ws & Hrun & Hs & _ & Hm
        & _ & _ & Hpts).
  - unfold input_ok, is_size_t, buffer_ok, is_uint8. simpl.
    repeat split; try lia. repeat constructor; lia.
  - lia.
  - reflexivity.
  - unfold is_uint16. simpl. lia.
  - simpl. lia.
  - injection Hloc as <- <-.
    exists o, m'. split; [exact Hrun|]. split; [exact Hs|].
    split; [exact Hm|].
    apply (Hpts ltac:(cbn; lia) 1 ltac:(cbn; lia)).
Defined.

(* ================================================================== *)
(** * RamReader *)

Lemma land_255 a : Z.land a 255 = a mod 2 ^ 8.
Proof. change 255 with (Z.ones 8). apply Z.land_ones. lia. Qed.

Lemma address_bytes_are_bytes addr : Forall is_uint8 (Ram.address_bytes addr).
Proof.
  unfold Ram.address_bytes, is_uint8.
  repeat constructor; rewrite land_255; apply Z.mod_pos_bound; lia.
Qed.

Lemma lor_shift_byte x b :
  0 <= b < 2 ^ 8 -> Z.lor (Z.shiftl x 8) b = x * 2 ^ 8 + b.
Proof.
  intros Hb. rewrite <- Z.shiftl_mul_pow2 by lia.
  rewrite <- Z.lxor_lor, <- Z.add_nocarry_lxor; try reflexivity.
  all: apply Z.bits_inj'; intros n Hn;
    rewrite Z.land_spec, Z.bits_0;
    destruct (Z_lt_le_dec n 8);
    [ rewrite Z.shiftl_spec_low by lia; reflexivity
    | rewrite (Z.bits_above_log2 b n), andb_false_r; [reflexivity|lia|];
      destruct (Z.eq_dec b 0) as [->|]; [simpl; lia|];
      apply Z.log2_lt_pow2; [lia|];
      apply Z.lt_le_trans with (2 ^ 8); [lia|];
      apply Z.pow_le_mono_r; lia ].
Qed.

Lemma decode_address_bytes addr :
  Ram.decode_address (Ram.address_bytes addr) = addr mod 2 ^ 24.
Proof.
  unfold Ram.decode_address, Ram.address_bytes. cbn [fold_left].
  rewrite !land_255, !Z.shiftr_div_pow2 by lia.
  rewrite !lor_shift_byte by (apply Z.mod_pos_bound; lia).
  change (2 ^ 8) with 256. change (2 ^ 16) with 65536.
  change (2 ^ 24) with 16777216.
  Z.div_mod_to_equations. lia.
Qed.

Section RamReaderProofs.

Context {D : Type} (dev : SpiDevice D).

Lemma transfers_app d l1 l2 :
  Ram.transfers dev d (l1 ++ l2) =
  (fst (Ram.transfers dev (fst (Ram.transfers dev d l1)) l2),
   snd (Ram.transfers dev d l1)
   ++ snd (Ram.transfers dev (fst (Ram.transfers dev d l1)) l2)).
Proof.
  revert d. induction l1 as [|b l1 IH]; intros d; cbn [app Ram.transfers].
  - cbn [fst snd app]. now destruct (Ram.transfers dev d l2).
  - destruct (spi_transfer dev d b) as [d1 r].
    rewrite IH. destruct (Ram.transfers dev d1 l1) as [d2 rs].
    cbn [fst snd app]. reflexivity.
Qed.

Lemma transfers_length d l :
  length (snd (Ram.transfers dev d l)) = length l.
Proof.
  revert d. induction l as [|b l IH]; intros d; cbn [Ram.transfers];
    [reflexivity|].
  destruct (spi_transfer dev d b) as [d1 r].
  specialize (IH d1). destruct (Ram.transfers dev d1 l) as [d2 rs].
  cbn [snd length] in *. now rewrite IH.
Qed.

Lemma sendAddress_transfers r d addr :
  Ram._addrBytes r = 3 ->
  Ram.sendAddress dev r d addr =
  fst (Ram.transfers dev d (Ram.address_bytes addr)).
Proof.
  intros E. unfold Ram.sendAddress. rewrite E.
  change (Z.to_nat 3) with 3%nat.
  unfold Ram.address_bytes. cbn [Ram.sendAddress_loop Ram.transfers].
  change (8 * (3 - 1)) with 16. change (8 * (3 - 1 - 1)) with 8.
  change (8 * (3 - 1 - 1 - 1)) with 0. rewrite Z.shiftr_0_r.
  destruct (spi_transfer dev d _) as [d1 r1].
  destruct (spi_transfer dev d1 _) as [d2 r2].
  destruct (spi_transfer dev d2 _) as [d3 r3].
  reflexivity.
Qed.

(** X14.  [sendAddress] clocks out exactly the three bytes of the address,
    most significant first; each is a byte, and read back big-endian -
    [(acc << 8) | byte], as the memory side does - they give the address
    modulo [2 ^ 24]. *)
Theorem sendAddress_big_endian r d addr :
  Ram._addrBytes r = 3 ->
  Ram.sendAddress dev r d addr =
    fst (Ram.transfers dev d (Ram.address_bytes addr)) /\
  Forall is_uint8 (Ram.address_bytes addr) /\
  Ram.decode_address (Ram.address_bytes addr) = addr mod 2 ^ 24.
Proof.
  intros E. split; [now apply sendAddress_transfers|].
  split; [apply address_bytes_are_bytes|apply decode_address_bytes].
Qed.

End RamReaderProofs.

Lemma sendAddress_big_endian_witness :
  Ram.address_bytes 74565 = [1; 35; 69] /\
  Ram.decode_address (Ram.address_bytes 74565) = 74565.
Proof.
  split; [reflexivity|].
  rewrite (proj2 (proj2 (sendAddress_big_endian
                           (mkSpiDevice unit (fun d _ => (d, 0)) (fun d _ => d))
                           (Ram.RamReader_new 5) tt 74565 eq_refl))).
  reflexivity.
Defined.

Lemma write_bytes_at_end (buf0 done bytes : list Z) off :
  Z.of_nat (length done) = off ->
  off + Z.of_nat (length bytes) <= Z.of_nat (length buf0) ->
  Ram.write_bytes (done ++ skipn (Z.to_nat off) buf0) off bytes =
  Ok ((done ++ bytes)
      ++ skipn (Z.to_nat (off + Z.of_nat (length bytes))) buf0).
Proof.
  intros Hdone Hfit. unfold Ram.write_bytes.
  rewrite length_app, length_skipn.
  destruct (Z.ltb_spec off 0); [lia|].
  destruct (Z.ltb_spec
              (Z.of_nat (length done + (length buf0 - Z.to_nat off)))
              (off + Z.of_nat (length bytes))); [lia|].
  cbn [orb]. f_equal.
  replace (Z.to_nat off) with (length done) by lia.
  rewrite firstn_app, firstn_all, Nat.sub_diag, firstn_O, app_nil_r.
  rewrite <- app_assoc. do 2 f_equal.
  rewrite skipn_app, (skipn_all2 done) by lia.
  rewrite skipn_skipn. cbn [app]. f_equal. lia.
Qed.

Lemma firstn_repeat_le {A : Type} (x : A) n m :
  (n <= m)%nat -> firstn n (repeat x m) = repeat x n.
Proof.
  revert m. induction n as [|n IH]; intros m H; [reflexivity|].
  destruct m as [|m]; [lia|]. cbn [repeat firstn]. f_equal. apply IH. lia.
Qed.

Section RamReaderBursts.

Context {D : Type} (dev : SpiDevice D).

Variable buf0 : list Z.

Lemma burst_bytes_spec n : forall d done off,
  Z.of_nat (length done) = off ->
  off + Z.of_nat n <= Z.of_nat (length buf0) ->
  off + Z.of_nat n < 2 ^ 32 ->
  Ram.burst_bytes dev n d (done ++ skipn (Z.to_nat off) buf0) off =
  Ok (fst (Ram.transfers dev d (repeat 0 n)),
      (done ++ map to_uint8 (snd (Ram.transfers dev d (repeat 0 n))))
      ++ skipn (Z.to_nat (off + Z.of_nat n)) buf0).
Proof.
  induction n as [|n IH]; intros d done off Hdone Hfit Hsz.
  - cbn [Ram.burst_bytes repeat Ram.transfers fst snd map].
    now rewrite app_nil_r, Z.add_0_r.
  - cbn [Ram.burst_bytes repeat Ram.transfers].
    destruct (spi_transfer dev d 0) as [d1 answer].
    rewrite (write_bytes_at_end buf0 done [to_uint8 answer] off Hdone)
      by (cbn [length]; lia).
    cbn [bind length].
    rewrite to_size_t_small by (unfold is_size_t; lia).
    rewrite IH by (rewrite ?length_app; cbn [length]; lia).
    destruct (Ram.transfers dev d1 (repeat 0 n)) as [d2 rs].
    cbn [fst snd map]. rewrite <- !app_assoc. cbn [app].
    replace (off + 1 + Z.of_nat n) with (off + Z.of_nat (S n)) by lia.
    reflexivity.
Qed.

Lemma burst_chunks_spec fuel : forall d done off remaining,
  Z.of_nat (length done) = off ->
  0 <= remaining ->
  off + remaining <= Z.of_nat (length buf0) ->
  off + remaining < 2 ^ 32 ->
  (Z.to_nat remaining <= fuel)%nat ->
  Ram.burst_chunks dev fuel d (done ++ skipn (Z.to_nat off) buf0) off
                   remaining =
  Ok (fst (Ram.transfers dev d (repeat 0 (Z.to_nat remaining))),
      (done ++ map to_uint8
                   (snd (Ram.transfers dev d (repeat 0 (Z.to_nat remaining)))))
      ++ skipn (Z.to_nat (off + remaining)) buf0).
Proof.
  induction fuel as [|fuel IH]; intros d done off remaining Hdone Hrem Hfit
    Hsz Hfuel.
  - assert (remaining = 0) as -> by lia.
    cbn [Ram.burst_chunks Z.eqb Z.to_nat repeat Ram.transfers fst snd map].
    now rewrite app_nil_r, Z.add_0_r.
  - cbn [Ram.burst_chunks].
    destruct (Z.eqb_spec remaining 0) as [->|Hne].
    { cbn [Z.to_nat repeat Ram.transfers fst snd map].
      now rewrite app_nil_r, Z.add_0_r. }
    set (n := if remaining >? 64 then 64 else remaining).
    assert (Hn : 1 <= n <= 64 /\ n <= remaining)
      by (subst n; destruct (Z.gtb_spec remaining 64); lia).
    rewrite firstn_repeat_le by lia.
    replace (repeat 0 (Z.to_nat remaining))
      with (repeat 0 (Z.to_nat n) ++ repeat 0 (Z.to_nat (remaining - n)))
      by (rewrite <- repeat_app; f_equal; lia).
    rewrite transfers_app.
    destruct (Ram.transfers dev d (repeat 0 (Z.to_nat n))) as [d1 answers]
      eqn:E1.
    assert (Hlen : length answers = Z.to_nat n).
    { pose proof (transfers_length dev d (repeat 0 (Z.to_nat n))) as H.
      rewrite E1 in H. cbn [snd] in H. now rewrite repeat_length in H. }
    cbn [fst snd].
    rewrite (write_bytes_at_end buf0 done (map to_uint8 answers) off Hdone)
      by (rewrite length_map; lia).
    cbn [bind]. rewrite length_map, Hlen, Z2Nat.id by lia.
    rewrite to_size_t_small by (unfold is_size_t; lia).
    rewrite IH by (rewrite ?length_app, ?length_map; lia).
    rewrite map_app, <- !app_assoc.
    replace (off + n + (remaining - n)) with (off + remaining) by lia.
    reflexivity.
Qed.

End RamReaderBursts.

Section RamReaderCalls.

Context {D : Type} (dev : SpiDevice D).

Lemma block_length_range r addr len :
  is_size_t (Ram._ramSize r) -> 0 <= addr -> 0 <= len ->
  0 <= Ram.block_length r addr len <= len /\
  (Ram._ramSize r <> 0 -> Ram.block_length r addr len <> 0 ->
   addr + Ram.block_length r addr len <= Ram._ramSize r).
Proof.
  unfold is_size_t, Ram.block_length. intros Hr Ha Hl.
  destruct (negb (Ram._initialized r) || (len =? 0)); [lia|].
  destruct (Z.eqb_spec (Ram._ramSize r) 0); [lia|].
  destruct (Z.geb_spec addr (Ram._ramSize r)); lia.
Qed.

(** The transaction of [readBlock]. *)
Lemma readBlock_transaction a fuel r d addr buf len :
  Ram._addrBytes r = 3 ->
  is_size_t (Ram._ramSize r) -> 0 <= addr ->
  is_size_t len -> len <= Z.of_nat (length buf) ->
  (Z.to_nat len <= fuel)%nat ->
  Ram.readBlock dev a fuel r d addr (Some buf) len =
  if Ram.block_length r addr len =? 0 then Ok (d, Some buf)
  else
    Ok (fst (Ram.frame dev d addr (Z.to_nat (Ram.block_length r addr len))),
        Some (snd (Ram.frame dev d addr
                     (Z.to_nat (Ram.block_length r addr len)))
              ++ skipn (Z.to_nat (Ram.block_length r addr len)) buf)).
Proof.
  intros Eab Hr Ha Hl Hbuf Hfuel.
  pose proof Hl as Hl'. unfold is_size_t in Hl'.
  destruct (block_length_range r addr len Hr Ha ltac:(lia)) as [Hn Hmax].
  unfold Ram.readBlock, Ram.block_length in *. unfold is_size_t in Hr.
  destruct (negb (Ram._initialized r) || (len =? 0)) eqn:Eg;
    [reflexivity|].
  apply orb_false_iff in Eg. destruct Eg as [_ Elen].
  apply Z.eqb_neq in Elen.
  set (n := if negb (Ram._ramSize r =? 0)
            then if len >? to_uint32 (Ram._ramSize r - addr)
                 then to_uint32 (Ram._ramSize r - addr) else len
            else len).
  destruct (Z.eqb_spec (Ram._ramSize r) 0) as [E0|Hne0]; cbn [negb andb].
  - (* no size known *)
    subst n. cbn [negb].
    destruct (Z.eqb_spec len 0); [contradiction|].
    unfold Ram.frame.
    change (Ram.CMD_READ :: Ram.address_bytes addr
            ++ repeat 0 (Z.to_nat len))
      with ([Ram.CMD_READ] ++ Ram.address_bytes addr
            ++ repeat 0 (Z.to_nat len)).
    rewrite !transfers_app.
    cbn [Ram.transfers].
    destruct (spi_transfer dev (spi_select dev d true) Ram.CMD_READ)
      as [d1 r1].
    cbn [fst snd]. rewrite (sendAddress_transfers dev r d1 addr Eab).
    pose proof (transfers_length dev d1 (Ram.address_bytes addr)) as Hal.
    destruct (Ram.transfers dev d1 (Ram.address_bytes addr)) as [d2 ra].
    cbn [fst snd] in *.
    destruct ra as [|a2 [|a1 [|a0 [|]]]]; try discriminate Hal.
    cbn [app skipn].
    destruct a.
    + pose proof (burst_chunks_spec dev buf fuel d2 [] 0 len) as Hb.
      cbn [app length] in Hb. change (Z.to_nat 0) with 0%nat in Hb.
      cbn [skipn] in Hb. rewrite Hb by lia. cbn [bind fst snd].
      now rewrite Z.add_0_l.
    + pose proof (burst_bytes_spec dev buf (Z.to_nat len) d2 [] 0) as Hb.
      cbn [app length] in Hb. change (Z.to_nat 0) with 0%nat in Hb.
      cbn [skipn] in Hb. rewrite Hb by lia. cbn [bind fst snd].
      now rewrite Z.add_0_l, Z2Nat.id by lia.
  - destruct (Z.geb_spec addr (Ram._ramSize r)) as [Hge|Hlt];
      [reflexivity|].
    assert (En : n = Z.min len (Ram._ramSize r - addr)).
    { subst n. cbn [negb].
      rewrite to_uint32_small by lia.
      destruct (Z.gtb_spec len (Ram._ramSize r - addr)); lia. }
    rewrite En.
    destruct (Z.eqb_spec (Z.min len (Ram._ramSize r - addr)) 0); [lia|].
    set (k := Z.min len (Ram._ramSize r - addr)) in *.
    unfold Ram.frame.
    change (Ram.CMD_READ :: Ram.address_bytes addr
            ++ repeat 0 (Z.to_nat k))
      with ([Ram.CMD_READ] ++ Ram.address_bytes addr
            ++ repeat 0 (Z.to_nat k)).
    rewrite !transfers_app.
    cbn [Ram.transfers].
    destruct (spi_transfer dev (spi_select dev d true) Ram.CMD_READ)
      as [d1 r1].
    cbn [fst snd]. rewrite (sendAddress_transfers dev r d1 addr Eab).
    pose proof (transfers_length dev d1 (Ram.address_bytes addr)) as Hal.
    destruct (Ram.transfers dev d1 (Ram.address_bytes addr)) as [d2 ra].
    cbn [fst snd] in *.
    destruct ra as [|a2 [|a1 [|a0 [|]]]]; try discriminate Hal.
    cbn [app skipn].
    destruct a.
    + pose proof (burst_chunks_spec dev buf fuel d2 [] 0 k) as Hb.
      cbn [app length] in Hb. change (Z.to_nat 0) with 0%nat in Hb.
      cbn [skipn] in Hb. rewrite Hb by lia. cbn [bind fst snd].
      now rewrite Z.add_0_l.
    + pose proof (burst_bytes_spec dev buf (Z.to_nat k) d2 [] 0) as Hb.
      cbn [app length] in Hb. change (Z.to_nat 0) with 0%nat in Hb.
      cbn [skipn] in Hb. rewrite Hb by lia. cbn [bind fst snd].
      now rewrite Z.add_0_l, Z2Nat.id by lia.
Qed.

(** X15.  [readBlock] never asks the memory for a byte beyond its known
    size: it reads [min(len, _ramSize - addr)] bytes, and none at all when
    the reader is not initialised, [len] is 0 or [addr] is not below
    [_ramSize].  What it does read is one transaction - select, command
    [0x03], the three address bytes, one zero byte per data byte,
    deselect - whose answers replace the first bytes of the buffer; the
    64-byte chunks of the ESP32 build and the byte loop of the other
    builds produce the same transaction and the same buffer. *)
Theorem readBlock_frame a fuel r d addr buf len :
  Ram._addrBytes r = 3 ->
  is_size_t (Ram._ramSize r) -> 0 <= addr ->
  is_size_t len -> len <= Z.of_nat (length buf) ->
  (Z.to_nat len <= fuel)%nat ->
  0 <= Ram.block_length r addr len <= len /\
  (Ram._ramSize r <> 0 -> Ram.block_length r addr len <> 0 ->
   addr + Ram.block_length r addr len <= Ram._ramSize r) /\
  Ram.readBlock dev a fuel r d addr (Some buf) len =
  if Ram.block_length r addr len =? 0 then Ok (d, Some buf)
  else
    Ok (fst (Ram.frame dev d addr (Z.to_nat (Ram.block_length r addr len))),
        Some (snd (Ram.frame dev d addr
                     (Z.to_nat (Ram.block_length r addr len)))
              ++ skipn (Z.to_nat (Ram.block_length r addr len)) buf)).
Proof.
  intros Eab Hr Ha Hl Hbuf Hfuel.
  pose proof Hl as Hl'. unfold is_size_t in Hl'.
  destruct (block_length_range r addr len Hr Ha ltac:(lia)) as [Hn Hmax].
  split; [exact Hn|]. split; [exact Hmax|].
  now apply readBlock_transaction.
Qed.

(** X16.  [readByte] answers 0 without touching the bus when the reader is
    not initialised or the address is not below the known size; otherwise
    it makes the same transaction as a [readBlock] of one byte and
    returns the byte the memory answered. *)
Theorem readByte_frame r d addr :
  Ram._addrBytes r = 3 ->
  Ram.readByte dev r d addr =
  (if negb (Ram._initialized r)
      || (negb (Ram._ramSize r =? 0) && (addr >=? Ram._ramSize r))
   then (d, 0)
   else (fst (Ram.frame dev d addr 1),
         hd 0 (snd (Ram.frame dev d addr 1)))) /\
  is_uint8 (snd (Ram.readByte dev r d addr)).
Proof.
  intros Eab.
  assert (Hval :
    Ram.readByte dev r d addr =
    (if negb (Ram._initialized r)
        || (negb (Ram._ramSize r =? 0) && (addr >=? Ram._ramSize r))
     then (d, 0)
     else (fst (Ram.frame dev d addr 1),
           hd 0 (snd (Ram.frame dev d addr 1))))).
  { unfold Ram.readByte.
    destruct (negb (Ram._initialized r)); [reflexivity|]. cbn [orb].
    destruct (negb (Ram._ramSize r =? 0) && (addr >=? Ram._ramSize r));
      [reflexivity|].
    unfold Ram.frame.
    change (Ram.CMD_READ :: Ram.address_bytes addr ++ repeat 0 1)
      with ([Ram.CMD_READ] ++ Ram.address_bytes addr ++ [0]).
    rewrite !transfers_app. cbn [Ram.transfers].
    destruct (spi_transfer dev (spi_select dev d true) Ram.CMD_READ)
      as [d1 r1].
    cbn [fst snd]. rewrite (sendAddress_transfers dev r d1 addr Eab).
    pose proof (transfers_length dev d1 (Ram.address_bytes addr)) as Hal.
    destruct (Ram.transfers dev d1 (Ram.address_bytes addr)) as [d2 ra].
    cbn [fst snd] in *.
    destruct ra as [|a2 [|a1 [|a0 [|]]]]; try discriminate Hal.
    destruct (spi_transfer dev d2 0) as [d3 data].
    reflexivity. }
  split; [exact Hval|].
  unfold Ram.readByte.
  destruct (negb (Ram._initialized r)); [cbn; unfold is_uint8; lia|].
  destruct (negb (Ram._ramSize r =? 0) && (addr >=? Ram._ramSize r));
    [cbn; unfold is_uint8; lia|].
  destruct (spi_transfer dev (spi_select dev d true) Ram.CMD_READ)
    as [d1 r1].
  destruct (spi_transfer dev (Ram.sendAddress dev r d1 addr) 0)
    as [d3 data].
  cbn [snd]. unfold is_uint8, to_uint8. apply Z.mod_pos_bound. lia.
Qed.

End RamReaderCalls.

Lemma readBlock_frame_witness :
  Ram.readBlock counting_device Ram.ARDUINO_ARCH_ESP32 8
    (fst (Ram.begin counting_device (Ram.RamReader_new 5) 0)) 0 1020
    (Some [9; 9; 9; 9; 9; 9; 9; 9]) 8 =
  Ok (8, Some [4; 5; 6; 7; 9; 9; 9; 9]).
Proof.
  rewrite (proj2 (proj2 (readBlock_frame counting_device
                           Ram.ARDUINO_ARCH_ESP32 8
                           (fst (Ram.begin counting_device
                                           (Ram.RamReader_new 5) 0))
                           0 1020 [9; 9; 9; 9; 9; 9; 9; 9] 8
                           eq_refl ltac:(unfold is_size_t; simpl; lia)
                           ltac:(lia) ltac:(unfold is_size_t; lia)
                           ltac:(simpl; lia) ltac:(simpl; lia)))).
  reflexivity.
Defined.

Lemma readByte_frame_witness :
  Ram.readByte counting_device
    (fst (Ram.begin counting_device (Ram.RamReader_new 5) 0)) 0 1020 =
  (5, 4) /\
  Ram.readByte counting_device
    (fst (Ram.begin counting_device (Ram.RamReader_new 5) 0)) 0 1024 =
  (0, 0).
Proof.
  split.
  - rewrite (proj1 (readByte_frame counting_device
                      (fst (Ram.begin counting_device
                                      (Ram.RamReader_new 5) 0))
                      0 1020 eq_refl)).
    reflexivity.
  - rewrite (proj1 (readByte_frame counting_device
                      (fst (Ram.begin counting_device
                                      (Ram.RamReader_new 5) 0))
                      0 1024 eq_refl)).
    reflexivity.
Defined.

(* ================================================================== *)
(** * The simulated memory *)

Lemma isr_serving_step s b :
  Sim.serving s ->
  Z.of_nat (length (Sim.simulatedRAM s)) = Sim.RAM_SIZE ->
  Sim.spiSlaveISR s b =
  Ok (Sim.mkSlave (Sim.simulatedRAM s) true
        ((Sim.currentAddress s + 1) mod Sim.RAM_SIZE)
        Sim.ADDR_BYTES Sim.CMD_READ true
        (sample (Sim.simulatedRAM s) (Sim.currentAddress s))).
Proof.
  intros (Hd & Hc & Hcmd & Hab & Ha) Hlen. unfold Sim.spiSlaveISR.
  rewrite Hc, Hcmd, Hab, Hd. cbn [negb]. rewrite Z.eqb_refl.
  rewrite Z.ltb_irrefl. cbn [andb].
  rewrite read_in_bounds by lia. cbn [bind].
  rewrite to_uint32_small; [reflexivity|].
  pose proof (Z.mod_pos_bound (Sim.currentAddress s + 1) Sim.RAM_SIZE
                ltac:(reflexivity)) as H.
  unfold Sim.RAM_SIZE in *. lia.
Qed.

(** X18.  Once the simulator serves data it goes on doing so whatever it
    receives: every further byte - also one that is meant as a new
    command or address - loads the memory byte at the current address
    into the send buffer and moves the address on by one, wrapping at
    [RAM_SIZE]; the routine never leaves this state and never changes the
    memory. *)
Theorem isr_serves_stream bytes : forall s,
  Sim.serving s ->
  Z.of_nat (length (Sim.simulatedRAM s)) = Sim.RAM_SIZE ->
  exists s',
    Sim.receive s bytes = Ok s' /\
    Sim.serving s' /\
    Sim.simulatedRAM s' = Sim.simulatedRAM s /\
    Sim.currentAddress s' =
      (Sim.currentAddress s + Z.of_nat (length bytes)) mod Sim.RAM_SIZE /\
    (bytes <> [] ->
     Sim.wr_buf s' =
       sample (Sim.simulatedRAM s)
              ((Sim.currentAddress s + Z.of_nat (length bytes) - 1)
               mod Sim.RAM_SIZE)).
Proof.
  induction bytes as [|b bytes IH]; intros s Hs Hlen.
  - exists s. split; [reflexivity|]. split; [exact Hs|].
    split; [reflexivity|]. split.
    + destruct Hs as (_ & _ & _ & _ & Ha).
      cbn [length Z.of_nat]. rewrite Z.add_0_r, Z.mod_small; lia.
    + intros H. contradiction.
  - cbn [Sim.receive]. rewrite (isr_serving_step s b Hs Hlen). cbn [bind].
    set (s1 := Sim.mkSlave _ _ _ _ _ _ _).
    pose proof Hs as (_ & _ & _ & _ & Ha).
    assert (Hm : 0 <= (Sim.currentAddress s + 1) mod Sim.RAM_SIZE
                 < Sim.RAM_SIZE)
      by (apply Z.mod_pos_bound; reflexivity).
    assert (Hs1 : Sim.serving s1) by (subst s1; repeat split; apply Hm).
    destruct (IH s1 Hs1 Hlen) as (s' & Hrun & Hs' & Hram & Haddr & Hbuf).
    exists s'. split; [exact Hrun|]. split; [exact Hs'|].
    split; [exact Hram|].
    assert (Eadd : forall k,
              ((Sim.currentAddress s + 1) mod Sim.RAM_SIZE + k)
                mod Sim.RAM_SIZE =
              (Sim.currentAddress s + 1 + k) mod Sim.RAM_SIZE).
    { intros k. rewrite Z.add_mod_idemp_l by (unfold Sim.RAM_SIZE; lia).
      reflexivity. }
    split.
    + rewrite Haddr. subst s1. cbn [Sim.currentAddress].
      rewrite Eadd. f_equal. cbn [length]. lia.
    + intros _. destruct bytes as [|b' bytes'].
      * injection Hrun as <-. subst s1. cbn [Sim.wr_buf length].
        f_equal. change (Z.of_nat 1) with 1.
        rewrite Z.mod_small by lia. lia.
      * rewrite (Hbuf ltac:(discriminate)). subst s1.
        cbn [Sim.simulatedRAM Sim.currentAddress]. f_equal.
        replace ((Sim.currentAddress s + 1) mod Sim.RAM_SIZE
                 + Z.of_nat (length (b' :: bytes')) - 1)
          with ((Sim.currentAddress s + 1) mod Sim.RAM_SIZE
                + (Z.of_nat (length (b' :: bytes')) - 1)) by lia.
        rewrite Eadd. f_equal.
        change (length (b :: b' :: bytes'))
          with (S (length (b' :: bytes'))). lia.
Qed.

Lemma isr_serves_stream_witness :
  exists s',
    Sim.receive
      (Sim.mkSlave (repeat 7 (Z.to_nat 65536)) true 65535 3 3 true 0)
      [3; 0; 0; 5] = Ok s' /\
    Sim.currentAddress s' = 3.
Proof.
  destruct (isr_serves_stream [3; 0; 0; 5]
              (Sim.mkSlave (repeat 7 (Z.to_nat 65536)) true 65535 3 3 true 0))
    as (s' & Hrun & _ & _ & Haddr & _).
  - unfold Sim.serving, Sim.RAM_SIZE. cbn. repeat split; lia.
  - cbn [Sim.simulatedRAM]. rewrite repeat_length. reflexivity.
  - exists s'. split; [exact Hrun|]. rewrite Haddr. reflexivity.
Defined.

(** X17.  The simulator decodes what the reader sends: after the command
    byte [0x03] and the three address bytes of [sendAddress], received
    while it waits for a command, it serves data from the address sent,
    taken modulo [2 ^ 24], or from address 0 when that is not inside the
    memory. *)
Theorem isr_decodes_read_header s addr :
  Sim.commandReceived s = false ->
  Sim.receive s (Ram.CMD_READ :: Ram.address_bytes addr) =
  Ok (Sim.mkSlave (Sim.simulatedRAM s) true
        (if addr mod 2 ^ 24 >=? Sim.RAM_SIZE then 0 else addr mod 2 ^ 24)
        Sim.ADDR_BYTES Sim.CMD_READ true (Sim.wr_buf s)).
Proof.
  intros Hc.
  pose proof (decode_address_bytes addr) as Hdec.
  unfold Ram.decode_address, Ram.address_bytes in *. cbn [fold_left] in Hdec.
  rewrite !land_255 in *.
  set (b2 := Z.shiftr addr 16 mod 2 ^ 8) in *.
  set (b1 := Z.shiftr addr 8 mod 2 ^ 8) in *.
  set (b0 := addr mod 2 ^ 8) in *.
  assert (H2 : 0 <= b2 < 2 ^ 8) by (apply Z.mod_pos_bound; lia).
  assert (H1 : 0 <= b1 < 2 ^ 8) by (apply Z.mod_pos_bound; lia).
  assert (H0 : 0 <= b0 < 2 ^ 8) by (apply Z.mod_pos_bound; lia).
  rewrite !lor_shift_byte in Hdec by assumption.
  cbn [Sim.receive]. unfold Sim.spiSlaveISR at 1. rewrite Hc.
  cbn [negb bind].
  unfold Sim.spiSlaveISR at 1.
  cbn [Sim.commandReceived Sim.command Sim.addressBytesReceived
       Sim.currentAddress Sim.simulatedRAM Sim.dataRequested Sim.wr_buf negb].
  change (Ram.CMD_READ =? Sim.CMD_READ) with true.
  change (0 <? Sim.ADDR_BYTES) with true. cbn [andb].
  change (to_uint8 (0 + 1) =? Sim.ADDR_BYTES) with false. cbn [bind].
  change (to_uint32 (Z.shiftl 0 8)) with 0.
  rewrite Z.lor_0_l.
  unfold Sim.spiSlaveISR at 1.
  cbn [Sim.commandReceived Sim.command Sim.addressBytesReceived
       Sim.currentAddress Sim.simulatedRAM Sim.dataRequested Sim.wr_buf negb].
  change (Ram.CMD_READ =? Sim.CMD_READ) with true.
  change (to_uint8 (0 + 1) <? Sim.ADDR_BYTES) with true. cbn [andb].
  change (to_uint8 (to_uint8 (0 + 1) + 1) =? Sim.ADDR_BYTES) with false.
  cbn [bind].
  assert (E1 : Z.lor (to_uint32 (Z.shiftl b2 8)) b1 = b2 * 2 ^ 8 + b1).
  { replace (to_uint32 (Z.shiftl b2 8)) with (Z.shiftl b2 8)
      by (rewrite Z.shiftl_mul_pow2 by lia; symmetry;
          apply to_uint32_small; lia).
    now apply lor_shift_byte. }
  rewrite E1.
  unfold Sim.spiSlaveISR at 1.
  cbn [Sim.commandReceived Sim.command Sim.addressBytesReceived
       Sim.currentAddress Sim.simulatedRAM Sim.dataRequested Sim.wr_buf negb].
  change (Ram.CMD_READ =? Sim.CMD_READ) with true.
  change (to_uint8 (to_uint8 (0 + 1) + 1) <? Sim.ADDR_BYTES) with true.
  cbn [andb].
  change (to_uint8 (to_uint8 (to_uint8 (0 + 1) + 1) + 1) =? Sim.ADDR_BYTES)
    with true.
  cbn [bind Sim.receive].
  assert (E0 : Z.lor (to_uint32 (Z.shiftl (b2 * 2 ^ 8 + b1) 8)) b0 =
               (b2 * 2 ^ 8 + b1) * 2 ^ 8 + b0).
  { replace (to_uint32 (Z.shiftl (b2 * 2 ^ 8 + b1) 8))
      with (Z.shiftl (b2 * 2 ^ 8 + b1) 8)
      by (rewrite Z.shiftl_mul_pow2 by lia; symmetry;
          apply to_uint32_small; lia).
    now apply lor_shift_byte. }
  rewrite E0. rewrite Z.mul_0_l, Z.add_0_l in Hdec. rewrite Hdec.
  reflexivity.
Qed.

Lemma isr_decodes_read_header_witness :
  Sim.receive (Sim.after_setup [1; 2; 3])
              (Ram.CMD_READ :: Ram.address_bytes 8192) =
  Ok (Sim.mkSlave [1; 2; 3] true 8192 3 3 true 0).
Proof.
  rewrite (isr_decodes_read_header (Sim.after_setup [1; 2; 3]) 8192 eq_refl).
  reflexivity.
Defined.

Ltac sim_fields :=
  cbn [Sim.simulatedRAM Sim.dataRequested Sim.currentAddress
       Sim.addressBytesReceived Sim.command Sim.commandReceived Sim.wr_buf
       Sim.after_setup].

(** What holds in every state of the simulator. *)
Lemma isr_invariant ram s :
  Sim.reachable ram s ->
  Sim.simulatedRAM s = ram /\
  (Sim.dataRequested s = true -> Sim.serving s) /\
  0 <= Sim.addressBytesReceived s <= Sim.ADDR_BYTES /\
  0 <= Sim.currentAddress s.
Proof.
  unfold Sim.ADDR_BYTES.
  induction 1 as [ | s b s' _ IH Hb Hstep | s _ IH ].
  - sim_fields. split; [reflexivity|]. split; [discriminate|]. lia.
  - destruct IH as (Hram & Hserv & Hab & Ha).
    unfold Sim.spiSlaveISR in Hstep. unfold is_uint8 in Hb.
    destruct (Sim.commandReceived s) eqn:Ec; cbn [negb] in Hstep.
    2:{ injection Hstep as <-. sim_fields.
        split; [exact Hram|]. split; [|lia].
        intros Hd. destruct (Hserv Hd) as (_ & Hc & _). congruence. }
    destruct (Z.eqb_spec (Sim.command s) Sim.CMD_READ) as [Ecmd|Ecmd];
      cbn [andb] in Hstep.
    2:{ injection Hstep as <-.
        split; [exact Hram|]. split; [exact Hserv|]. lia. }
    destruct (Z.ltb_spec (Sim.addressBytesReceived s) Sim.ADDR_BYTES)
      as [Hlt|Hge]; unfold Sim.ADDR_BYTES in *.
    + assert (Hnn : 0 <= Z.lor (to_uint32 (Z.shiftl (Sim.currentAddress s) 8))
                              b).
      { apply Z.lor_nonneg. split; [|lia].
        apply Z.mod_pos_bound. lia. }
      set (A := Z.lor (to_uint32 (Z.shiftl (Sim.currentAddress s) 8)) b) in *.
      rewrite (to_uint8_small (Sim.addressBytesReceived s + 1)) in Hstep
        by (unfold is_uint8; lia).
      destruct (Z.eqb_spec (Sim.addressBytesReceived s + 1) 3) as [E3|N3].
      * injection Hstep as <-. sim_fields.
        assert (Hclamp :
          0 <= (if A >=? Sim.RAM_SIZE then 0 else A) < Sim.RAM_SIZE).
        { destruct (Z.geb_spec A Sim.RAM_SIZE);
            unfold Sim.RAM_SIZE in *; lia. }
        split; [exact Hram|]. split; [|split; [lia|apply Hclamp]].
        intros _. unfold Sim.serving. sim_fields.
        split; [reflexivity|]. split; [first [reflexivity | exact Ec]|].
        split; [exact Ecmd|]. split; [exact E3|exact Hclamp].
      * injection Hstep as <-. sim_fields.
        split; [exact Hram|]. split; [|lia].
        intros Hd. destruct (Hserv Hd) as (_ & _ & _ & Hab' & _).
        unfold Sim.ADDR_BYTES in Hab'. lia.
    + destruct (Sim.dataRequested s) eqn:Ed.
      2:{ injection Hstep as <-.
          split; [exact Hram|]. split; [|lia].
          intros Hd. congruence. }
      apply bind_Ok in Hstep. destruct Hstep as (v & _ & Hstep).
      injection Hstep as <-. sim_fields.
      pose proof (Z.mod_pos_bound (Sim.currentAddress s + 1) Sim.RAM_SIZE
                    ltac:(reflexivity)) as Hm.
      rewrite to_uint32_small by (unfold Sim.RAM_SIZE in *; lia).
      destruct (Hserv eq_refl) as (_ & Hc' & Hcmd' & Hab' & _).
      split; [exact Hram|]. split; [|lia].
      intros _. unfold Sim.serving. sim_fields.
      split; [reflexivity|]. split; [first [reflexivity | exact Ec]|].
      split; [exact Hcmd'|]. split; [exact Hab'|exact Hm].
  - destruct IH as (Hram & Hserv & Hab & Ha). unfold Sim.inactivityReset.
    destruct (Sim.dataRequested s) eqn:Ed; cbn [negb andb].
    + split; [exact Hram|]. split; [|lia]. intros _. now apply Hserv.
    + destruct (Sim.commandReceived s); sim_fields.
      * split; [exact Hram|]. split; [|lia]. intros Hd. congruence.
      * split; [exact Hram|]. split; [|lia]. intros Hd. congruence.
Qed.

(** X19.  In no state the simulator can reach - from [setup], through
    bytes received and the resets of [loop] - does the interrupt routine
    read [simulatedRAM] beyond its end: it returns for every byte, the
    memory content never changes, and whenever it serves data its address
    is below [RAM_SIZE]. *)
Theorem isr_never_out_of_bounds ram s b :
  Z.of_nat (length ram) = Sim.RAM_SIZE ->
  Sim.reachable ram s ->
  (exists s', Sim.spiSlaveISR s b = Ok s') /\
  Sim.simulatedRAM s = ram /\
  (Sim.dataRequested s = true -> 0 <= Sim.currentAddress s < Sim.RAM_SIZE).
Proof.
  intros Hlen Hreach.
  destruct (isr_invariant ram s Hreach) as (Hram & Hserv & _).
  split; [|split; [exact Hram|]].
  - unfold Sim.spiSlaveISR.
    destruct (negb (Sim.commandReceived s)); [now eexists|].
    destruct ((Sim.command s =? Sim.CMD_READ)
              && (Sim.addressBytesReceived s <? Sim.ADDR_BYTES)).
    { destruct (_ =? Sim.ADDR_BYTES); now eexists. }
    destruct (Sim.command s =? Sim.CMD_READ); [|now eexists].
    destruct (Sim.dataRequested s) eqn:Ed; [|now eexists]. cbn [andb].
    destruct (Hserv eq_refl) as (_ & _ & _ & _ & Ha).
    rewrite read_in_bounds by (rewrite Hram; lia).
    now eexists.
  - intros Hd. apply (Hserv Hd).
Qed.

Lemma isr_never_out_of_bounds_witness :
  Sim.reachable (repeat 7 (Z.to_nat 65536))
    (Sim.mkSlave (repeat 7 (Z.to_nat 65536)) true 65535 3 3 true 0) /\
  (exists s',
     Sim.spiSlaveISR
       (Sim.mkSlave (repeat 7 (Z.to_nat 65536)) true 65535 3 3 true 0) 0
     = Ok s') /\
  0 <= 65535 < Sim.RAM_SIZE.
Proof.
  assert (Hreach : forall ram,
            Sim.reachable ram (Sim.mkSlave ram true 65535 3 3 true 0)).
  { intros ram.
    apply (Sim.reach_byte ram (Sim.mkSlave ram false 255 2 3 true 0) 255);
      [|unfold is_uint8; lia|reflexivity].
    apply (Sim.reach_byte ram (Sim.mkSlave ram false 0 1 3 true 0) 255);
      [|unfold is_uint8; lia|reflexivity].
    apply (Sim.reach_byte ram (Sim.mkSlave ram false 0 0 3 true 0) 0);
      [|unfold is_uint8; lia|reflexivity].
    apply (Sim.reach_byte ram (Sim.after_setup ram) 3);
      [|unfold is_uint8; lia|reflexivity].
    apply Sim.reach_setup. }
  split; [apply Hreach|].
  destruct (isr_never_out_of_bounds (repeat 7 (Z.to_nat 65536))
              (Sim.mkSlave (repeat 7 (Z.to_nat 65536)) true 65535 3 3 true 0)
              0)
    as (Hret & _ & Hserv).
  - rewrite repeat_length. reflexivity.
  - apply Hreach.
  - split; [exact Hret|]. exact (Hserv eq_refl).
Defined.

(* ------------------------------------------------------------------ *)
(** * The oscilloscope program *)

(** ** Rounding never yields NaN *)

Lemma shr_1_nonneg mrs : 0 <= shr_m mrs -> 0 <= shr_m (shr_1 mrs).
Proof.
  destruct mrs as [m r s]. cbn [shr_m].
  destruct m as [|p|p]; [intros _; cbn; lia | | lia].
  intros _. destruct p; cbn; lia.
Qed.

Lemma iter_pos_shr_1_nonneg p : forall mrs,
  0 <= shr_m mrs -> 0 <= shr_m (iter_pos shr_1 p mrs).
Proof.
  induction p as [p IH|p IH|]; intros mrs H; cbn [iter_pos].
  - apply IH, IH. now apply shr_1_nonneg.
  - now apply IH, IH.
  - now apply shr_1_nonneg.
Qed.

Lemma shr_nonneg mrs e n : 0 <= shr_m mrs -> 0 <= shr_m (fst (shr mrs e n)).
Proof.
  intros H. unfold shr. destruct n; cbn [fst]; try exact H.
  now apply iter_pos_shr_1_nonneg.
Qed.

Lemma shr_fexp_nonneg prec emax m e l :
  0 <= m -> 0 <= shr_m (fst (shr_fexp prec emax m e l)).
Proof.
  intros H. unfold shr_fexp. apply shr_nonneg.
  unfold shr_record_of_loc. destruct l as [|[]]; exact H.
Qed.

Lemma binary_round_aux_nonneg prec emax sx mx ex lx :
  0 <= mx ->
  binary_round_aux prec emax sx mx ex lx = S754_zero sx \/
  binary_round_aux prec emax sx mx ex lx = S754_infinity sx \/
  exists m e, binary_round_aux prec emax sx mx ex lx = S754_finite sx m e.
Proof.
  intros H. unfold binary_round_aux.
  pose proof (shr_fexp_nonneg prec emax mx ex lx H) as H1.
  destruct (shr_fexp prec emax mx ex lx) as [mrs' e']. cbn [fst] in H1.
  assert (H2 : 0 <= round_nearest_even (shr_m mrs') (loc_of_shr_record mrs')).
  { unfold round_nearest_even.
    destruct (loc_of_shr_record mrs') as [|[]]; try lia.
    destruct (Z.even (shr_m mrs')); lia. }
  pose proof (shr_fexp_nonneg prec emax _ e' loc_Exact H2) as H3.
  destruct (shr_fexp prec emax _ e' loc_Exact) as [mrs'' e'']. cbn [fst] in H3.
  destruct (shr_m mrs'') as [|m|m]; [now left| |lia].
  destruct (e'' <=? emax - prec); [right; right; now exists m, e''|].
  right; left. reflexivity.
Qed.

(** The product of two finite numbers is a zero, an infinity or a finite
    number. *)
Lemma mul_finite s1 m1 e1 s2 m2 e2 :
  let r := Float32.mul (S754_finite s1 m1 e1) (S754_finite s2 m2 e2) in
  (exists s, r = S754_zero s) \/ (exists s, r = S754_infinity s) \/
  exists s m e, r = S754_finite s m e.
Proof.
  cbv zeta. unfold Float32.mul. cbn [SFmul].
  destruct (binary_round_aux_nonneg Float32.prec Float32.emax (xorb s1 s2)
              (Z.pos (m1 * m2)) (e1 + e2) loc_Exact ltac:(lia))
    as [-> | [-> | (m & e & ->)]].
  - left. now eexists.
  - right; left. now eexists.
  - right; right. now do 3 eexists.
Qed.

(** The product of two finite numbers, zeros included, is not NaN. *)
Lemma mul_not_nan a b :
  Mcu.finite a -> Mcu.finite b -> Float32.mul a b <> S754_nan.
Proof.
  destruct a as [sa|sa| |sa ma ea]; try contradiction;
    destruct b as [sb|sb| |sb mb eb]; try contradiction; intros _ _;
    try discriminate.
  destruct (mul_finite sa ma ea sb mb eb)
    as [(sg & ->) | [(sg & ->) | (sg & m & e & ->)]]; discriminate.
Qed.

Lemma clamp_in_range r :
  r <> S754_nan ->
  Mcu.scale_in_range
    (let scale := if Float32.ltb r Mcu.f0_1 then Mcu.f0_1 else r in
     if Float32.ltb Mcu.f10_0 scale then Mcu.f10_0 else scale).
Proof.
  intros Hn.
  assert (Hlo : Mcu.scale_in_range Mcu.f0_1).
  { split; [|split; reflexivity]. unfold Mcu.f0_1. now do 2 eexists. }
  assert (Hhi : Mcu.scale_in_range Mcu.f10_0).
  { split; [|split; reflexivity]. unfold Mcu.f10_0. now do 2 eexists. }
  destruct r as [s|s| |s m e]; [..|contradiction|].
  - exact Hlo.
  - destruct s; [exact Hlo|exact Hhi].
  - destruct s; [exact Hlo|]. cbv zeta.
    destruct (Float32.ltb (S754_finite false m e) Mcu.f0_1) eqn:E1;
      [exact Hlo|].
    destruct (Float32.ltb Mcu.f10_0 (S754_finite false m e)) eqn:E2;
      [exact Hhi|].
    split; [now do 2 eexists|]. split; assumption.
Qed.

Lemma scale_in_range_positive f :
  Mcu.scale_in_range f -> Float32.ltb Float32.zero f = true.
Proof. intros ((m & e & ->) & _). reflexivity. Qed.

(** ** The commands of the program *)

Ltac mcu_fields :=
  cbn [Mcu.ram Mcu.bus Mcu.pds Mcu.sampleBuffer Mcu.displayMatrix
       Mcu.currentRAMAddress Mcu.continuousMode Mcu.currentMode
       Mcu.addressIndex Mcu.currentScale].

Section McuCommands.

Context {D : Type}.

Implicit Type s : Mcu.State D.

(** X20.  The [t] command walks the trigger modes in the order RISING,
    FALLING, LEVEL, OFF and is back at the mode it started from after
    exactly four presses; after every press the processor holds the mode
    the program remembers, at level 128, and its scales are untouched. *)
Theorem cycleTriggerMode_period s :
  let s1 := Mcu.cycleTriggerMode s in
  let s2 := Mcu.cycleTriggerMode s1 in
  let s3 := Mcu.cycleTriggerMode s2 in
  let s4 := Mcu.cycleTriggerMode s3 in
  _triggerMode (Mcu.pds s1) = Mcu.currentMode s1 /\
  _triggerLevel (Mcu.pds s1) = 128 /\
  _amplitudeScale (Mcu.pds s1) = _amplitudeScale (Mcu.pds s) /\
  _samplesPerPixel (Mcu.pds s1) = _samplesPerPixel (Mcu.pds s) /\
  Mcu.currentMode s1 <> Mcu.currentMode s /\
  Mcu.currentMode s2 <> Mcu.currentMode s /\
  Mcu.currentMode s3 <> Mcu.currentMode s /\
  Mcu.currentMode s4 = Mcu.currentMode s /\
  (Mcu.currentMode s = TRIGGER_RISING ->
   Mcu.currentMode s1 = TRIGGER_FALLING /\
   Mcu.currentMode s2 = TRIGGER_LEVEL /\
   Mcu.currentMode s3 = TRIGGER_OFF).
Proof.
  cbv zeta. unfold Mcu.cycleTriggerMode. mcu_fields.
  cbn [setTrigger _triggerMode _triggerLevel _amplitudeScale
       _samplesPerPixel].
  destruct (Mcu.currentMode s); cbn [Mcu.next_mode];
    repeat split; try reflexivity; try discriminate.
Qed.

Lemma changeRAMAddress_index s :
  0 <= Mcu.addressIndex s < 7 ->
  Mcu.addressIndex (Mcu.changeRAMAddress s) = (Mcu.addressIndex s + 1) mod 7.
Proof.
  intros H. unfold Mcu.changeRAMAddress. mcu_fields.
  rewrite to_size_t_small by (unfold is_size_t; lia). reflexivity.
Qed.

Lemma changeRAMAddress_table s :
  0 <= Mcu.addressIndex (Mcu.changeRAMAddress s) < 7 /\
  Mcu.currentRAMAddress (Mcu.changeRAMAddress s) =
  8192 * Mcu.addressIndex (Mcu.changeRAMAddress s).
Proof.
  unfold Mcu.changeRAMAddress. mcu_fields.
  change (Z.of_nat (length Mcu.addresses)) with 7.
  set (i := to_size_t (Mcu.addressIndex s + 1) mod 7).
  assert (Hi : 0 <= i < 7) by (subst i; apply Z.mod_pos_bound; lia).
  split; [exact Hi|].
  assert (i = 0 \/ i = 1 \/ i = 2 \/ i = 3 \/ i = 4 \/ i = 5 \/ i = 6)
    as [-> | [-> | [-> | [-> | [-> | [-> | ->]]]]]] by lia;
    reflexivity.
Qed.

(** X21.  The [a] command keeps the index inside the table of seven
    addresses whatever it was before, the address it selects is
    [0x2000 * addressIndex], and seven presses lead back to the section
    that was selected. *)
Theorem changeRAMAddress_cycle s :
  let next := Mcu.changeRAMAddress in
  0 <= Mcu.addressIndex (next s) < 7 /\
  Mcu.currentRAMAddress (next s) = 8192 * Mcu.addressIndex (next s) /\
  (0 <= Mcu.addressIndex s < 7 ->
   Mcu.addressIndex (next s) = (Mcu.addressIndex s + 1) mod 7 /\
   Mcu.addressIndex (next (next (next (next (next (next (next s))))))) =
   Mcu.addressIndex s /\
   Mcu.currentRAMAddress (next (next (next (next (next (next (next s))))))) =
   8192 * Mcu.addressIndex s).
Proof.
  cbv zeta. destruct (changeRAMAddress_table s) as [Hi Ha].
  split; [exact Hi|]. split; [exact Ha|]. intros H.
  split; [now apply changeRAMAddress_index|].
  assert (E : Mcu.addressIndex
                (Mcu.changeRAMAddress (Mcu.changeRAMAddress
                  (Mcu.changeRAMAddress (Mcu.changeRAMAddress
                    (Mcu.changeRAMAddress (Mcu.changeRAMAddress
                      (Mcu.changeRAMAddress s)))))))
              = Mcu.addressIndex s).
  { rewrite !changeRAMAddress_index;
      repeat first [ exact H | apply changeRAMAddress_table
                   | rewrite changeRAMAddress_index ].
    assert (Mcu.addressIndex s = 0 \/ Mcu.addressIndex s = 1 \/
            Mcu.addressIndex s = 2 \/ Mcu.addressIndex s = 3 \/
            Mcu.addressIndex s = 4 \/ Mcu.addressIndex s = 5 \/
            Mcu.addressIndex s = 6)
      as [-> | [-> | [-> | [-> | [-> | [-> | ->]]]]]] by lia;
      reflexivity. }
  split; [exact E|]. rewrite <- E. apply changeRAMAddress_table.
Qed.

Lemma adjustAmplitudeScale_range s factor :
  Mcu.finite (Mcu.currentScale s) -> Mcu.finite factor ->
  Mcu.scale_in_range (Mcu.currentScale (Mcu.adjustAmplitudeScale s factor)) /\
  _amplitudeScale (Mcu.pds (Mcu.adjustAmplitudeScale s factor)) =
  Mcu.currentScale (Mcu.adjustAmplitudeScale s factor).
Proof.
  intros Hs Hf.
  unfold Mcu.adjustAmplitudeScale. mcu_fields.
  pose proof (clamp_in_range _ (mul_not_nan _ _ Hs Hf)) as Hr.
  cbv zeta in Hr.
  split; [exact Hr|].
  unfold setAmplitudeScale.
  rewrite (scale_in_range_positive _ Hr). reflexivity.
Qed.

(** X22.  Whatever finite factor [adjustAmplitudeScale] is given and
    whatever finite scale the program remembers - zeros of either sign
    included - the scale it keeps is a positive finite number that is
    neither below [0.1f] nor above [10.0f], and the processor accepts it:
    the scale of the processor and the scale the program remembers agree
    afterwards; the trigger and the time scale are untouched. *)
Theorem adjustAmplitudeScale_clamped s factor :
  Mcu.finite (Mcu.currentScale s) -> Mcu.finite factor ->
  let s1 := Mcu.adjustAmplitudeScale s factor in
  Mcu.scale_in_range (Mcu.currentScale s1) /\
  _amplitudeScale (Mcu.pds s1) = Mcu.currentScale s1 /\
  Float32.ltb Float32.zero (_amplitudeScale (Mcu.pds s1)) = true /\
  _triggerMode (Mcu.pds s1) = _triggerMode (Mcu.pds s) /\
  _triggerLevel (Mcu.pds s1) = _triggerLevel (Mcu.pds s) /\
  _samplesPerPixel (Mcu.pds s1) = _samplesPerPixel (Mcu.pds s).
Proof.
  intros Hs Hf. cbv zeta.
  destruct (adjustAmplitudeScale_range s factor Hs Hf) as [Hr Ep].
  split; [exact Hr|]. split; [exact Ep|].
  split; [rewrite Ep; now apply scale_in_range_positive|].
  unfold Mcu.adjustAmplitudeScale. mcu_fields. unfold setAmplitudeScale.
  destruct (Float32.ltb Float32.zero _); repeat split; reflexivity.
Qed.

End McuCommands.

Lemma cycleTriggerMode_period_witness :
  Mcu.currentMode
    (Mcu.cycleTriggerMode
       (Mcu.cycleTriggerMode (Mcu.cycleTriggerMode (Mcu.power_on 0)))) =
  TRIGGER_OFF.
Proof.
  apply (cycleTriggerMode_period (Mcu.power_on 0)). reflexivity.
Defined.

Lemma changeRAMAddress_cycle_witness :
  Mcu.addressIndex
    (Mcu.changeRAMAddress (Mcu.changeRAMAddress (Mcu.power_on 0))) = 2 /\
  Mcu.currentRAMAddress
    (Mcu.changeRAMAddress (Mcu.changeRAMAddress (Mcu.power_on 0))) = 16384.
Proof.
  destruct (changeRAMAddress_cycle (Mcu.changeRAMAddress (Mcu.power_on 0)))
    as (_ & Ha & Hn).
  destruct (Hn ltac:(cbn; lia)) as (Ei & _).
  cbv zeta in Ha. rewrite Ha, Ei. split; reflexivity.
Defined.

Lemma adjustAmplitudeScale_clamped_witness :
  Mcu.scale_in_range
    (Mcu.currentScale
       (Mcu.adjustAmplitudeScale
          (Mcu.adjustAmplitudeScale (Mcu.power_on 0) Mcu.f1_25)
          (S754_zero true))).
Proof.
  apply (adjustAmplitudeScale_clamped
           (Mcu.adjustAmplitudeScale (Mcu.power_on 0) Mcu.f1_25)
           (S754_zero true)).
  - exact I.
  - exact I.
Defined.

(** ** A capture *)

Section McuCapture.

Context {D : Type} (dev : SpiDevice D).

Implicit Type s : Mcu.State D.

(** What the memory answers in one transaction are [n] bytes. *)
Lemma frame_answers d addr n :
  length (snd (Ram.frame dev d addr n)) = n /\
  buffer_ok (snd (Ram.frame dev d addr n)).
Proof.
  unfold Ram.frame.
  pose proof (transfers_length dev (spi_select dev d true)
                (Ram.CMD_READ :: Ram.address_bytes addr ++ repeat 0 n))
    as Hl.
  destruct (Ram.transfers dev (spi_select dev d true)
              (Ram.CMD_READ :: Ram.address_bytes addr ++ repeat 0 n))
    as [d1 answers].
  cbn [snd] in *. split.
  - rewrite length_map, length_skipn, Hl. cbn [length].
    rewrite length_app, repeat_length. unfold Ram.address_bytes.
    cbn [length]. lia.
  - unfold buffer_ok. apply Forall_map, Forall_forall. intros z _.
    unfold is_uint8, to_uint8. apply Z.mod_pos_bound. lia.
Qed.

(** The read of a capture: a full buffer from the start of the memory,
    and nothing at all from any other section of the address table. *)
Lemma capture_read a s :
  Mcu.consistent s ->
  exists d' buf',
    Ram.readBlock dev a line_fuel (Mcu.ram s) (Mcu.bus s)
                  (Mcu.currentRAMAddress s) (Some (Mcu.sampleBuffer s))
                  Mcu.SAMPLE_BUFFER_SIZE = Ok (d', Some buf') /\
    Z.of_nat (length buf') = Mcu.SAMPLE_BUFFER_SIZE /\ buffer_ok buf' /\
    (Mcu.addressIndex s = 0 ->
     d' = fst (Ram.frame dev (Mcu.bus s) 0 1024) /\
     buf' = snd (Ram.frame dev (Mcu.bus s) 0 1024)) /\
    (Mcu.addressIndex s <> 0 -> d' = Mcu.bus s /\ buf' = Mcu.sampleBuffer s).
Proof.
  intros (Hri & Hrs & Hab & Hlen & Hok & _ & _ & _ & _ & _ & _ & Hidx & Haddr).
  unfold Mcu.SAMPLE_BUFFER_SIZE in *.
  rewrite (readBlock_transaction dev a line_fuel (Mcu.ram s) (Mcu.bus s)
             (Mcu.currentRAMAddress s) (Mcu.sampleBuffer s) 1024);
    [| exact Hab | rewrite Hrs; unfold is_size_t; lia | lia
     | unfold is_size_t; lia | lia
     | unfold line_fuel, MATRIX_WIDTH, MATRIX_HEIGHT; lia].
  unfold Ram.block_length. rewrite Hri, Hrs. cbn [negb orb].
  change (1024 =? 0) with false. cbv iota.
  destruct (Z.geb_spec (Mcu.currentRAMAddress s) 1024) as [Hge|Hlt].
  - change (0 =? 0) with true. cbv iota.
    exists (Mcu.bus s), (Mcu.sampleBuffer s).
    split; [reflexivity|]. split; [exact Hlen|]. split; [exact Hok|].
    split; [intros E; lia|]. intros _. split; reflexivity.
  - assert (Ei : Mcu.addressIndex s = 0) by lia.
    assert (Ea : Mcu.currentRAMAddress s = 0) by lia.
    rewrite Ea. change (Z.min 1024 (1024 - 0)) with 1024.
    change (1024 =? 0) with false. cbv iota.
    destruct (frame_answers (Mcu.bus s) 0 (Z.to_nat 1024)) as [Hfl Hfo].
    assert (Hskip : skipn (Z.to_nat 1024) (Mcu.sampleBuffer s) = []).
    { apply skipn_all2. lia. }
    rewrite Hskip, app_nil_r.
    exists (fst (Ram.frame dev (Mcu.bus s) 0 (Z.to_nat 1024))),
           (snd (Ram.frame dev (Mcu.bus s) 0 (Z.to_nat 1024))).
    split; [reflexivity|]. split; [rewrite Hfl; lia|]. split; [exact Hfo|].
    split; [intros _; split; reflexivity|]. intros Hne. contradiction.
Qed.

(** A capture in a consistent state: it returns, what it draws is what
    [processData] draws from the buffer the read left, and the state
    stays consistent. *)
Lemma capture_spec a s :
  Mcu.consistent s ->
  exists d' buf' start p' m' ws,
    Ram.readBlock dev a line_fuel (Mcu.ram s) (Mcu.bus s)
                  (Mcu.currentRAMAddress s) (Some (Mcu.sampleBuffer s))
                  Mcu.SAMPLE_BUFFER_SIZE = Ok (d', Some buf') /\
    (Mcu.addressIndex s = 0 ->
     d' = fst (Ram.frame dev (Mcu.bus s) 0 1024) /\
     buf' = snd (Ram.frame dev (Mcu.bus s) 0 1024)) /\
    (Mcu.addressIndex s <> 0 -> d' = Mcu.bus s /\ buf' = Mcu.sampleBuffer s) /\
    locateTrigger (Mcu.pds s) buf' 1024 = Ok (start, p') /\
    Mcu.performDataCapture dev a line_fuel s =
      Ok (Mcu.mkState (Mcu.ram s) d' p' buf' m' (Mcu.currentRAMAddress s)
                      (Mcu.continuousMode s) (Mcu.currentMode s)
                      (Mcu.addressIndex s) (Mcu.currentScale s)) /\
    extends_by (clearMatrix (Mcu.displayMatrix s)) m' ws /\
    Forall (fun c => st_value c = 255 /\
                     0 <= st_x c < pixelsToFill p' 1024 start /\
                     0 <= st_y c < MATRIX_HEIGHT) ws /\
    Mcu.consistent
      (Mcu.mkState (Mcu.ram s) d' p' buf' m' (Mcu.currentRAMAddress s)
                   (Mcu.continuousMode s) (Mcu.currentMode s)
                   (Mcu.addressIndex s) (Mcu.currentScale s)).
Proof.
  intros Hc.
  destruct (capture_read a s Hc) as (d' & buf' & Hread & Hlen & Hok & H0 & Hn).
  destruct Hc as (Hri & Hrs & Hab & _ & _ & Hpi & Hspp & Hmode & Hlev & Hsc
                  & Hrange & Hidx & Haddr).
  unfold Mcu.SAMPLE_BUFFER_SIZE in *.
  assert (Hin : input_ok buf' 1024).
  { split; [unfold is_size_t; lia|]. split; [lia|exact Hok]. }
  destruct (processData_drawn (Mcu.pds s) buf' 1024 (Mcu.displayMatrix s)
              Hin ltac:(lia) Hpi
              ltac:(rewrite Hspp; unfold is_uint16; lia)
              ltac:(rewrite Hspp; lia))
    as (start & p' & m' & ws & Hloc & Hrun & He & Hall & _).
  destruct (locateTrigger_start (Mcu.pds s) buf' 1024 start p'
              ltac:(unfold is_size_t; lia) ltac:(lia) ltac:(lia) Hloc)
    as (_ & Espp & Eamp & Emode & Elev & Einit).
  exists d', buf', start, p', m', ws.
  split; [exact Hread|]. split; [exact H0|]. split; [exact Hn|].
  split; [exact Hloc|]. split.
  - unfold Mcu.performDataCapture, Ram.isReady.
    rewrite Hri. cbn [negb]. unfold Mcu.SAMPLE_BUFFER_SIZE.
    rewrite Hread. cbn [bind fst snd]. unfold buffer in Hrun. rewrite Hrun. cbn [bind].
    reflexivity.
  - split; [exact He|]. split; [exact Hall|].
    unfold Mcu.consistent, Mcu.SAMPLE_BUFFER_SIZE. mcu_fields.
    split; [exact Hri|]. split; [exact Hrs|]. split; [exact Hab|].
    split; [exact Hlen|]. split; [exact Hok|].
    split; [now rewrite Einit|]. split; [now rewrite Espp|].
    split; [now rewrite Emode|]. split; [now rewrite Elev|].
    split; [now rewrite Eamp|]. split; [exact Hrange|].
    split; [exact Hidx|exact Haddr].
Qed.

End McuCapture.

(** ** The statistics of the matrix *)

Lemma for_count_invariant {St : Type} (P : Z -> St -> Prop)
    (body : Z -> St -> St) (n : nat) : forall v s,
  P v s ->
  (forall i t, v <= i < v + Z.of_nat n -> P i t -> P (i + 1) (body i t)) ->
  P (v + Z.of_nat n) (for_count n v body s).
Proof.
  induction n as [|n IH]; intros v s H0 Hstep.
  - cbn [for_count]. now replace (v + Z.of_nat 0) with v by lia.
  - cbn [for_count].
    replace (v + Z.of_nat (S n)) with ((v + 1) + Z.of_nat n) by lia.
    apply IH.
    + apply Hstep; [lia|exact H0].
    + intros i t Hi Ht. apply Hstep; [lia|exact Ht].
Qed.

Section Stats.

Variable m : Matrix.

Hypothesis two_valued :
  forall x y, in_matrix x y -> cell m y x = 0 \/ cell m y x = 255.

(** One cell of the scan. *)
Lemma stats_cell y x acc :
  in_matrix x y -> Mcu.stats_at m y x acc ->
  Mcu.stats_at m y (x + 1)
    (let '(pixelsDrawn, maxValue, minValue) := acc in
     let pixelValue := cell m y x in
     if pixelValue >? 0 then
       (to_uint32 (pixelsDrawn + 1),
        if pixelValue >? maxValue then pixelValue else maxValue,
        if pixelValue <? minValue then pixelValue else minValue)
     else acc).
Proof.
  intros Hxy. destruct acc as [[c mx] mn]. unfold Mcu.stats_at.
  intros (Hmn & Hc & Hcases). cbv zeta.
  pose proof Hxy as Hxy'. unfold in_matrix, MATRIX_WIDTH, MATRIX_HEIGHT in Hxy'.
  unfold MATRIX_WIDTH in *.
  destruct (two_valued x y Hxy) as [E|E]; rewrite E.
  - change (0 >? 0) with false. cbv iota.
    split; [exact Hmn|]. split; [lia|].
    destruct Hcases as [(Ec & Emx & Hz) | (Hpos & Emx & y' & x' & Hs & Hv)].
    + left. split; [exact Ec|]. split; [exact Emx|].
      intros y' x' (Hin & Hs).
      destruct (Z.eq_dec y' y) as [->|Hy];
        [destruct (Z.eq_dec x' x) as [->|Hx]; [exact E|]|];
        apply Hz; (split; [exact Hin|lia]).
    + right. split; [exact Hpos|]. split; [exact Emx|].
      exists y', x'. split; [|exact Hv].
      destruct Hs as (Hin & Hs). split; [exact Hin|lia].
  - change (255 >? 0) with true. cbv iota. subst mn.
    change (255 <? 255) with false. cbv iota.
    rewrite to_uint32_small by nia.
    split; [reflexivity|]. split; [lia|].
    right. split; [lia|]. split.
    + destruct Hcases as [(_ & -> & _) | (_ & -> & _)]; reflexivity.
    + exists y, x. split; [|exact E]. split; [exact Hxy|lia].
Qed.

(** One row of the scan. *)
Lemma stats_row y acc :
  0 <= y < MATRIX_HEIGHT -> Mcu.stats_at m y 0 acc ->
  Mcu.stats_at m (y + 1) 0
    (for_count (Z.to_nat MATRIX_WIDTH) 0
       (fun x acc =>
          let '(pixelsDrawn, maxValue, minValue) := acc in
          let pixelValue := cell m y x in
          if pixelValue >? 0 then
            (to_uint32 (pixelsDrawn + 1),
             if pixelValue >? maxValue then pixelValue else maxValue,
             if pixelValue <? minValue then pixelValue else minValue)
          else acc)
       acc).
Proof.
  intros Hy H0.
  pose proof (for_count_invariant (fun x acc => Mcu.stats_at m y x acc)
                (fun x acc =>
                   let '(pixelsDrawn, maxValue, minValue) := acc in
                   let pixelValue := cell m y x in
                   if pixelValue >? 0 then
                     (to_uint32 (pixelsDrawn + 1),
                      if pixelValue >? maxValue then pixelValue
                      else maxValue,
                      if pixelValue <? minValue then pixelValue
                      else minValue)
                   else acc)
                (Z.to_nat MATRIX_WIDTH) 0 acc H0) as H.
  cbv beta in H.
  assert (Hw : 0 + Z.of_nat (Z.to_nat MATRIX_WIDTH) = MATRIX_WIDTH)
    by (unfold MATRIX_WIDTH; lia).
  rewrite Hw in H.
  match type of H with
  | ?A -> Mcu.stats_at m y MATRIX_WIDTH ?r =>
      assert (Hr : Mcu.stats_at m y MATRIX_WIDTH r);
      [apply H | clear H; set (res := r) in *]
  end.
  - intros i t Hi Ht. apply stats_cell; [|exact Ht].
    unfold in_matrix. split; [lia|exact Hy].
  - clearbody res. destruct res as [[c mx] mn]. unfold Mcu.stats_at in *.
    destruct Hr as (Hmn & Hc & Hcases).
    split; [exact Hmn|]. split; [lia|].
    destruct Hcases as [(Ec & Emx & Hz) | (Hpos & Emx & y' & x' & Hs & Hv)].
    + left. split; [exact Ec|]. split; [exact Emx|].
      intros y' x' (Hin & Hs). apply Hz. split; [exact Hin|].
      unfold in_matrix in Hin. lia.
    + right. split; [exact Hpos|]. split; [exact Emx|].
      exists y', x'. split; [|exact Hv].
      destruct Hs as (Hin & Hs). split; [exact Hin|].
      unfold in_matrix in Hin. lia.
Qed.

Lemma stats_scan : Mcu.stats_at m MATRIX_HEIGHT 0 (Mcu.showMatrixStats m).
Proof.
  unfold Mcu.showMatrixStats.
  pose proof (for_count_invariant (fun y acc => Mcu.stats_at m y 0 acc)
                (fun y acc =>
                   for_count (Z.to_nat MATRIX_WIDTH) 0
                     (fun x acc =>
                        let '(pixelsDrawn, maxValue, minValue) := acc in
                        let pixelValue := cell m y x in
                        if pixelValue >? 0 then
                          (to_uint32 (pixelsDrawn + 1),
                           if pixelValue >? maxValue then pixelValue
                           else maxValue,
                           if pixelValue <? minValue then pixelValue
                           else minValue)
                        else acc)
                     acc)
                (Z.to_nat MATRIX_HEIGHT) 0 (0, 0, 255)) as H.
  cbv beta in H.
  assert (Hh : 0 + Z.of_nat (Z.to_nat MATRIX_HEIGHT) = MATRIX_HEIGHT)
    by (unfold MATRIX_HEIGHT; lia).
  rewrite Hh in H. apply H.
  - unfold Mcu.stats_at. split; [reflexivity|]. split; [lia|].
    left. split; [reflexivity|]. split; [reflexivity|].
    intros y' x' (Hin & Hs). unfold in_matrix in Hin. lia.
  - intros y t Hy Ht. apply stats_row; [lia|exact Ht].
Qed.

End Stats.

(** The statistics of a matrix of cells 0 and 255. *)
Lemma showMatrixStats_cells m :
  (forall x y, in_matrix x y -> cell m y x = 0 \/ cell m y x = 255) ->
  exists pixelsDrawn maxValue,
    Mcu.showMatrixStats m = (pixelsDrawn, maxValue, 255) /\
    (maxValue = 0 \/ maxValue = 255).
Proof.
  intros H2. pose proof (stats_scan m H2) as H.
  destruct (Mcu.showMatrixStats m) as [[c mx] mn].
  unfold Mcu.stats_at in H. destruct H as (-> & Hc & Hcases).
  exists c, mx. split; [reflexivity|].
  destruct Hcases as [(_ & -> & _) | (_ & -> & _)]; [now left|now right].
Qed.

(** X26.  On a matrix whose cells are 0 or 255 [showMatrixStats] reports
    255 as the minimum whatever the matrix holds; it counts no cell and
    reports the maximum 0 exactly when the matrix is all zero, and
    otherwise reports the maximum 255 and a count between 1 and the
    480000 cells of the matrix. *)
Theorem showMatrixStats_two_valued m :
  (forall x y, in_matrix x y -> cell m y x = 0 \/ cell m y x = 255) ->
  exists pixelsDrawn maxValue,
    Mcu.showMatrixStats m = (pixelsDrawn, maxValue, 255) /\
    0 <= pixelsDrawn <= MATRIX_WIDTH * MATRIX_HEIGHT /\
    ((pixelsDrawn = 0 /\ maxValue = 0 /\ cleared m) \/
     (0 < pixelsDrawn /\ maxValue = 255 /\
      exists x y, in_matrix x y /\ cell m y x = 255)).
Proof.
  intros H2. pose proof (stats_scan m H2) as H.
  destruct (Mcu.showMatrixStats m) as [[c mx] mn].
  unfold Mcu.stats_at in H. destruct H as (-> & Hc & Hcases).
  exists c, mx. split; [reflexivity|]. split; [lia|].
  destruct Hcases as [(Ec & Emx & Hz) | (Hpos & Emx & y' & x' & Hs & Hv)].
  - left. split; [exact Ec|]. split; [exact Emx|].
    intros x y Hxy. apply Hz. split; [exact Hxy|].
    unfold in_matrix in Hxy. lia.
  - right. split; [exact Hpos|]. split; [exact Emx|].
    exists x', y'. split; [apply Hs|exact Hv].
Qed.

Lemma showMatrixStats_two_valued_witness :
  exists pixelsDrawn maxValue,
    Mcu.showMatrixStats (mkMatrix (fun _ _ => 0) [mkStore 3 4 255]) =
    (pixelsDrawn, maxValue, 255).
Proof.
  destruct (showMatrixStats_two_valued
              (mkMatrix (fun _ _ => 0) [mkStore 3 4 255]))
    as (c & mx & E & _).
  - intros x y _. unfold cell. cbn [stores lookup st_x st_y st_value base].
    destruct ((4 =? y) && (3 =? x)); [right|left]; reflexivity.
  - exists c, mx. exact E.
Defined.

(** ** Sessions *)

Section McuSessions.

Context {D : Type} (dev : SpiDevice D).

Implicit Type s : Mcu.State D.

Lemma setup_consistent d : Mcu.consistent (Mcu.setup dev (Mcu.power_on d)).
Proof.
  unfold Mcu.setup, Mcu.power_on, Ram.begin, Mcu.consistent,
    Mcu.SAMPLE_BUFFER_SIZE.
  mcu_fields.
  split; [reflexivity|]. split; [reflexivity|]. split; [reflexivity|].
  split; [rewrite repeat_length; lia|].
  split.
  { unfold buffer_ok. apply Forall_forall. intros z Hz.
    apply repeat_spec in Hz. subst z. unfold is_uint8. lia. }
  split; [reflexivity|]. split; [reflexivity|]. split; [reflexivity|].
  split; [reflexivity|]. split; [reflexivity|].
  split.
  { split; [|split; reflexivity]. unfold Float32.one. now do 2 eexists. }
  split; [lia|reflexivity].
Qed.

Lemma set_continuousMode_consistent s b :
  Mcu.consistent s -> Mcu.consistent (Mcu.set_continuousMode s b).
Proof. intros H. exact H. Qed.

Lemma cycleTriggerMode_consistent s :
  Mcu.consistent s -> Mcu.consistent (Mcu.cycleTriggerMode s).
Proof.
  intros (Hri & Hrs & Hab & Hlen & Hok & Hpi & Hspp & Hmode & Hlev & Hsc
          & Hrange & Hidx & Haddr).
  unfold Mcu.consistent, Mcu.cycleTriggerMode. mcu_fields.
  cbn [setTrigger _initialized _samplesPerPixel _triggerMode _triggerLevel
       _amplitudeScale].
  split; [exact Hri|]. split; [exact Hrs|]. split; [exact Hab|].
  split; [exact Hlen|]. split; [exact Hok|]. split; [exact Hpi|].
  split; [exact Hspp|]. split; [reflexivity|]. split; [reflexivity|].
  split; [exact Hsc|]. split; [exact Hrange|]. split; [exact Hidx|exact Haddr].
Qed.

Lemma changeRAMAddress_consistent s :
  Mcu.consistent s -> Mcu.consistent (Mcu.changeRAMAddress s).
Proof.
  intros (Hri & Hrs & Hab & Hlen & Hok & Hpi & Hspp & Hmode & Hlev & Hsc
          & Hrange & Hidx & Haddr).
  destruct (changeRAMAddress_table s) as [Hi Ha].
  unfold Mcu.consistent.
  split; [exact Hri|]. split; [exact Hrs|]. split; [exact Hab|].
  split; [exact Hlen|]. split; [exact Hok|]. split; [exact Hpi|].
  split; [exact Hspp|]. split; [exact Hmode|]. split; [exact Hlev|].
  split; [exact Hsc|]. split; [exact Hrange|]. split; [exact Hi|exact Ha].
Qed.

Lemma adjustAmplitudeScale_consistent s factor :
  Mcu.finite factor ->
  Mcu.consistent s -> Mcu.consistent (Mcu.adjustAmplitudeScale s factor).
Proof.
  intros Hf (Hri & Hrs & Hab & Hlen & Hok & Hpi & Hspp & Hmode & Hlev & Hsc
             & Hrange & Hidx & Haddr).
  assert (Hs : Mcu.finite (Mcu.currentScale s)).
  { destruct Hrange as ((m & e & E) & _). rewrite E. exact I. }
  destruct (adjustAmplitudeScale_range s factor Hs Hf) as [Hr Ep].
  unfold Mcu.consistent.
  split; [exact Hri|]. split; [exact Hrs|]. split; [exact Hab|].
  split; [exact Hlen|]. split; [exact Hok|].
  assert (Hp : _initialized (Mcu.pds (Mcu.adjustAmplitudeScale s factor))
               = _initialized (Mcu.pds s) /\
               _samplesPerPixel (Mcu.pds (Mcu.adjustAmplitudeScale s factor))
               = _samplesPerPixel (Mcu.pds s) /\
               _triggerMode (Mcu.pds (Mcu.adjustAmplitudeScale s factor))
               = _triggerMode (Mcu.pds s) /\
               _triggerLevel (Mcu.pds (Mcu.adjustAmplitudeScale s factor))
               = _triggerLevel (Mcu.pds s)).
  { unfold Mcu.adjustAmplitudeScale. mcu_fields. unfold setAmplitudeScale.
    destruct (Float32.ltb Float32.zero _); repeat split; reflexivity. }
  destruct Hp as (E1 & E2 & E3 & E4).
  split; [rewrite E1; exact Hpi|]. split; [rewrite E2; exact Hspp|].
  split; [rewrite E3; exact Hmode|]. split; [rewrite E4; exact Hlev|].
  split; [exact Ep|]. split; [exact Hr|]. split; [exact Hidx|exact Haddr].
Qed.

Lemma capture_two_valued m m' ws :
  extends_by (clearMatrix m) m' ws ->
  Forall (fun c => st_value c = 255) ws ->
  forall x y, in_matrix x y -> cell m' y x = 0 \/ cell m' y x = 255.
Proof.
  intros He Hv x y Hxy.
  destruct (cell_value_or_old (clearMatrix m) m' ws 255 y x He Hv)
    as [-> | ->]; [now right|].
  left. apply clearMatrix_cleared. exact Hxy.
Qed.

(** X23.  With the 1024 bytes the reader is constructed for, a capture at
    any section of the address table but the first reads nothing: the
    address is beyond the size the reader knows, no byte goes over the
    bus, the sample buffer keeps what it held, and the capture still
    returns. *)
Theorem capture_beyond_ramSize a s :
  Mcu.consistent s -> Mcu.addressIndex s <> 0 ->
  Ram._ramSize (Mcu.ram s) <= Mcu.currentRAMAddress s /\
  exists s',
    Mcu.performDataCapture dev a line_fuel s = Ok s' /\
    Mcu.bus s' = Mcu.bus s /\
    Mcu.sampleBuffer s' = Mcu.sampleBuffer s.
Proof.
  intros Hc Hne.
  destruct (capture_spec dev a s Hc)
    as (d' & buf' & start & p' & m' & ws & _ & _ & Hn & _ & Hrun & _).
  destruct (Hn Hne) as [-> ->].
  destruct Hc as (_ & Hrs & _ & _ & _ & _ & _ & _ & _ & _ & _ & Hidx & Haddr).
  split; [lia|].
  eexists. split; [exact Hrun|]. split; reflexivity.
Qed.

(** X24.  A capture at the first section makes one read transaction of
    1024 bytes at address 0; the sample buffer then holds exactly the
    1024 bytes the memory answered, and the bus is in the state the
    transaction left. *)
Theorem capture_first_section a s :
  Mcu.consistent s -> Mcu.addressIndex s = 0 ->
  exists s',
    Mcu.performDataCapture dev a line_fuel s = Ok s' /\
    Mcu.bus s' = fst (Ram.frame dev (Mcu.bus s) 0 1024) /\
    Mcu.sampleBuffer s' = snd (Ram.frame dev (Mcu.bus s) 0 1024) /\
    length (Mcu.sampleBuffer s') = 1024%nat /\
    buffer_ok (Mcu.sampleBuffer s').
Proof.
  intros Hc H0.
  destruct (capture_spec dev a s Hc)
    as (d' & buf' & start & p' & m' & ws & _ & Hz & _ & _ & Hrun & _).
  destruct (Hz H0) as [-> ->].
  eexists. split; [exact Hrun|]. mcu_fields.
  split; [reflexivity|]. split; [reflexivity|].
  destruct (frame_answers dev (Mcu.bus s) 0 1024) as [Hl Hok].
  split; [exact Hl|exact Hok].
Qed.

(** X27.  Every capture in a consistent state returns and leaves a
    matrix of cells 0 and 255, so that the statistics printed after it
    give 255 as the minimum, and 0 or 255 as the maximum; the capture
    changes neither the reader, the address, the modes nor the scale. *)
Theorem capture_display a s :
  Mcu.consistent s ->
  exists s' pixelsDrawn maxValue,
    Mcu.performDataCapture dev a line_fuel s = Ok s' /\
    (forall x y, in_matrix x y ->
       cell (Mcu.displayMatrix s') y x = 0 \/
       cell (Mcu.displayMatrix s') y x = 255) /\
    Mcu.showMatrixStats (Mcu.displayMatrix s') =
      (pixelsDrawn, maxValue, 255) /\
    (maxValue = 0 \/ maxValue = 255) /\
    Mcu.ram s' = Mcu.ram s /\
    Mcu.currentRAMAddress s' = Mcu.currentRAMAddress s /\
    Mcu.continuousMode s' = Mcu.continuousMode s /\
    Mcu.currentMode s' = Mcu.currentMode s /\
    Mcu.addressIndex s' = Mcu.addressIndex s /\
    Mcu.currentScale s' = Mcu.currentScale s /\
    _amplitudeScale (Mcu.pds s') = _amplitudeScale (Mcu.pds s) /\
    _triggerMode (Mcu.pds s') = _triggerMode (Mcu.pds s).
Proof.
  intros Hc.
  destruct (capture_spec dev a s Hc)
    as (d' & buf' & start & p' & m' & ws & _ & _ & _ & _ & Hrun & He & Hall
        & Hc').
  assert (Hv : Forall (fun c => st_value c = 255) ws).
  { eapply Forall_impl; [|exact Hall]. intros c Hcell. apply Hcell. }
  pose proof (capture_two_valued _ _ _ He Hv) as H2.
  destruct (showMatrixStats_cells m' H2) as (n & mx & E & Hmx).
  eexists. exists n, mx. split; [exact Hrun|]. mcu_fields.
  split; [exact H2|]. split; [exact E|]. split; [exact Hmx|].
  destruct Hc as (_ & _ & _ & _ & _ & _ & _ & Hmode & _ & Hsc & _).
  destruct Hc' as (_ & _ & _ & _ & _ & _ & _ & Hmode' & _ & Hsc' & _).
  revert Hmode' Hsc'. mcu_fields. intros Hmode' Hsc'.
  split; [reflexivity|]. split; [reflexivity|]. split; [reflexivity|].
  split; [reflexivity|]. split; [reflexivity|]. split; [reflexivity|].
  split; [now rewrite Hsc', Hsc|now rewrite Hmode', Hmode].
Qed.

Lemma performDataCapture_consistent a s :
  Mcu.consistent s ->
  exists s', Mcu.performDataCapture dev a line_fuel s = Ok s' /\
             Mcu.consistent s'.
Proof.
  intros Hc.
  destruct (capture_spec dev a s Hc)
    as (d' & buf' & start & p' & m' & ws & _ & _ & _ & _ & Hrun & _ & _
        & Hc').
  eexists. split; [exact Hrun|exact Hc'].
Qed.

Lemma processSerialCommands_consistent a s available :
  Mcu.consistent s ->
  exists s', Mcu.processSerialCommands dev a line_fuel s available = Ok s' /\
             Mcu.consistent s'.
Proof.
  intros Hc. unfold Mcu.processSerialCommands.
  destruct available as [cmd|];
    [|eexists; split; [reflexivity|exact Hc]].
  destruct (Ascii.eqb cmd "s" || Ascii.eqb cmd "S").
  { apply performDataCapture_consistent.
    now apply set_continuousMode_consistent. }
  destruct (Ascii.eqb cmd "c" || Ascii.eqb cmd "C").
  { eexists. split; [reflexivity|].
    now apply set_continuousMode_consistent. }
  destruct (Ascii.eqb cmd "t" || Ascii.eqb cmd "T").
  { eexists. split; [reflexivity|]. now apply cycleTriggerMode_consistent. }
  destruct (Ascii.eqb cmd "a" || Ascii.eqb cmd "A").
  { eexists. split; [reflexivity|]. now apply changeRAMAddress_consistent. }
  destruct (Ascii.eqb cmd "+").
  { eexists. split; [reflexivity|].
    apply adjustAmplitudeScale_consistent; [|exact Hc].
    exact I. }
  destruct (Ascii.eqb cmd "-").
  { eexists. split; [reflexivity|].
    apply adjustAmplitudeScale_consistent; [|exact Hc].
    exact I. }
  eexists. split; [reflexivity|exact Hc].
Qed.

Lemma loop_consistent a s available due :
  Mcu.consistent s ->
  exists s', Mcu.loop dev a line_fuel s available due = Ok s' /\
             Mcu.consistent s'.
Proof.
  intros Hc. unfold Mcu.loop.
  destruct (processSerialCommands_consistent a s available Hc)
    as (s1 & -> & Hc1).
  cbn [bind].
  destruct (Mcu.continuousMode s1 && due).
  - now apply performDataCapture_consistent.
  - exists s1. split; [reflexivity|exact Hc1].
Qed.

(** X25.  Whatever characters arrive on the serial line after [setup]
    and whenever the capture interval elapses, no pass of [loop] faults
    and the program stays consistent: the reader is ready, the sample
    buffer holds 1024 bytes, the processor is initialised with one sample
    per pixel and trigger level 128, its trigger mode and its amplitude
    scale are those the program remembers, the scale lies between [0.1f]
    and [10.0f], and the address is the entry of the table the index
    selects. *)
Theorem session_consistent a d passes :
  exists s',
    Mcu.session dev a line_fuel (Mcu.setup dev (Mcu.power_on d)) passes
      = Ok s' /\
    Mcu.consistent s'.
Proof.
  assert (H : forall s, Mcu.consistent s ->
            exists s', Mcu.session dev a line_fuel s passes = Ok s' /\
                       Mcu.consistent s').
  { induction passes as [|[available due] rest IH]; intros s Hc.
    - exists s. split; [reflexivity|exact Hc].
    - cbn [Mcu.session].
      destruct (loop_consistent a s available due Hc) as (s1 & -> & Hc1).
      cbn [bind]. now apply IH. }
  apply H, setup_consistent.
Qed.

End McuSessions.

Lemma capture_beyond_ramSize_witness :
  exists s',
    Mcu.performDataCapture counting_device Ram.OTHER_CORE line_fuel
      (Mcu.changeRAMAddress (Mcu.setup counting_device (Mcu.power_on 0)))
      = Ok s' /\
    Mcu.bus s' = 0.
Proof.
  destruct (capture_beyond_ramSize counting_device Ram.OTHER_CORE
              (Mcu.changeRAMAddress
                 (Mcu.setup counting_device (Mcu.power_on 0))))
    as (_ & s' & Hrun & Hbus & _).
  - apply changeRAMAddress_consistent, setup_consistent.
  - cbn. discriminate.
  - exists s'. split; [exact Hrun|]. rewrite Hbus. reflexivity.
Defined.

Lemma capture_first_section_witness :
  exists s',
    Mcu.performDataCapture counting_device Ram.ARDUINO_ARCH_ESP32 line_fuel
      (Mcu.setup counting_device (Mcu.power_on 0)) = Ok s' /\
    length (Mcu.sampleBuffer s') = 1024%nat.
Proof.
  destruct (capture_first_section counting_device Ram.ARDUINO_ARCH_ESP32
              (Mcu.setup counting_device (Mcu.power_on 0)))
    as (s' & Hrun & _ & _ & Hl & _).
  - apply setup_consistent.
  - reflexivity.
  - exists s'. split; [exact Hrun|exact Hl].
Defined.

Lemma capture_display_witness :
  exists s' pixelsDrawn maxValue,
    Mcu.performDataCapture counting_device Ram.ARDUINO_ARCH_ESP32 line_fuel
      (Mcu.setup counting_device (Mcu.power_on 0)) = Ok s' /\
    Mcu.showMatrixStats (Mcu.displayMatrix s') = (pixelsDrawn, maxValue, 255).
Proof.
  destruct (capture_display counting_device Ram.ARDUINO_ARCH_ESP32
              (Mcu.setup counting_device (Mcu.power_on 0)))
    as (s' & n & mx & Hrun & _ & E & _).
  - apply setup_consistent.
  - exists s', n, mx. split; [exact Hrun|exact E].
Defined.

(* ------------------------------------------------------------------ *)
(** * The test program *)

Section PixelCount.

Variable m : Matrix.

Lemma pixelCount_cell y x count :
  in_matrix x y ->
  0 <= count <= y * MATRIX_WIDTH + x /\
  (count = 0 <-> forall y' x', Mcu.scanned y x y' x' -> cell m y' x' <= 0) ->
  let count' := if cell m y x >? 0 then to_uint32 (count + 1) else count in
  0 <= count' <= y * MATRIX_WIDTH + (x + 1) /\
  (count' = 0 <->
   forall y' x', Mcu.scanned y (x + 1) y' x' -> cell m y' x' <= 0).
Proof.
  intros Hxy (Hc & Hz). cbv zeta.
  pose proof Hxy as Hxy'.
  unfold in_matrix, MATRIX_WIDTH, MATRIX_HEIGHT in Hxy'.
  unfold MATRIX_WIDTH in *.
  destruct (Z.gtb_spec (cell m y x) 0) as [Hlit|Hdark].
  - rewrite to_uint32_small by nia. split; [lia|]. split; [lia|].
    intros Hall. exfalso.
    assert (cell m y x <= 0); [|lia].
    apply Hall. split; [exact Hxy|lia].
  - split; [lia|]. rewrite Hz. split.
    + intros Hall y' x' (Hin & Hs).
      destruct (Z.eq_dec y' y) as [->|Hy];
        [destruct (Z.eq_dec x' x) as [->|Hx]; [exact Hdark|]|];
        apply Hall; (split; [exact Hin|lia]).
    + intros Hall y' x' (Hin & Hs). apply Hall. split; [exact Hin|lia].
Qed.

Lemma pixelCount_spec :
  0 <= TestPds.pixelCount m <= MATRIX_WIDTH * MATRIX_HEIGHT /\
  (TestPds.pixelCount m = 0 <->
   forall x y, in_matrix x y -> cell m y x <= 0).
Proof.
  set (P := fun y x count =>
              0 <= count <= y * MATRIX_WIDTH + x /\
              (count = 0 <->
               forall y' x', Mcu.scanned y x y' x' -> cell m y' x' <= 0)).
  assert (Hrow : forall y count,
            0 <= y < MATRIX_HEIGHT -> P y 0 count ->
            P (y + 1) 0
              (for_count (Z.to_nat MATRIX_WIDTH) 0
                 (fun x count =>
                    if cell m y x >? 0 then to_uint32 (count + 1)
                    else count)
                 count)).
  { intros y count Hy H0.
    pose proof (for_count_invariant (P y)
                  (fun x count =>
                     if cell m y x >? 0 then to_uint32 (count + 1)
                     else count)
                  (Z.to_nat MATRIX_WIDTH) 0 count H0) as H.
    assert (Hw : 0 + Z.of_nat (Z.to_nat MATRIX_WIDTH) = MATRIX_WIDTH)
      by (unfold MATRIX_WIDTH; lia).
    rewrite Hw in H.
    match type of H with
    | ?A -> P y MATRIX_WIDTH ?r =>
        assert (Hr : P y MATRIX_WIDTH r);
        [apply H | clear H; set (res := r) in *; clearbody res]
    end.
    - intros i t Hi Ht. apply pixelCount_cell; [|exact Ht].
      unfold in_matrix. split; [lia|exact Hy].
    - destruct Hr as (Hc & Hz). split; [lia|]. rewrite Hz.
      split; intros Hall y' x' (Hin & Hs); apply Hall;
        (split; [exact Hin|]); unfold in_matrix in Hin; lia. }
  pose proof (for_count_invariant (fun y count => P y 0 count)
                (fun y count =>
                   for_count (Z.to_nat MATRIX_WIDTH) 0
                     (fun x count =>
                        if cell m y x >? 0 then to_uint32 (count + 1)
                        else count)
                     count)
                (Z.to_nat MATRIX_HEIGHT) 0 0) as H.
  cbv beta in H.
  assert (Hh : 0 + Z.of_nat (Z.to_nat MATRIX_HEIGHT) = MATRIX_HEIGHT)
    by (unfold MATRIX_HEIGHT; lia).
  rewrite Hh in H.
  assert (Hfin : P MATRIX_HEIGHT 0 (TestPds.pixelCount m)).
  { apply H.
    - split; [lia|]. split; [|reflexivity].
      intros _ y' x' (Hin & Hs). unfold in_matrix in Hin. lia.
    - intros y t Hy Ht. apply Hrow; [lia|exact Ht]. }
  destruct Hfin as (Hc & Hz). split; [lia|]. rewrite Hz.
  split.
  - intros Hall x y Hxy. apply Hall. split; [exact Hxy|].
    unfold in_matrix in Hxy. lia.
  - intros Hall y' x' (Hin & _). now apply Hall.
Qed.

End PixelCount.

Lemma runPDSTest_config p mode level amplitudeScale :
  let p1 := setTimeScale
              (setAmplitudeScale (setTrigger p mode level) amplitudeScale)
              1 in
  _initialized p1 = _initialized p /\ _samplesPerPixel p1 = 1 /\
  _triggerMode p1 = mode.
Proof.
  cbv zeta. unfold setTimeScale. change (1 >? 0) with true. cbv iota.
  cbn [_initialized _samplesPerPixel _triggerMode].
  unfold setAmplitudeScale.
  destruct (Float32.ltb Float32.zero amplitudeScale);
    repeat split; reflexivity.
Qed.

(** A call with one fillable column returns the cleared matrix. *)
Lemma processData_one_column fuel p data len m start p' :
  input_ok data len -> 0 < len ->
  _initialized p = true ->
  locateTrigger p data len = Ok (start, p') ->
  pixelsToFill p' len start = 1 ->
  processData fuel p (Some data) len (Some m) =
    Ok (mkOutcome true p' (Some (clearMatrix m))).
Proof.
  intros (Hsz & Hlen & Hok) Hpos Hinit Hloc Hone.
  rewrite processData_checked by (assumption || lia).
  rewrite Hloc. cbn [bind fst snd]. rewrite Hone.
  destruct (locateTrigger_start p data len start p' Hsz Hpos Hlen Hloc)
    as (Hstart & _).
  rewrite read_in_bounds by lia. reflexivity.
Qed.

(** X28.  A run of the test program on any 500 bytes of test data
    succeeds, whatever the trigger and the scale, and its pixel count is
    at most the 480000 cells of the matrix.  The count is 0 - the case
    the program reports as nothing drawn - exactly when the trigger was
    found at the last sample, index 499; with the trigger off the count
    is never 0. *)
Theorem runPDSTest_pixels p testData testMatrix mode level amplitudeScale :
  _initialized p = true ->
  Z.of_nat (length testData) = TestPds.TEST_BUFFER_SIZE ->
  buffer_ok testData ->
  exists p' m' pixelCount,
    TestPds.runPDSTest line_fuel p testData testMatrix mode level
                       amplitudeScale = Ok (p', m', Some pixelCount) /\
    0 <= pixelCount <= MATRIX_WIDTH * MATRIX_HEIGHT /\
    (pixelCount = 0 <->
     getTriggerStatus p' = true /\ getTriggerPosition p' = 499) /\
    (mode = TRIGGER_OFF -> 0 < pixelCount).
Proof.
  intros Hinit Hlen Hok. unfold TestPds.TEST_BUFFER_SIZE in *.
  unfold TestPds.runPDSTest, TestPds.TEST_BUFFER_SIZE. cbv zeta.
  destruct (runPDSTest_config p mode level amplitudeScale)
    as (Ei & Espp & Emode).
  set (p1 := setTimeScale
               (setAmplitudeScale (setTrigger p mode level) amplitudeScale)
               1) in *.
  assert (Hin : input_ok testData 500).
  { split; [unfold is_size_t; lia|]. split; [lia|exact Hok]. }
  assert (Hsz : is_size_t 500) by (unfold is_size_t; lia).
  destruct (processData_drawn p1 testData 500 testMatrix Hin ltac:(lia)
              ltac:(rewrite Ei; exact Hinit)
              ltac:(rewrite Espp; unfold is_uint16; lia)
              ltac:(rewrite Espp; lia))
    as (start & p' & m' & ws & Hloc & Hrun & He & Hall & Hpts).
  destruct (locateTrigger_start p1 testData 500 start p' Hsz ltac:(lia)
              ltac:(lia) Hloc) as (Hstart & Espp' & _).
  assert (Hfill : pixelsToFill p' 500 start = 500 - start).
  { rewrite pixelsToFill_min by (assumption || lia).
    rewrite Espp', Espp, Z.div_1_r. unfold MATRIX_WIDTH. lia. }
  rewrite Hfill in *.
  assert (Hstate : (start = 0 \/ _triggerDetected p' = true) /\
                   (_triggerDetected p' = true -> _triggerPosition p' = start)
                   /\ (mode = TRIGGER_OFF -> start = 0)).
  { destruct (locateTrigger_spec p1 testData 500 Hsz ltac:(lia))
      as (r & _ & _ & E).
    rewrite E, Emode in Hloc. clear E.
    destruct mode;
      [| destruct (r =? SIZE_MAX) .. ];
      injection Hloc as <- <-; cbn [set_trigger_state _triggerDetected
                                    _triggerPosition];
      (split; [auto|]); (split; [intros; try discriminate; reflexivity|]);
      intros; try discriminate; reflexivity. }
  destruct Hstate as (Hdet & Hpos & Hoff).
  unfold buffer in *. pose proof Hrun as Hrun0.
  rewrite Hrun. cbn [bind matrix_after pds_after success].
  destruct (Z.eqb_spec (500 - start) 0) as [Hz|_]; [lia|]. cbn [negb].
  exists p', m', (TestPds.pixelCount m').
  split; [reflexivity|].
  destruct (pixelCount_spec m') as (Hrange & Hzero).
  split; [exact Hrange|].
  assert (Hv : Forall (fun c => st_value c = 255) ws).
  { eapply Forall_impl; [|exact Hall]. intros c Hcell. apply Hcell. }
  assert (Hlit : start <= 498 -> TestPds.pixelCount m' <> 0).
  { intros Hs Hcount.
    pose proof (proj1 Hzero Hcount) as Hdark.
    pose proof (columnY_range p' testData start 0) as Hy.
    assert (Hcell : cell m' (columnY p' testData start 0) 0 = 255).
    { apply (cell_lit (clearMatrix testMatrix) m' ws 255 _ _ He Hv).
      exists (mkStore 0 (columnY p' testData start 0) 255).
      split; [apply Hpts; lia|]. split; reflexivity. }
    specialize (Hdark 0 (columnY p' testData start 0)).
    rewrite Hcell in Hdark.
    assert (255 <= 0); [|lia].
    apply Hdark. unfold in_matrix, MATRIX_WIDTH. split; [lia|exact Hy]. }
  assert (Hblank : start = 499 -> TestPds.pixelCount m' = 0).
  { intros E499. apply Hzero. intros x y Hxy.
    pose proof (processData_one_column line_fuel p1 testData 500 testMatrix
                  start p' Hin ltac:(lia) ltac:(rewrite Ei; exact Hinit)
                  Hloc ltac:(lia)) as H1.
    unfold buffer in H1. rewrite H1 in Hrun0.
    pose proof (f_equal (fun r => match r with
                                  | Ok o => match matrix_after o with
                                            | Some m0 => cell m0 y x
                                            | None => 0
                                            end
                                  | Fault _ => 0
                                  end) Hrun0) as Em.
    cbv beta iota in Em. cbn [matrix_after] in Em. rewrite <- Em.
    rewrite (clearMatrix_cleared testMatrix x y Hxy). lia. }
  split; [|intros Em; specialize (Hoff Em); lia].
  split.
  - intros Hcount.
    assert (start = 499) by (destruct (Z.le_gt_cases start 498) as [Hs|Hs];
                             [exfalso; now apply Hlit|lia]).
    subst start. destruct Hdet as [Hd|Hd]; [lia|].
    unfold getTriggerStatus, getTriggerPosition. split; [exact Hd|auto].
  - unfold getTriggerStatus, getTriggerPosition. intros (Hd & Hp).
    apply Hblank. rewrite <- Hp. symmetry. auto.
Qed.

Lemma runPDSTest_pixels_witness :
  exists p' m' pixelCount,
    TestPds.runPDSTest line_fuel (begin Pds_new) (repeat 7 500)
                       (mkMatrix (fun _ _ => 0) []) TRIGGER_OFF 128
                       Float32.one = Ok (p', m', Some pixelCount) /\
    0 < pixelCount.
Proof.
  destruct (runPDSTest_pixels (begin Pds_new) (repeat 7 500)
              (mkMatrix (fun _ _ => 0) []) TRIGGER_OFF 128 Float32.one)
    as (p' & m' & n & Hrun & _ & _ & Hoff).
  - reflexivity.
  - rewrite repeat_length. reflexivity.
  - unfold buffer_ok. apply Forall_forall. intros z Hz.
    apply repeat_spec in Hz. subst z. unfold is_uint8. lia.
  - exists p', m', n. split; [exact Hrun|]. apply Hoff. reflexivity.
Defined.

(* ------------------------------------------------------------------ *)
(** * The sensor capture *)

Lemma nth_write (buf : list Z) v : forall i j,
  (i < length buf)%nat ->
  nth j (firstn i buf ++ v :: skipn (i + 1) buf) 0 =
  if (j =? i)%nat then v else nth j buf 0.
Proof.
  induction buf as [|a buf IH]; intros i j Hi; [cbn [length] in Hi; lia|].
  destruct i as [|i].
  - cbn [firstn app Nat.add skipn]. destruct j as [|j]; reflexivity.
  - cbn [firstn app Nat.add skipn]. destruct j as [|j]; [reflexivity|].
    cbn [nth Nat.eqb]. apply IH. cbn [length] in Hi. lia.
Qed.

Lemma length_write (buf : list Z) v i :
  (i < length buf)%nat ->
  length (firstn i buf ++ v :: skipn (i + 1) buf) = length buf.
Proof.
  intros Hi. rewrite length_app, length_firstn. cbn [length].
  rewrite length_skipn. lia.
Qed.

Lemma captures_app c l1 l2 :
  Sensor.captures c (l1 ++ l2) =
  (c1 <- Sensor.captures c l1 ;; Sensor.captures c1 l2).
Proof.
  revert c. induction l1 as [|v l1 IH]; intros c; [reflexivity|].
  cbn [app Sensor.captures].
  destruct (Sensor.captureSensorData c v) as [c1|f]; [|reflexivity].
  cbn [bind]. apply IH.
Qed.

(** One capture in a state whose index is inside the memory. *)
Lemma captureSensorData_step c v :
  0 <= Sensor.writeIndex c < Z.of_nat (length (Sensor.simulatedRAM c)) ->
  Z.of_nat (length (Sensor.simulatedRAM c)) = Sensor.RAM_SIZE ->
  exists ram,
    Sensor.captureSensorData c v =
      Ok (Sensor.mkCapture ram
            ((Sensor.writeIndex c + 1) mod Sensor.RAM_SIZE)) /\
    length ram = length (Sensor.simulatedRAM c) /\
    forall j, 0 <= j ->
      sample ram j =
      if j =? Sensor.writeIndex c then v
      else sample (Sensor.simulatedRAM c) j.
Proof.
  intros Hi Hlen. unfold Sensor.RAM_SIZE in *.
  unfold Sensor.captureSensorData, Ram.write_bytes. cbn [length].
  destruct (Z.ltb_spec (Sensor.writeIndex c) 0) as [Hneg|_]; [lia|].
  destruct (Z.ltb_spec (Z.of_nat (length (Sensor.simulatedRAM c)))
              (Sensor.writeIndex c + Z.of_nat 1)) as [Hout|_]; [lia|].
  cbn [orb bind app]. rewrite to_uint32_small by lia.
  eexists. split; [reflexivity|].
  assert (Hn : (Z.to_nat (Sensor.writeIndex c)
                < length (Sensor.simulatedRAM c))%nat) by lia.
  split; [now apply length_write|].
  intros j Hj. unfold sample. rewrite nth_write by exact Hn.
  destruct (Z.eqb_spec j (Sensor.writeIndex c)) as [->|Hne].
  - now rewrite Nat.eqb_refl.
  - destruct (Nat.eqb_spec (Z.to_nat j) (Z.to_nat (Sensor.writeIndex c)))
      as [E|_]; [lia|reflexivity].
Qed.

(** X29.  The capture is a ring buffer over the whole memory: after any
    number of readings no store has left the memory, the write index is
    the number of readings modulo 65536, the memory holds each of the
    last 65536 readings at its number modulo 65536, and the cells no
    reading has reached yet keep what they held. *)
Theorem captures_ring ram0 readings :
  Z.of_nat (length ram0) = Sensor.RAM_SIZE ->
  exists c,
    Sensor.captures (Sensor.mkCapture ram0 0) readings = Ok c /\
    Sensor.writeIndex c = Z.of_nat (length readings) mod Sensor.RAM_SIZE /\
    Z.of_nat (length (Sensor.simulatedRAM c)) = Sensor.RAM_SIZE /\
    (forall k, 0 <= k < Z.of_nat (length readings) ->
               Z.of_nat (length readings) - Sensor.RAM_SIZE <= k ->
               sample (Sensor.simulatedRAM c) (k mod Sensor.RAM_SIZE) =
               sample readings k) /\
    (forall j, Z.of_nat (length readings) <= j < Sensor.RAM_SIZE ->
               sample (Sensor.simulatedRAM c) j = sample ram0 j).
Proof.
  intros Hlen0.
  induction readings as [|v vs IH] using rev_ind.
  - exists (Sensor.mkCapture ram0 0). cbn [Sensor.captures length].
    split; [reflexivity|]. split; [reflexivity|]. split; [exact Hlen0|].
    split; [intros k Hk; lia|]. intros j _. reflexivity.
  - destruct IH as (c & Hrun & Hidx & Hlen & Hlast & Hold).
    rewrite captures_app, Hrun. cbn [bind Sensor.captures].
    rewrite length_app. cbn [length].
    set (n := Z.of_nat (length vs)) in *.
    replace (Z.of_nat (length vs + 1)) with (n + 1) by (subst n; lia).
    assert (Hn : 0 <= n) by (subst n; lia).
    unfold Sensor.RAM_SIZE in *.
    assert (Hi : 0 <= Sensor.writeIndex c < 65536)
      by (rewrite Hidx; apply Z.mod_pos_bound; lia).
    destruct (captureSensorData_step c v ltac:(lia) Hlen)
      as (ram & -> & Hl & Hcell).
    cbn [bind]. eexists. split; [reflexivity|].
    cbn [Sensor.writeIndex Sensor.simulatedRAM].
    split; [rewrite Hidx; apply Z.add_mod_idemp_l; lia|].
    split; [rewrite Hl; exact Hlen|].
    split.
    + intros k Hk Hwin.
      rewrite Hcell by (apply Z.mod_pos_bound; lia). rewrite Hidx.
      destruct (Z.eq_dec k n) as [->|Hne].
      * rewrite Z.eqb_refl. unfold sample. subst n.
        rewrite Nat2Z.id, nth_middle. reflexivity.
      * destruct (Z.eqb_spec (k mod 65536) (n mod 65536)) as [E|_].
        { exfalso. revert E. clear - Hk Hwin Hne.
          intros E. apply Hne.
          pose proof (Z.div_mod k 65536 ltac:(lia)).
          pose proof (Z.div_mod n 65536 ltac:(lia)). lia. }
        rewrite Hlast by lia. unfold sample.
        rewrite app_nth1 by (subst n; lia). reflexivity.
    + intros j Hj. rewrite Hcell by lia. rewrite Hidx.
      rewrite Z.mod_small by lia.
      destruct (Z.eqb_spec j n) as [E|_]; [lia|]. apply Hold. lia.
Qed.

Lemma captures_ring_witness :
  exists c,
    Sensor.captures (Sensor.mkCapture (repeat 0 (Z.to_nat 65536)) 0)
                    [5; 6; 7] = Ok c /\
    Sensor.writeIndex c = 3.
Proof.
  destruct (captures_ring (repeat 0 (Z.to_nat 65536)) [5; 6; 7])
    as (c & Hrun & Hidx & _).
  - rewrite repeat_length. unfold Sensor.RAM_SIZE. lia.
  - exists c. split; [exact Hrun|]. rewrite Hidx. reflexivity.
Defined.
